(** * AI interview bot: response cache and response generator

    A shallow embedding of [src/modules/cache-manager.js] (class
    [CacheManager]) and of the class [LLMClient] (second half of
    [src/modules/lip-sync-controller.js]), with the properties that the
    design document states about them; then of the emotion detector
    ([src/modules/emotion-detector.js]) and of the step of
    [handleUserSpeech] ([src/app.js]) that puts the cache in front of the
    generator, with further properties of the code.

    Conventions of the embedding.
    - A JavaScript string is a Rocq [string], read as a sequence of code
      units in the range 0..255.  On that range [toLowerCase], [trim] and
      the regular-expression class [\s] are modelled as ECMAScript
      defines them.
    - A JavaScript number that the code multiplies, adds or compares is an
      IEEE-754 binary64 value, modelled by [spec_float] with precision 53
      and maximal exponent 1024; counters, lengths and indices are [nat]
      or [Z].
    - A [Map] is an association list in insertion order.
    - [throw] and [try]/[catch] are modelled by the type [outcome].
    - A method is a function from the state of the object, and of the
      store or capability it uses, to its result and the state after.
    - What the generator sends to the text-generation capability is read
      where it arrives: [Probe.recording] wraps a capability so that it
      keeps, in its own state, a journal of the invocations it receives. *)

From Stdlib Require Import ZArith List String Ascii Bool Arith Lia.
From Stdlib Require Import Floats.SpecFloat.
Import ListNotations.

Local Open Scope list_scope.
Local Open Scope string_scope.

(* ================================================================== *)
(** * Part I: the program *)
(* ================================================================== *)

(** ** ECMAScript strings *)

Module JsString.

Definition code (c : ascii) : nat := nat_of_ascii c.

(** [String.prototype.toLowerCase] on one code unit: the letters A to Z,
    and the letters of the range 192..222 other than the multiplication
    sign 215, move up by 32. *)
Definition lower (c : ascii) : ascii :=
  if ((65 <=? code c)%nat && (code c <=? 90)%nat)
     || ((192 <=? code c)%nat && (code c <=? 222)%nat
         && negb (code c =? 215)%nat)
  then ascii_of_nat (code c + 32) else c.

Fixpoint toLowerCase (s : string) : string :=
  match s with
  | EmptyString => EmptyString
  | String c r => String (lower c) (toLowerCase r)
  end.

(** White space of [trim] and of [\s]: TAB, LF, VT, FF, CR, SPACE and
    the no-break space 160. *)
Definition is_space (c : ascii) : bool :=
  ((9 <=? code c)%nat && (code c <=? 13)%nat) || (code c =? 32)%nat
  || (code c =? 160)%nat.

Fixpoint trimStart (s : string) : string :=
  match s with
  | String c r => if is_space c then trimStart r else s
  | EmptyString => EmptyString
  end.

Fixpoint trimEnd (s : string) : string :=
  match s with
  | EmptyString => EmptyString
  | String c r =>
      match trimEnd r with
      | EmptyString => if is_space c then EmptyString else String c EmptyString
      | r' => String c r'
      end
  end.

Definition trim (s : string) : string := trimEnd (trimStart s).

(** [s.substring(0, n)] for [0 <= n]. *)
Fixpoint take (n : nat) (s : string) : string :=
  match n, s with
  | S n', String c r => String c (take n' r)
  | _, _ => EmptyString
  end.

(** [s.substring(n)] for [0 <= n]. *)
Fixpoint drop (n : nat) (s : string) : string :=
  match n, s with
  | S n', String _ r => drop n' r
  | _, _ => s
  end.

Definition startsWith (s p : string) : bool := String.prefix p s.

(** [s.includes(p)]: [p] occurs in [s] as a contiguous substring. *)
Fixpoint includes (s p : string) : bool :=
  startsWith s p ||
  match s with
  | EmptyString => false
  | String _ r => includes r p
  end.

(** The last code unit, if any. *)
Fixpoint last_char (s : string) : option ascii :=
  match s with
  | EmptyString => None
  | String c EmptyString => Some c
  | String _ r => last_char r
  end.

(** All but the last code unit. *)
Fixpoint remove_last (s : string) : string :=
  match s with
  | EmptyString => EmptyString
  | String _ EmptyString => EmptyString
  | String c r => String c (remove_last r)
  end.

Definition endsWithChar (s : string) (c : ascii) : bool :=
  match last_char s with
  | Some d => Ascii.eqb d c
  | None => false
  end.

(** [s.lastIndexOf(c)] for a one-character [c]; [-1] when absent. *)
Fixpoint lastIndexOf_from (c : ascii) (s : string) (i acc : Z) : Z :=
  match s with
  | EmptyString => acc
  | String d r =>
      lastIndexOf_from c r (i + 1)%Z (if Ascii.eqb d c then i else acc)
  end.

Definition lastIndexOf (s : string) (c : ascii) : Z :=
  lastIndexOf_from c s 0%Z (-1)%Z.

(** [s.split(sep)] for a one-character separator. *)
Fixpoint split (sep : ascii) (s : string) : list string :=
  match s with
  | EmptyString => [EmptyString]
  | String c r =>
      if Ascii.eqb c sep then EmptyString :: split sep r
      else match split sep r with
           | w :: ws => String c w :: ws
           | [] => [String c EmptyString]
           end
  end.

(** [Array.prototype.includes] on an array of strings. *)
Definition array_includes (ws : list string) (w : string) : bool :=
  existsb (String.eqb w) ws.

(** The characters of a string, for reasoning about its content. *)
Fixpoint has_char (c : ascii) (s : string) : bool :=
  match s with
  | EmptyString => false
  | String d r => Ascii.eqb d c || has_char c r
  end.

End JsString.

(** ** ECMAScript numbers (binary64) *)

Module JsNumber.

Definition prec : Z := 53.
Definition emax : Z := 1024.

Definition number := spec_float.

(** The number value of a non-negative integer. *)
Definition of_nat (n : nat) : number :=
  binary_normalize prec emax (Z.of_nat n) 0 false.

Definition mul : number -> number -> number := SFmul prec emax.
Definition add : number -> number -> number := SFadd prec emax.
Definition div : number -> number -> number := SFdiv prec emax.

(** [a > b] *)
Definition gt (a b : number) : bool := SFltb b a.

(** The literals of the source, as the nearest binary64 values. *)
Definition lit_0_7 : number := S754_finite false 6305039478318694 (-53).
Definition lit_0_8 : number := S754_finite false 7205759403792794 (-53).
Definition lit_0_15 : number := S754_finite false 5404319552844595 (-55).

End JsNumber.

(** ** Exceptions *)

Inductive exn : Type :=
| Error (message : string)
| SyntaxError
| TypeError
| SecurityError
| QuotaExceededError.

(** What a JavaScript call does: it returns a value or throws.  The third
    outcome marks a run that leaves the typed fragment modelled here (a
    [Map] holding keys or values that are not strings, a string with a
    code unit above 255); no property below is claimed for such runs. *)
Inductive outcome (A : Type) : Type :=
| Returned (a : A)
| Thrown (e : exn)
| Unmodelled.

Arguments Returned {A} a.
Arguments Thrown {A} e.
Arguments Unmodelled {A}.

Definition bind {A B : Type} (m : outcome A) (k : A -> outcome B) : outcome B :=
  match m with
  | Returned a => k a
  | Thrown e => Thrown e
  | Unmodelled => Unmodelled
  end.

(** [try { body } catch (e) { handler }] *)
Definition try_catch {A : Type} (body : outcome A) (handler : exn -> outcome A)
  : outcome A :=
  match body with
  | Thrown e => handler e
  | r => r
  end.

Declare Scope js_scope.
Delimit Scope js_scope with js.
Notation "x <- m ;; k" := (bind m (fun x => k))
  (at level 61, m at next level, right associativity) : js_scope.

(** ** The built-in [Map], keyed by strings *)

Module JsMap.

Definition t : Type := list (string * string).

Definition empty : t := [].

Definition size (m : t) : nat := List.length m.

Fixpoint get (k : string) (m : t) : option string :=
  match m with
  | [] => None
  | (k', v) :: r => if String.eqb k' k then Some v else get k r
  end.

Definition has (k : string) (m : t) : bool :=
  match get k m with Some _ => true | None => false end.

(** [m.delete(k)] *)
Fixpoint delete (k : string) (m : t) : t :=
  match m with
  | [] => []
  | (k', v) :: r => if String.eqb k' k then r else (k', v) :: delete k r
  end.

(** [m.set(k, v)]: an existing key keeps its place in the iteration
    order and takes the new value; a new key goes to the end. *)
Fixpoint set (k v : string) (m : t) : t :=
  match m with
  | [] => [(k, v)]
  | (k', v') :: r =>
      if String.eqb k' k then (k', v) :: r else (k', v') :: set k v r
  end.

(** [m.keys().next().value]; [None] is [undefined]. *)
Definition first_key (m : t) : option string :=
  match m with
  | [] => None
  | (k, _) :: _ => Some k
  end.

Definition keys (m : t) : list string := List.map fst m.

(** [Array.from(m.entries())] *)
Definition entries (m : t) : list (string * string) := m.

(** [new Map(entries)] for an array of [key, value] pairs. *)
Definition of_entries (l : list (string * string)) : t :=
  fold_left (fun m kv => set (fst kv) (snd kv) m) l empty.

End JsMap.

(** ** The built-in [JSON] object *)

Module Json.
Import JsString.

(** A parsed JSON text.  A number keeps its lexeme: the cache never
    computes with it. *)
#[local] Set Warnings "-register-all".

Inductive value : Type :=
| Null
| Bool (b : bool)
| Number (lexeme : string)
| Str (s : string)
| Array (items : list value)
| Object (members : list (string * value)).

(** *** [JSON.stringify] on an array of pairs of strings *)

Definition hex_digit (n : nat) : ascii :=
  if (n <? 10)%nat then ascii_of_nat (48 + n) else ascii_of_nat (87 + n).

(** [QuoteJSONString], one code unit. *)
Definition quote_char (c : ascii) : string :=
  if (code c =? 8)%nat then "\b"
  else if (code c =? 9)%nat then "\t"
  else if (code c =? 10)%nat then "\n"
  else if (code c =? 12)%nat then "\f"
  else if (code c =? 13)%nat then "\r"
  else if (code c =? 34)%nat then String "\" (String c EmptyString)
  else if (code c =? 92)%nat then "\\"
  else if (code c <? 32)%nat
       then "\u00" ++ String (hex_digit (code c / 16))
                       (String (hex_digit (code c mod 16)) EmptyString)
  else String c EmptyString.

Fixpoint quote_chars (s : string) : string :=
  match s with
  | EmptyString => EmptyString
  | String c r => quote_char c ++ quote_chars r
  end.

(** The quotation mark, code unit 34. *)
Definition dquote_char : ascii := Eval cbv in ascii_of_nat 34.

Definition dquote : string := String dquote_char EmptyString.

Definition quote (s : string) : string := dquote ++ quote_chars s ++ dquote.

Definition stringify_pair (kv : string * string) : string :=
  "[" ++ quote (fst kv) ++ "," ++ quote (snd kv) ++ "]".

Fixpoint stringify_items (l : list (string * string)) : string :=
  match l with
  | [] => EmptyString
  | [kv] => stringify_pair kv
  | kv :: r => stringify_pair kv ++ "," ++ stringify_items r
  end.

(** [JSON.stringify(data)] for [data] an array of [key, value] arrays. *)
Definition stringify (l : list (string * string)) : string :=
  "[" ++ stringify_items l ++ "]".

(** *** [JSON.parse]: lexical analysis *)

Inductive token : Type :=
| LBracket | RBracket | LBrace | RBrace | Comma | Colon
| TStr (s : string)
| TNum (lexeme : string)
| TTrue | TFalse | TNull.

(** [Wide]: a [u] escape above code unit 255, outside 8-bit strings. *)
Inductive lexed (A : Type) : Type :=
| Lexed (a : A)
| Bad
| Wide.

Arguments Lexed {A} a.
Arguments Bad {A}.
Arguments Wide {A}.

Definition lexed_map {A B : Type} (f : A -> B) (r : lexed A) : lexed B :=
  match r with
  | Lexed a => Lexed (f a)
  | Bad => Bad
  | Wide => Wide
  end.

Definition hex_value (c : ascii) : option nat :=
  let n := code c in
  if (48 <=? n)%nat && (n <=? 57)%nat then Some (n - 48)
  else if (97 <=? n)%nat && (n <=? 102)%nat then Some (n - 87)
  else if (65 <=? n)%nat && (n <=? 70)%nat then Some (n - 55)
  else None.

Definition hex4 (a b c d : ascii) : option nat :=
  match hex_value a, hex_value b, hex_value c, hex_value d with
  | Some x, Some y, Some z, Some w => Some (((x * 16 + y) * 16 + z) * 16 + w)
  | _, _, _, _ => None
  end.

(** The escapes of one character after a backslash. *)
Definition simple_escape (e : ascii) : option ascii :=
  if (code e =? 34)%nat then Some e            (* quotation mark *)
  else if (code e =? 92)%nat then Some e       (* reverse solidus *)
  else if (code e =? 47)%nat then Some e       (* solidus *)
  else if (code e =? 98)%nat then Some (ascii_of_nat 8)    (* b *)
  else if (code e =? 102)%nat then Some (ascii_of_nat 12)  (* f *)
  else if (code e =? 110)%nat then Some (ascii_of_nat 10)  (* n *)
  else if (code e =? 114)%nat then Some (ascii_of_nat 13)  (* r *)
  else if (code e =? 116)%nat then Some (ascii_of_nat 9)   (* t *)
  else None.

Definition push (c : ascii) (r : lexed (string * string))
  : lexed (string * string) :=
  lexed_map (fun p => (String c (fst p), snd p)) r.

(** The characters of a string literal after its opening quote, up to
    and including the closing quote; returns the string denoted and the
    rest of the input. *)
Fixpoint lex_chars (s : string) : lexed (string * string) :=
  match s with
  | EmptyString => Bad
  | String c r =>
      if (code c =? 34)%nat then Lexed (EmptyString, r)
      else if (code c =? 92)%nat then
        match r with
        | EmptyString => Bad
        | String e r' =>
            match simple_escape e with
            | Some d => push d (lex_chars r')
            | None =>
                if (code e =? 117)%nat then
                  match r' with
                  | String h1 (String h2 (String h3 (String h4 r''))) =>
                      match hex4 h1 h2 h3 h4 with
                      | Some n =>
                          if (n <? 256)%nat
                          then push (ascii_of_nat n) (lex_chars r'')
                          else Wide
                      | None => Bad
                      end
                  | _ => Bad
                  end
                else Bad
            end
        end
      else if (code c <? 32)%nat then Bad
      else push c (lex_chars r)
  end.

Definition is_digit (c : ascii) : bool :=
  (48 <=? code c)%nat && (code c <=? 57)%nat.

(** The longest prefix of digits, and the rest. *)
Fixpoint span_digits (s : string) : string * string :=
  match s with
  | String c r =>
      if is_digit c
      then let (ds, rest) := span_digits r in (String c ds, rest)
      else (EmptyString, s)
  | EmptyString => (EmptyString, EmptyString)
  end.

(** A number: an optional minus sign; an integer part, either the digit
    zero alone or a non-zero digit followed by digits; an optional
    fraction, a dot and at least one digit; an optional exponent, the
    letter e in either case, an optional sign and at least one digit. *)
Definition lex_int (s : string) : option (string * string) :=
  match s with
  | String c r =>
      if (code c =? 48)%nat then Some (String c EmptyString, r)
      else if is_digit c
           then let (ds, rest) := span_digits r in Some (String c ds, rest)
           else None
  | EmptyString => None
  end.

Definition lex_frac (s : string) : option (string * string) :=
  match s with
  | String c r =>
      if (code c =? 46)%nat then
        match span_digits r with
        | (EmptyString, _) => None
        | (ds, rest) => Some (String c ds, rest)
        end
      else Some (EmptyString, s)
  | EmptyString => Some (EmptyString, s)
  end.

Definition lex_exp (s : string) : option (string * string) :=
  match s with
  | String c r =>
      if (code c =? 101)%nat || (code c =? 69)%nat then
        let (sign, r1) :=
          match r with
          | String g r' =>
              if (code g =? 43)%nat || (code g =? 45)%nat
              then (String g EmptyString, r') else (EmptyString, r)
          | EmptyString => (EmptyString, r)
          end in
        match span_digits r1 with
        | (EmptyString, _) => None
        | (ds, rest) => Some (String c (sign ++ ds), rest)
        end
      else Some (EmptyString, s)
  | EmptyString => Some (EmptyString, s)
  end.

Definition lex_number (s : string) : option (string * string) :=
  let (sign, s1) :=
    match s with
    | String c r =>
        if (code c =? 45)%nat then (String c EmptyString, r)
        else (EmptyString, s)
    | EmptyString => (EmptyString, s)
    end in
  match lex_int s1 with
  | None => None
  | Some (i, s2) =>
      match lex_frac s2 with
      | None => None
      | Some (f, s3) =>
          match lex_exp s3 with
          | None => None
          | Some (e, s4) => Some (sign ++ i ++ f ++ e, s4)
          end
      end
  end.

(** JSON white space: SPACE, TAB, LF, CR. *)
Definition is_ws (c : ascii) : bool :=
  (code c =? 32)%nat || (code c =? 9)%nat || (code c =? 10)%nat
  || (code c =? 13)%nat.

Definition tok (t : token) (r : lexed (list token)) : lexed (list token) :=
  lexed_map (cons t) r.

Fixpoint lex (fuel : nat) (s : string) : lexed (list token) :=
  match fuel with
  | O => Bad
  | S fuel' =>
      match s with
      | EmptyString => Lexed []
      | String c r =>
          if is_ws c then lex fuel' r
          else if (code c =? 91)%nat then tok LBracket (lex fuel' r)
          else if (code c =? 93)%nat then tok RBracket (lex fuel' r)
          else if (code c =? 123)%nat then tok LBrace (lex fuel' r)
          else if (code c =? 125)%nat then tok RBrace (lex fuel' r)
          else if (code c =? 44)%nat then tok Comma (lex fuel' r)
          else if (code c =? 58)%nat then tok Colon (lex fuel' r)
          else if (code c =? 34)%nat then
            match lex_chars r with
            | Lexed (str, rest) => tok (TStr str) (lex fuel' rest)
            | Bad => Bad
            | Wide => Wide
            end
          else if startsWith s "true" then tok TTrue (lex fuel' (drop 4 s))
          else if startsWith s "false" then tok TFalse (lex fuel' (drop 5 s))
          else if startsWith s "null" then tok TNull (lex fuel' (drop 4 s))
          else
            match lex_number s with
            | Some (lexeme, rest) => tok (TNum lexeme) (lex fuel' rest)
            | None => Bad
            end
      end
  end.

(** *** [JSON.parse]: the grammar *)

Fixpoint parse_value (fuel : nat) (ts : list token)
  : option (value * list token) :=
  match fuel with
  | O => None
  | S fuel' =>
      match ts with
      | TNull :: r => Some (Null, r)
      | TTrue :: r => Some (Bool true, r)
      | TFalse :: r => Some (Bool false, r)
      | TNum l :: r => Some (Number l, r)
      | TStr s :: r => Some (Str s, r)
      | LBracket :: RBracket :: r => Some (Array [], r)
      | LBracket :: r =>
          match parse_elements fuel' r with
          | Some (items, r') => Some (Array items, r')
          | None => None
          end
      | LBrace :: RBrace :: r => Some (Object [], r)
      | LBrace :: r =>
          match parse_members fuel' r with
          | Some (members, r') => Some (Object members, r')
          | None => None
          end
      | _ => None
      end
  end

with parse_elements (fuel : nat) (ts : list token)
  : option (list value * list token) :=
  match fuel with
  | O => None
  | S fuel' =>
      match parse_value fuel' ts with
      | Some (v, Comma :: r) =>
          match parse_elements fuel' r with
          | Some (vs, r') => Some (v :: vs, r')
          | None => None
          end
      | Some (v, RBracket :: r) => Some ([v], r)
      | _ => None
      end
  end

with parse_members (fuel : nat) (ts : list token)
  : option (list (string * value) * list token) :=
  match fuel with
  | O => None
  | S fuel' =>
      match ts with
      | TStr k :: Colon :: r =>
          match parse_value fuel' r with
          | Some (v, Comma :: r') =>
              match parse_members fuel' r' with
              | Some (ms, r'') => Some ((k, v) :: ms, r'')
              | None => None
              end
          | Some (v, RBrace :: r') => Some ([(k, v)], r')
          | _ => None
          end
      | _ => None
      end
  end.

(** [JSON.parse(text)] *)
Definition parse (text : string) : outcome value :=
  match lex (S (String.length text)) text with
  | Lexed ts =>
      match parse_value (2 * List.length ts + 2) ts with
      | Some (v, []) => Returned v
      | _ => Thrown SyntaxError
      end
  | Bad => Thrown SyntaxError
  | Wide => Unmodelled
  end.

(** *** [new Map(iterable)] on a parsed value *)

Definition is_primitive (v : value) : bool :=
  match v with
  | Array _ | Object _ => false
  | _ => true
  end.

(** The own property [name] of a parsed object: the last member of that
    name wins. *)
Fixpoint property (name : string) (ms : list (string * value))
  : option value :=
  match ms with
  | [] => None
  | (k, v) :: r =>
      match property name r with
      | Some v' => Some v'
      | None => if String.eqb k name then Some v else None
      end
  end.

(** [item[0]] and [item[1]] of an entry object, when both are strings. *)
Definition entry_of (item : value) : option (string * string) :=
  match item with
  | Array (Str k :: Str v :: _) => Some (k, v)
  | Object ms =>
      match property "0" ms, property "1" ms with
      | Some (Str k), Some (Str v) => Some (k, v)
      | _, _ => None
      end
  | _ => None
  end.

Fixpoint entries_of (items : list value) : option (list (string * string)) :=
  match items with
  | [] => Some []
  | item :: r =>
      match entry_of item, entries_of r with
      | Some kv, Some l => Some (kv :: l)
      | _, _ => None
      end
  end.

(** [new Map(v)]: [null] gives the empty map; an array is read entry by
    entry, and an entry that is not an object throws; a value that is
    not iterable throws. *)
Definition to_map (v : value) : outcome JsMap.t :=
  match v with
  | Null => Returned JsMap.empty
  | Str EmptyString => Returned JsMap.empty
  | Array items =>
      if existsb is_primitive items then Thrown TypeError
      else match entries_of items with
           | Some l => Returned (JsMap.of_entries l)
           | None => Unmodelled
           end
  | _ => Thrown TypeError
  end.

(** *** The shape of a snapshot *)

(** The parsed value and the tokens of the text that [stringify] writes
    for an array of [key, value] pairs. *)
Definition pair_value (kv : string * string) : value :=
  Array [Str (fst kv); Str (snd kv)].

Definition pair_tokens (kv : string * string) : list token :=
  [LBracket; TStr (fst kv); Comma; TStr (snd kv); RBracket].

Fixpoint items_tokens (l : list (string * string)) : list token :=
  match l with
  | [] => []
  | [kv] => pair_tokens kv
  | kv :: r => (pair_tokens kv ++ Comma :: items_tokens r)%list
  end.

Definition prepend (ts : list token) (r : lexed (list token))
  : lexed (list token) :=
  lexed_map (app ts) r.

End Json.

(** ** The browser's [localStorage] *)

Module LocalStorage.

(** The store holds named strings.  Access throws when the store is not
    accessible (storage disabled for the page); a write throws when the
    stored text would exceed the quota. *)
Record t : Type := mk {
  accessible : bool;
  quota : nat;
  items : JsMap.t
}.

Definition usage (m : JsMap.t) : nat :=
  fold_right
    (fun kv n => String.length (fst kv) + String.length (snd kv) + n) 0 m.

Definition getItem (name : string) (st : t) : outcome (option string) :=
  if accessible st then Returned (JsMap.get name (items st))
  else Thrown SecurityError.

Definition setItem (name text : string) (st : t) : outcome t :=
  if accessible st then
    let items' := JsMap.set name text (items st) in
    if (usage items' <=? quota st)%nat
    then Returned (mk (accessible st) (quota st) items')
    else Thrown QuotaExceededError
  else Thrown SecurityError.

End LocalStorage.

(** ** [class CacheManager] (src/modules/cache-manager.js) *)

Module CacheManager.
Import JsString.

Record t : Type := mk {
  cache : JsMap.t;
  maxSize : Z;
  hits : nat;
  misses : nat
}.

(** [constructor(maxSize = 50)] *)
Definition new (maxSize : Z) : t := mk JsMap.empty maxSize 0 0.

Definition default_maxSize : Z := 50.

(** [hash(text)]: [text.toLowerCase().trim().substring(0, 100)] *)
Definition hash (text : string) : string :=
  take 100 (trim (toLowerCase text)).

(** [get(key)]; [None] is [null]. *)
Definition get (key : string) (c : t) : option string * t :=
  let h := hash key in
  if JsMap.has h (cache c) then
    match JsMap.get h (cache c) with
    | Some entry =>
        (Some entry,
         mk (JsMap.set h entry (JsMap.delete h (cache c)))
            (maxSize c) (S (hits c)) (misses c))
    | None => (None, c)
    end
  else (None, mk (cache c) (maxSize c) (hits c) (S (misses c))).

(** [set(key, value)] *)
Definition set (key value : string) (c : t) : t :=
  let h := hash key in
  let cache1 :=
    if (Z.of_nat (JsMap.size (cache c)) >=? maxSize c)%Z
       && negb (JsMap.has h (cache c))
    then match JsMap.first_key (cache c) with
         | Some firstKey => JsMap.delete firstKey (cache c)
         | None => cache c
         end
    else cache c in
  mk (JsMap.set h value cache1) (maxSize c) (hits c) (misses c).

(** [has(key)] *)
Definition has (key : string) (c : t) : bool := JsMap.has (hash key) (cache c).

(** [clear()] *)
Definition clear (c : t) : t := mk JsMap.empty (maxSize c) 0 0.

(** [getStats().size] *)
Definition size (c : t) : nat := JsMap.size (cache c).

Definition slot : string := "ai_interview_cache".

(** [persist()]: the object and the store after the call. *)
Definition persist (c : t) (st : LocalStorage.t)
  : outcome (t * LocalStorage.t) :=
  try_catch
    (let data := JsMap.entries (cache c) in
     st' <- LocalStorage.setItem slot (Json.stringify data) st ;;
     Returned (c, st'))%js
    (fun e => Returned (c, st)).

(** [restore()]: the object and the store after the call.  A string is
    truthy when it is not empty. *)
Definition restore (c : t) (st : LocalStorage.t)
  : outcome (t * LocalStorage.t) :=
  try_catch
    (data <- LocalStorage.getItem slot st ;;
     match data with
     | Some (String a r) =>
         entries <- Json.parse (String a r) ;;
         m <- Json.to_map entries ;;
         Returned (mk m (maxSize c) (hits c) (misses c), st)
     | _ => Returned (c, st)
     end)%js
    (fun e => Returned (c, st)).

(** A sequence of [set] calls, first call first. *)
Definition set_all (calls : list (string * string)) (c : t) : t :=
  fold_left (fun c kv => set (fst kv) (snd kv) c) calls c.

(** The representation invariant: the capacity is respected and no key
    occurs twice. *)
Definition cache_ok (c : t) : Prop :=
  (Z.of_nat (size c) <= maxSize c)%Z /\ NoDup (JsMap.keys (cache c)).

End CacheManager.

(** ** [class LLMClient] (src/modules/lip-sync-controller.js, second part) *)

Module LLMClient.
Import JsString JsNumber.

Inductive role : Type := user | assistant.

Record message : Type := msg {
  msg_role : role;
  content : string
}.

(** The fields of the object that [generateResponse] reads or writes.
    The text-generation pipeline itself is the capability of the
    section below. *)
Record t : Type := mk {
  conversationHistory : list message;
  systemPrompt : string;
  isModelLoaded : bool
}.

Definition nl_char : ascii := Eval cbv in ascii_of_nat 10.
Definition nl : string := String nl_char EmptyString.
Definition dq : string := Json.dquote.

(** [buildContextualPrompt(userMessage)] *)
Definition buildContextualPrompt (c : t) (userMessage : string) : string :=
  let historyLength := List.length (conversationHistory c) in
  if (historyLength <=? 1)%nat then
    "Instruction: You are a Technical Interviewer for a Senior Software Engineer role. The candidate just introduced themselves: "
    ++ dq ++ userMessage ++ dq ++ "." ++ nl
    ++ "Task: Ask a specific technical question about their coding experience or a relevant technology."
    ++ nl ++ nl ++ "Technical Question:"
  else
    let recentMessages :=
      skipn (historyLength - 4) (conversationHistory c) in
    let conversation :=
      fold_left
        (fun acc m =>
           match msg_role m with
           | user => acc ++ "Candidate: " ++ content m ++ nl
           | assistant => acc ++ "Interviewer: " ++ content m ++ nl
           end)
        recentMessages EmptyString in
    "Instruction: You are a strict Technical Interviewer. Analyze the conversation below. Based on the candidate's last answer, ask a follow-up TECHNICAL question to test their depth of knowledge. Avoid generic questions. Focus on "
    ++ dq ++ "how" ++ dq ++ " and " ++ dq ++ "why" ++ dq ++ "." ++ nl ++ nl
    ++ "Conversation History:" ++ nl ++ conversation ++ nl ++ nl
    ++ "Candidate's Last Answer: " ++ dq ++ userMessage ++ dq ++ nl ++ nl
    ++ "Follow-up Technical Question:".

Definition badPhrases : list string :=
  [ "professional job interviewer";
    "i am a";
    "my name is";
    "i'm here to";
    "let me introduce" ].

Definition question_mark : string := "?".

(** The number of words of the user, longer than 4 characters, that
    occur among the words of the response. *)
Definition overlap (response userMessage : string) : nat :=
  let userWords := split " " (toLowerCase userMessage) in
  let responseWords := split " " (toLowerCase response) in
  List.length
    (filter (fun word =>
               (4 <? String.length word)%nat
               && array_includes responseWords word)
            userWords).

(** [overlap > userWords.length * 0.7] *)
Definition overlap_too_high (response userMessage : string) : bool :=
  let userWords := split " " (toLowerCase userMessage) in
  gt (of_nat (overlap response userMessage))
     (mul (of_nat (List.length userWords)) lit_0_7).

(** [validateResponse(response, userMessage)] *)
Definition validateResponse (response userMessage : string) : bool :=
  let lowerResponse := toLowerCase response in
  if existsb (fun phrase => includes lowerResponse phrase) badPhrases
  then false
  else if negb (includes response question_mark) then false
  else if (String.length response <? 10)%nat
          || (300 <? String.length response)%nat then false
  else if overlap_too_high response userMessage then false
  else true.

Definition genericQuestions : list string :=
  [ "That's interesting. Can you elaborate on that?";
    "What made you choose that particular approach?";
    "How did that experience shape your career goals?";
    "What would you do differently if you could do it again?";
    "What did you learn from that experience?" ].

(** [getFallbackQuestion(userMessage)].  [pick] is the value of
    [Math.floor(Math.random() * genericQuestions.length)] drawn by the
    call; [Math.random()] lies in the interval from 0 inclusive to 1
    exclusive, so [pick] is below 5. *)
Definition getFallbackQuestion (userMessage : string) (pick : nat) : string :=
  let lowerMsg := toLowerCase userMessage in
  if includes lowerMsg "experience" || includes lowerMsg "worked" then
    "Can you tell me more about the challenges you faced in that role?"
  else if includes lowerMsg "project" || includes lowerMsg "built" then
    "What technologies did you use and why did you choose them?"
  else if includes lowerMsg "team" || includes lowerMsg "collaborate" then
    "How do you handle disagreements within a team?"
  else if includes lowerMsg "skill" || includes lowerMsg "learn" then
    "What's the most challenging skill you've had to learn recently?"
  else if includes lowerMsg "problem" || includes lowerMsg "solve" then
    "Can you walk me through your problem-solving approach?"
  else nth pick genericQuestions EmptyString.

(** The texts that [getFallbackQuestion] can return. *)
Definition fallbackQuestions : list string :=
  [ "Can you tell me more about the challenges you faced in that role?";
    "What technologies did you use and why did you choose them?";
    "How do you handle disagreements within a team?";
    "What's the most challenging skill you've had to learn recently?";
    "Can you walk me through your problem-solving approach?" ]
  ++ genericQuestions.

Definition labels : list string :=
  [ "interviewer:"; "question:"; "ask:"; "response:" ].

Definition is_quote (c : ascii) : bool :=
  (code c =? 34)%nat || (code c =? 39)%nat.

(** The first [replace]: one of the labels at the start, in any case,
    and the white space after it. *)
Definition strip_label (s : string) : string :=
  match find (fun l => startsWith (toLowerCase s) l) labels with
  | Some l => trimStart (drop (String.length l) s)
  | None => s
  end.

(** The second [replace]: a leading quote, double or single, and the
    white space after it. *)
Definition strip_leading_quote (s : string) : string :=
  match s with
  | String c r => if is_quote c then trimStart r else s
  | EmptyString => s
  end.

(** The third [replace]: a final quote, double or single, and the white
    space before it. *)
Definition strip_trailing_quote (s : string) : string :=
  match last_char s with
  | Some c => if is_quote c then trimEnd (remove_last s) else s
  | None => s
  end.

Definition is_terminal (c : ascii) : bool :=
  (code c =? 46)%nat || (code c =? 33)%nat || (code c =? 63)%nat.

Definition ends_with_terminal (s : string) : bool :=
  match last_char s with
  | Some c => is_terminal c
  | None => false
  end.

(** [cleanResponse(response)].  [lastSentence > cleaned.length / 2]
    compares an integer with an exact half, so it is
    [2 * lastSentence > cleaned.length]. *)
Definition cleanResponse (response : string) : string :=
  let cleaned :=
    trim (strip_trailing_quote (strip_leading_quote (strip_label response))) in
  let cleaned :=
    if (0 <? String.length cleaned)%nat && negb (ends_with_terminal cleaned)
    then
      let lastSentence := lastIndexOf cleaned "." in
      if (Z.of_nat (String.length cleaned) <? 2 * lastSentence)%Z
      then take (Z.to_nat (lastSentence + 1)) cleaned
      else cleaned
    else cleaned in
  if includes cleaned question_mark && negb (endsWithChar cleaned "?")
  then
    let questionMark := lastIndexOf cleaned "?" in
    take (Z.to_nat (questionMark + 1)) cleaned
  else cleaned.

(** One pass of the retry loop, as the design document records it. *)
Record attempt : Type := mk_attempt {
  promptText : string;
  samplingTemperature : number;
  rawOutput : option string;      (* [None]: the invocation threw *)
  validationResult : bool
}.

Section Capability.

(** The text-generation capability: [this.pipeline(prompt, options)]
    followed by [result[0].generated_text].  It has a state of its own
    (weights, sampler); it yields a text or throws ([None]).  Of the
    options only [temperature] varies between calls. *)
Variable Cap : Type.
Variable pipeline : Cap -> string -> number -> option string * Cap.

(** The [for] loop of [generateWithRetry], with [remaining] iterations
    to go.  Returns the response, the capability afterwards and the
    attempts made, in order. *)
Fixpoint retry_loop (c : t) (userMessage : string) (pick : nat)
         (remaining : nat) (temperature : number) (cap : Cap)
  : string * Cap * list attempt :=
  match remaining with
  | O => (getFallbackQuestion userMessage pick, cap, [])
  | S remaining' =>
      let prompt := buildContextualPrompt c userMessage in
      match pipeline cap prompt temperature with
      | (Some generated_text, cap') =>
          let aiResponse := cleanResponse (trim generated_text) in
          if validateResponse aiResponse userMessage then
            (aiResponse, cap',
             [mk_attempt prompt temperature (Some generated_text) true])
          else
            let '(r, cap'', log) :=
              retry_loop c userMessage pick remaining'
                         (add temperature lit_0_15) cap' in
            (r, cap'',
             mk_attempt prompt temperature (Some generated_text) false
             :: log)
      | (None, cap') =>
          let '(r, cap'', log) :=
            retry_loop c userMessage pick remaining' temperature cap' in
          (r, cap'', mk_attempt prompt temperature None false :: log)
      end
  end.

(** [generateWithRetry(userMessage, maxRetries = 3)] *)
Definition generateWithRetry (c : t) (userMessage : string) (pick : nat)
           (maxRetries : nat) (cap : Cap)
  : string * Cap * list attempt :=
  retry_loop c userMessage pick maxRetries lit_0_8 cap.

Record run : Type := mk_run {
  result : outcome string;
  client : t;
  capability : Cap;
  attempts : list attempt
}.

Definition push (m : message) (c : t) : t :=
  mk (conversationHistory c ++ [m])%list (systemPrompt c) (isModelLoaded c).

(** [generateResponse(userMessage)].  The [catch] clause logs and
    throws the error again. *)
Definition generateResponse (userMessage : string) (pick : nat)
           (c : t) (cap : Cap) : run :=
  if negb (isModelLoaded c) then
    mk_run (Thrown (Error "Model not loaded. Call initialize() first."))
           c cap []
  else
    let c1 := push (msg user userMessage) c in
    let '(response, cap', log) :=
      generateWithRetry c1 userMessage pick 3 cap in
    let c2 := push (msg assistant response) c1 in
    mk_run (Returned response) c2 cap' log.

End Capability.

(** [clearHistory()] *)
Definition clearHistory (c : t) : t :=
  mk [] (systemPrompt c) (isModelLoaded c).

(** [getHistory()]: a copy of the history. *)
Definition getHistory (c : t) : list message := conversationHistory c.

(** [isReady()] *)
Definition isReady (c : t) : bool := isModelLoaded c.

End LLMClient.

(** ** The design document's formulas *)

Module Design.
Import JsString JsNumber.

(** The lexical overlap as the design document words it: the words
    longer than 4 characters shared between response and utterance, as a
    fraction of the utterance's words longer than 4 characters, exceeds
    0.7.  The fraction is exact: [shared / qualifying > 7 / 10]. *)
Definition overlap_fraction_exceeds (response userMessage : string) : bool :=
  let userWords := split " " (toLowerCase userMessage) in
  let responseWords := split " " (toLowerCase response) in
  let qualifying :=
    filter (fun word => (4 <? String.length word)%nat) userWords in
  let shared :=
    filter (fun word => array_includes responseWords word) qualifying in
  (7 * List.length qualifying <? 10 * List.length shared)%nat.

(** The temperature the design document gives for attempt [k]:
    [0.8 + 0.15 * k]. *)
Definition retry_temperature (k : nat) : number :=
  add lit_0_8 (mul lit_0_15 (of_nat k)).

(** The utterance of the overlap example. *)
Definition example_utterance : string :=
  "I have five years of experience in backend systems".

(** The number of attempts in a log whose text failed validation. *)
Definition rejections (log : list LLMClient.attempt) : nat :=
  List.length
    (filter (fun a =>
               match LLMClient.rawOutput a with
               | Some _ => negb (LLMClient.validationResult a)
               | None => false
               end) log).

(** [temperature += 0.15] *)
Definition bump (t : number) : number := add t lit_0_15.

(** The temperature after [n] increments of the loop. *)
Definition raised_temperature (n : nat) : number :=
  Nat.iter n bump lit_0_8.

(** A client whose model is loaded, at the start of an interview. *)
Definition ready : LLMClient.t :=
  LLMClient.mk [] "You are a professional job interviewer." true.

(** A capability that always answers with the same statement. *)
Definition steady (u : unit) (prompt : string) (temperature : number)
  : option string * unit :=
  (Some "Tell me more about it.", tt).

(** A capability that throws on its first invocation and answers with a
    statement afterwards; its state counts the invocations. *)
Definition flaky (calls : nat) (prompt : string) (temperature : number)
  : option string * nat :=
  (match calls with
   | O => None
   | S _ => Some "Tell me more about it."
   end, S calls).

(** On [n] words with [k] of them counted, the comparison in binary64
    arithmetic agrees with the exact comparison [k > 0.7 * n]. *)
Definition threshold_exact (n k : nat) : bool :=
  Bool.eqb (gt (of_nat k) (mul (of_nat n) lit_0_7)) (7 * n <? 10 * k)%nat.

Definition threshold_exact_upto (bound : nat) : bool :=
  forallb (fun n => forallb (threshold_exact n) (seq 0 (S n))) (seq 0 bound).

(** A response that repeats every long word of the example utterance. *)
Definition example_restatement : string :=
  "Which years of experience in backend systems mattered most?".

(** The example utterance sent back with a question mark appended. *)
Definition example_echo : string := example_utterance ++ "?".

End Design.

(** ** [class EmotionDetector] (src/modules/emotion-detector.js) *)

Module EmotionDetector.
Import JsString.

(** The names of the categories, the keys of [this.emotions]. *)
Inductive emotion : Type := happy | curious | thinking | encouraging | neutral.

Definition emotion_eq_dec (a b : emotion) : {a = b} + {a <> b}.
Proof. decide equality. Defined.

Definition emotion_eqb (a b : emotion) : bool :=
  if emotion_eq_dec a b then true else false.

(** [this.emotions], in the order of its keys. *)
Definition emotions : list (emotion * list string) :=
  [ (happy, ["great"; "excellent"; "good"; "wonderful"; "amazing";
             "fantastic"; "love"; "enjoy"]);
    (curious, ["what"; "how"; "why"; "when"; "where"; "which"; "who";
               "tell me"]);
    (thinking, ["hmm"; "let me"; "consider"; "think"; "analyze"; "evaluate"]);
    (encouraging, ["can you"; "could you"; "would you"; "please"; "share"]);
    (neutral, ["okay"; "alright"; "understood"; "noted"]) ].

(** The [for] loop of [detectEmotion] over the entries of a table. *)
Fixpoint detect (table : list (emotion * list string)) (lowerText : string)
  : emotion :=
  match table with
  | [] => neutral
  | (e, keywords) :: rest =>
      let matchCount :=
        List.length (filter (fun keyword => includes lowerText keyword)
                            keywords) in
      if (0 <? matchCount)%nat then e else detect rest lowerText
  end.

(** [detectEmotion(text)] *)
Definition detectEmotion (text : string) : emotion :=
  detect emotions (toLowerCase text).

(** [emotionCounts[emotion] = (emotionCounts[emotion] || 0) + 1] on an
    object whose keys are kept in the order of their first assignment. *)
Fixpoint count_up (e : emotion) (counts : list (emotion * nat))
  : list (emotion * nat) :=
  match counts with
  | [] => [(e, 1)]
  | (e', n) :: rest =>
      if emotion_eqb e' e then (e', S n) :: rest
      else (e', n) :: count_up e rest
  end.

Fixpoint count_of (e : emotion) (counts : list (emotion * nat)) : nat :=
  match counts with
  | [] => 0
  | (e', n) :: rest => if emotion_eqb e' e then n else count_of e rest
  end.

(** The second half of [analyzeConversation]: the counts, then
    [Object.keys(emotionCounts).reduce(...)] without an initial value,
    which throws a [TypeError] on no key. *)
Definition most_common (found : list emotion) : outcome emotion :=
  let emotionCounts := fold_left (fun counts e => count_up e counts) found [] in
  match List.map fst emotionCounts with
  | [] => Thrown TypeError
  | first :: others =>
      Returned
        (fold_left
           (fun a b =>
              if (count_of b emotionCounts <? count_of a emotionCounts)%nat
              then a else b)
           others first)
  end.

(** [analyzeConversation(messages)] *)
Definition analyzeConversation (messages : list LLMClient.message)
  : outcome emotion :=
  let recentMessages := skipn (List.length messages - 3) messages in
  most_common
    (List.map (fun m => detectEmotion (LLMClient.content m)) recentMessages).

End EmotionDetector.

(** ** [handleUserSpeech] of the application (src/app.js) *)

Module App.

(** The fields of the application object that bear on the cache and on
    the generator: the two components, two of the performance counters
    and the two flags of the guard. *)
Record t : Type := mk {
  cacheManager : CacheManager.t;
  llmClient : LLMClient.t;
  cacheHits : nat;
  cacheMisses : nat;
  isInterviewActive : bool;
  isProcessing : bool
}.

(** What a call of [handleUserSpeech] comes to: the guard turns it away,
    or a response is handed to the page and to the speech engine, or an
    error is caught and shown as an alert. *)
Inductive reaction : Type :=
| Ignored
| Answered (response : string)
| Alerted (e : exn)
| Untyped.

(** [this.isProcessing = b] *)
Definition set_isProcessing (b : bool) (a : t) : t :=
  mk (cacheManager a) (llmClient a) (cacheHits a) (cacheMisses a)
     (isInterviewActive a) b.

Section Capability.

Variable Cap : Type.
Variable pipeline : Cap -> string -> JsNumber.number -> option string * Cap.

(** The application, the store and the capability. *)
Record world : Type := mk_world {
  app : t;
  store : LocalStorage.t;
  capability : Cap
}.

(** The guard of [handleUserSpeech]:
    [!transcript || this.isProcessing || !this.isInterviewActive]. *)
Definition guarded (transcript : string) (a : t) : bool :=
  match transcript with
  | EmptyString => true
  | String _ _ => isProcessing a || negb (isInterviewActive a)
  end.

(** The [try] block of [handleUserSpeech] as far as the response: the
    cache is asked; a cached text that is truthy (not empty) is the
    response; else the response is generated, stored under the
    transcript, and the cache is persisted.  The rest of the block calls
    the page, the avatar, the emotion detector, the progress tracker and
    the speech engine; these calls are taken to return, and they touch
    none of the fields modelled here. *)
Definition try_block (transcript : string) (pick : nat) (w : world)
  : outcome string * world :=
  let a := app w in
  let (cached, cm1) := CacheManager.get transcript (cacheManager a) in
  match cached with
  | Some (String ch r) =>
      (Returned (String ch r),
       mk_world (mk cm1 (llmClient a) (S (cacheHits a)) (cacheMisses a)
                    (isInterviewActive a) (isProcessing a))
                (store w) (capability w))
  | _ =>
      let run :=
        LLMClient.generateResponse Cap pipeline transcript pick
                                   (llmClient a) (capability w) in
      let after cm :=
        mk cm (LLMClient.client Cap run) (cacheHits a) (S (cacheMisses a))
           (isInterviewActive a) (isProcessing a) in
      match LLMClient.result Cap run with
      | Returned response =>
          let cm2 := CacheManager.set transcript response cm1 in
          match CacheManager.persist cm2 (store w) with
          | Returned (cm3, st') =>
              (Returned response,
               mk_world (after cm3) st' (LLMClient.capability Cap run))
          | Thrown e =>
              (Thrown e,
               mk_world (after cm2) (store w) (LLMClient.capability Cap run))
          | Unmodelled =>
              (Unmodelled,
               mk_world (after cm2) (store w) (LLMClient.capability Cap run))
          end
      | Thrown e =>
          (Thrown e,
           mk_world (after cm1) (store w) (LLMClient.capability Cap run))
      | Unmodelled =>
          (Unmodelled,
           mk_world (after cm1) (store w) (LLMClient.capability Cap run))
      end
  end.

(** [handleUserSpeech(transcript)], run to its end with no other handler
    in between.  The guard returns at once on an empty transcript, while
    another call is being processed, and when no interview is active.
    Otherwise [isProcessing] is set, the utterance is shown on the page
    (a call taken to return), the [try] block runs, an exception lands in
    the [catch] clause, which shows an alert, and the [finally] clause
    clears [isProcessing]. *)
Definition handleUserSpeech (transcript : string) (pick : nat) (w : world)
  : reaction * world :=
  if guarded transcript (app w) then (Ignored, w)
  else
    let w1 :=
      mk_world (set_isProcessing true (app w)) (store w) (capability w) in
    let (r, w2) := try_block transcript pick w1 in
    let w3 :=
      mk_world (set_isProcessing false (app w2)) (store w2) (capability w2) in
    (match r with
     | Returned response => Answered response
     | Thrown e => Alerted e
     | Unmodelled => Untyped
     end, w3).

End Capability.

End App.

(** ** Vocabulary of the further properties *)

Module Session.
Import JsString.

(** Every character of the string is white space. *)
Fixpoint all_space (s : string) : bool :=
  match s with
  | EmptyString => true
  | String c r => is_space c && all_space r
  end.

(** [part] occurs in [whole] as a contiguous run of characters. *)
Definition is_substring (part whole : string) : Prop :=
  exists before after, whole = before ++ part ++ after.

(** The words of an utterance that are longer than 4 characters. *)
Definition long_words (userMessage : string) : list string :=
  filter (fun word => (4 <? String.length word)%nat)
         (split " " (toLowerCase userMessage)).

(** The keywords that [getFallbackQuestion] looks for. *)
Definition fallback_keywords : list string :=
  [ "experience"; "worked"; "project"; "built"; "team"; "collaborate";
    "skill"; "learn"; "problem"; "solve" ].

(** The entries that a sequence of [set] calls asks to store: the
    normalized key and the value of each call. *)
Definition requested (calls : list (string * string))
  : list (string * string) :=
  List.map (fun kv => (CacheManager.hash (fst kv), snd kv)) calls.

(** The entries that a run of exchanges appends to the history. *)
Definition exchanges (turns : list (string * string))
  : list LLMClient.message :=
  flat_map (fun ur => [LLMClient.msg LLMClient.user (fst ur);
                       LLMClient.msg LLMClient.assistant (snd ur)]) turns.

Section Capability.

Variable Cap : Type.
Variable pipeline : Cap -> string -> JsNumber.number -> option string * Cap.

(** Calls of [generateResponse] one after the other, each with its
    utterance and its random pick; stops at the first call that does not
    return.  Yields the responses, the client and the capability. *)
Fixpoint converse (calls : list (string * nat)) (c : LLMClient.t) (cap : Cap)
  : list string * LLMClient.t * Cap :=
  match calls with
  | [] => ([], c, cap)
  | (userMessage, pick) :: rest =>
      let run := LLMClient.generateResponse Cap pipeline userMessage pick
                                            c cap in
      match LLMClient.result Cap run with
      | Returned response =>
          let '(responses, c', cap') :=
            converse rest (LLMClient.client Cap run)
                     (LLMClient.capability Cap run) in
          (response :: responses, c', cap')
      | _ => ([], LLMClient.client Cap run, LLMClient.capability Cap run)
      end
  end.

End Capability.

(** An application in an interview, with a loaded model, an empty cache
    of capacity 50 and an empty store. *)
Definition started : App.world nat :=
  App.mk_world nat
    (App.mk (CacheManager.new 50) Design.ready 0 0 true false)
    (LocalStorage.mk true 1000 []) 0.

(** The same application after it cached an answer. *)
Definition warmed : App.world nat :=
  App.mk_world nat
    (App.mk (CacheManager.set "Hello" "Why?" (CacheManager.new 50))
            Design.ready 0 0 true false)
    (LocalStorage.mk true 1000 []) 0.

End Session.

(** ** The capability under observation *)

Module Probe.
Import JsString JsNumber.

(** One invocation as the capability sees it: the prompt and the
    temperature it is given, and what it answers ([None]: it throws). *)
Record invocation : Type := mk_invocation {
  given_prompt : string;
  given_temperature : number;
  answer : option string
}.

(** What an entry of the attempt log says was sent and answered. *)
Definition sent (a : LLMClient.attempt) : invocation :=
  mk_invocation (LLMClient.promptText a) (LLMClient.samplingTemperature a)
                (LLMClient.rawOutput a).

(** The answer was a text that the gate turns down. *)
Definition rejected (userMessage : string) (i : invocation) : bool :=
  match answer i with
  | Some text =>
      negb (LLMClient.validateResponse
              (LLMClient.cleanResponse (trim text)) userMessage)
  | None => false
  end.

Definition rejected_count (userMessage : string) (l : list invocation) : nat :=
  List.length (filter (rejected userMessage) l).

Section Capability.

Variable Cap : Type.
Variable pipeline : Cap -> string -> number -> option string * Cap.

(** The capability with a journal of its own: it answers as [pipeline]
    does and writes down, in its state, every invocation it receives. *)
Definition recording (st : Cap * list invocation) (prompt : string)
           (temperature : number) : option string * (Cap * list invocation) :=
  let (out, cap') := pipeline (fst st) prompt temperature in
  (out, (cap', (snd st ++ [mk_invocation prompt temperature out])%list)).

(** The journal after one call of [generateWithRetry], started empty. *)
Definition invocations_of_retry (c : LLMClient.t) (userMessage : string)
           (pick maxRetries : nat) (cap : Cap) : list invocation :=
  snd (snd (fst (LLMClient.generateWithRetry
                   (Cap * list invocation) recording c userMessage pick
                   maxRetries (cap, [])))).

(** The journal after one call of [generateResponse], started empty. *)
Definition invocations_of_response (userMessage : string) (pick : nat)
           (c : LLMClient.t) (cap : Cap) : list invocation :=
  snd (LLMClient.capability
         (Cap * list invocation)
         (LLMClient.generateResponse (Cap * list invocation) recording
                                     userMessage pick c (cap, []))).

End Capability.

End Probe.

(* ================================================================== *)
(** * Part II: properties *)
(* ================================================================== *)

(** ** The model on examples *)

Section Examples.
Import JsString.

(** Keys that differ in case and outer white space share a cache slot. *)
Example hash_collision :
  CacheManager.hash "Hello World" = CacheManager.hash "  hello world  "
  /\ fst (CacheManager.get "  hello world  "
            (CacheManager.set "Hello World" "Why?" (CacheManager.new 50)))
     = Some "Why?".
Proof. split; reflexivity. Qed.

Example split_spaces : split " " "a  b " = ["a"; ""; "b"; ""].
Proof. reflexivity. Qed.

Example clean_label_and_tail :
  LLMClient.cleanResponse "Interviewer:  'What is your name? I am. "
  = "What is your name?"
  /\ LLMClient.cleanResponse "Hello there. What now" = "Hello there."
  /\ LLMClient.cleanResponse "a.b" = "a.b".
Proof. repeat split; reflexivity. Qed.

(** An utterance that mentions a project gets the fixed question on the
    choice of technology, whatever the random pick. *)
Example fallback_project (pick : nat) :
  LLMClient.getFallbackQuestion "My last project was a compiler" pick
  = "What technologies did you use and why did you choose them?".
Proof. reflexivity. Qed.

Example parse_texts :
  Json.parse "[1, 2.5e-3, true, null]"
  = Returned (Json.Array [Json.Number "1"; Json.Number "2.5e-3";
                          Json.Bool true; Json.Null])
  /\ Json.parse "[[[1]],[2,[3]]]"
     = Returned (Json.Array
                   [Json.Array [Json.Array [Json.Number "1"]];
                    Json.Array [Json.Number "2";
                                Json.Array [Json.Number "3"]]])
  /\ Json.parse "[01]" = Thrown SyntaxError
  /\ Json.parse "[1,]" = Thrown SyntaxError
  /\ Json.parse "" = Thrown SyntaxError
  /\ bind (Json.parse "[5]") Json.to_map = Thrown TypeError
  /\ bind (Json.parse "null") Json.to_map = Returned JsMap.empty.
Proof. repeat split; reflexivity. Qed.

(** Ninety words, sixty-three of them shared: the product [90 * 0.7]
    rounds below 63 in binary64, and the test fires although the exact
    fraction is 0.7. *)
Example threshold_at_90 :
  JsNumber.gt (JsNumber.of_nat 63)
              (JsNumber.mul (JsNumber.of_nat 90) JsNumber.lit_0_7) = true.
Proof. reflexivity. Qed.

End Examples.

(** ** Strings *)

Section StringFacts.
Import JsString.

Lemma string_eqb_refl (s : string) : String.eqb s s = true.
Proof. apply String.eqb_eq. reflexivity. Qed.

Lemma string_eqb_false (a b : string) : a <> b -> String.eqb a b = false.
Proof. intro H. apply String.eqb_neq. exact H. Qed.

End StringFacts.

(** ** The [Map] model *)

Section MapFacts.
Import JsMap.

Lemma has_true_iff (k : string) (m : JsMap.t) :
  has k m = true <-> In k (keys m).
Proof.
  unfold has. induction m as [|[k' v] r IH]; simpl.
  - split; [discriminate | tauto].
  - destruct (String.eqb k' k) eqn:E.
    + apply String.eqb_eq in E. subst. split; auto.
    + apply String.eqb_neq in E. rewrite IH.
      split; [auto | intros [H|H]; congruence].
Qed.

Lemma has_false_iff (k : string) (m : JsMap.t) :
  has k m = false <-> ~ In k (keys m).
Proof.
  rewrite <- has_true_iff. destruct (has k m); split; congruence.
Qed.

Lemma set_absent (k v : string) (m : JsMap.t) :
  ~ In k (keys m) -> set k v m = (m ++ [(k, v)])%list.
Proof.
  induction m as [|[k' v'] r IH]; simpl; intro H.
  - reflexivity.
  - rewrite string_eqb_false by tauto. rewrite IH by tauto. reflexivity.
Qed.

Lemma keys_set_present (k v : string) (m : JsMap.t) :
  In k (keys m) -> keys (set k v m) = keys m.
Proof.
  induction m as [|[k' v'] r IH]; simpl; intro H.
  - contradiction.
  - destruct (String.eqb k' k) eqn:E; simpl.
    + reflexivity.
    + apply String.eqb_neq in E. f_equal. apply IH. destruct H; congruence.
Qed.

Lemma size_set_present (k v : string) (m : JsMap.t) :
  In k (keys m) -> size (set k v m) = size m.
Proof.
  intro H. unfold size. rewrite <- (length_map fst (set k v m)).
  rewrite <- (length_map fst m). fold (keys (set k v m)). fold (keys m).
  now rewrite keys_set_present.
Qed.

Lemma get_set_same (k v : string) (m : JsMap.t) :
  get k (set k v m) = Some v.
Proof.
  induction m as [|[k' v'] r IH]; simpl.
  - now rewrite string_eqb_refl.
  - destruct (String.eqb k' k) eqn:E; simpl; rewrite E; auto.
Qed.

Lemma keys_delete_subset (k x : string) (m : JsMap.t) :
  In x (keys (delete k m)) -> In x (keys m).
Proof.
  induction m as [|[k' v'] r IH]; simpl; auto.
  destruct (String.eqb k' k); simpl; tauto.
Qed.

Lemma nodup_delete (k : string) (m : JsMap.t) :
  NoDup (keys m) -> NoDup (keys (delete k m)).
Proof.
  induction m as [|[k' v'] r IH]; simpl; intro H; auto.
  inversion H as [|? ? Hn Hr]; subst.
  destruct (String.eqb k' k); simpl; auto.
  constructor; auto. intro Hin. apply Hn. eapply keys_delete_subset; eauto.
Qed.

Lemma nodup_set (k v : string) (m : JsMap.t) :
  NoDup (keys m) -> NoDup (keys (set k v m)).
Proof.
  intro H. destruct (in_dec string_dec k (keys m)) as [Hin|Hout].
  - now rewrite keys_set_present.
  - rewrite set_absent by exact Hout. unfold keys. rewrite map_app. simpl.
    apply NoDup_app; [exact H | repeat constructor; simpl; tauto |].
    intros x Hx [Hk|[]]. subst. contradiction.
Qed.

Lemma delete_middle (k v : string) (pre post : JsMap.t) :
  ~ In k (keys pre) ->
  delete k (pre ++ (k, v) :: post)%list = (pre ++ post)%list.
Proof.
  induction pre as [|[k' v'] r IH]; simpl; intro H.
  - now rewrite string_eqb_refl.
  - rewrite string_eqb_false by tauto. now rewrite IH by tauto.
Qed.

Lemma get_middle (k v : string) (pre post : JsMap.t) :
  ~ In k (keys pre) -> get k (pre ++ (k, v) :: post)%list = Some v.
Proof.
  induction pre as [|[k' v'] r IH]; simpl; intro H.
  - now rewrite string_eqb_refl.
  - rewrite string_eqb_false by tauto. apply IH. tauto.
Qed.

(** Rebuilding a map from its own entries gives the same map. *)
Lemma of_entries_from (l acc : JsMap.t) :
  NoDup (keys (acc ++ l)%list) ->
  fold_left (fun m kv => set (fst kv) (snd kv) m) l acc = (acc ++ l)%list.
Proof.
  revert acc. induction l as [|[k v] r IH]; intros acc H; simpl.
  - now rewrite app_nil_r.
  - assert (Hk : ~ In k (keys acc)).
    { unfold keys in *. rewrite map_app in H. simpl in H.
      apply NoDup_remove_2 in H. intro Hin. apply H.
      apply in_or_app. now left. }
    rewrite set_absent by exact Hk.
    rewrite IH; rewrite <- app_assoc; simpl; auto.
Qed.

Lemma of_entries_entries (m : JsMap.t) :
  NoDup (keys m) -> of_entries (entries m) = m.
Proof.
  intro H. unfold of_entries, entries, empty.
  now rewrite of_entries_from.
Qed.

End MapFacts.

(** ** The response cache *)

Section CacheFacts.
Import CacheManager.

Lemma maxSize_set (key value : string) (c : CacheManager.t) :
  maxSize (set key value c) = maxSize c.
Proof. reflexivity. Qed.

Lemma maxSize_set_all (calls : list (string * string)) (c : CacheManager.t) :
  maxSize (set_all calls c) = maxSize c.
Proof.
  revert c. induction calls as [|kv r IH]; intro c; simpl; auto.
  unfold set_all in IH. now rewrite IH.
Qed.

(** [set] on a key that is present: the value changes in place. *)
Lemma set_present (key value : string) (c : CacheManager.t) :
  has key c = true ->
  cache (set key value c) = JsMap.set (hash key) value (cache c).
Proof.
  unfold has, set. intro H. simpl. rewrite H. simpl.
  now rewrite andb_false_r.
Qed.

(** [set] of a new key below capacity: the entry is appended. *)
Lemma set_room (key value : string) (c : CacheManager.t) :
  has key c = false ->
  (Z.of_nat (size c) < maxSize c)%Z ->
  cache (set key value c) = (cache c ++ [(hash key, value)])%list.
Proof.
  unfold has, set, size. intros H Hlt. simpl.
  replace (Z.of_nat (JsMap.size (cache c)) >=? maxSize c)%Z with false
    by (symmetry; rewrite Z.geb_leb; apply Z.leb_gt; lia).
  simpl. apply set_absent. now apply has_false_iff.
Qed.

(** [set] of a new key at capacity: the first entry in iteration order
    goes, the new one is appended. *)
Lemma set_full (key value k0 v0 : string) (rest : JsMap.t)
      (c : CacheManager.t) :
  cache c = (k0, v0) :: rest ->
  has key c = false ->
  (maxSize c <= Z.of_nat (size c))%Z ->
  cache (set key value c) = (rest ++ [(hash key, value)])%list.
Proof.
  unfold has, set, size. intros Hc H Hge. simpl. rewrite H.
  replace (Z.of_nat (JsMap.size (cache c)) >=? maxSize c)%Z with true
    by (symmetry; rewrite Z.geb_leb; apply Z.leb_le; lia).
  rewrite Hc in *. simpl. rewrite string_eqb_refl.
  apply set_absent. apply has_false_iff in H. simpl in H. tauto.
Qed.

(** A [get] hit moves the entry behind all others. *)
Lemma get_hit (key v : string) (pre post : JsMap.t) (c : CacheManager.t) :
  NoDup (JsMap.keys (cache c)) ->
  cache c = (pre ++ (hash key, v) :: post)%list ->
  fst (get key c) = Some v /\
  cache (snd (get key c)) = (pre ++ post ++ [(hash key, v)])%list.
Proof.
  intros Hnd Hc. unfold get.
  assert (Hpre : ~ In (hash key) (JsMap.keys pre)).
  { rewrite Hc in Hnd. unfold JsMap.keys in *. rewrite map_app in Hnd.
    simpl in Hnd. apply NoDup_remove_2 in Hnd. intro Hin. apply Hnd.
    apply in_or_app. now left. }
  assert (Hpost : ~ In (hash key) (JsMap.keys (pre ++ post)%list)).
  { rewrite Hc in Hnd. unfold JsMap.keys in *. rewrite map_app in Hnd.
    simpl in Hnd. apply NoDup_remove_2 in Hnd. now rewrite map_app. }
  assert (Hhas : JsMap.has (hash key) (cache c) = true).
  { apply has_true_iff. rewrite Hc. unfold JsMap.keys. rewrite map_app.
    apply in_or_app. right. now left. }
  rewrite Hhas, Hc, get_middle by exact Hpre. simpl.
  rewrite delete_middle by exact Hpre.
  rewrite set_absent by exact Hpost. now rewrite <- app_assoc.
Qed.

Lemma set_preserves_ok (key value : string) (c : CacheManager.t) :
  (1 <= maxSize c)%Z -> cache_ok c -> cache_ok (set key value c).
Proof.
  intros Hpos [Hsize Hnd]. unfold cache_ok. rewrite maxSize_set.
  destruct (has key c) eqn:Hhas.
  - unfold size. rewrite set_present by exact Hhas.
    split.
    + rewrite size_set_present; [exact Hsize | now apply has_true_iff].
    + now apply nodup_set.
  - destruct (Z_lt_le_dec (Z.of_nat (size c)) (maxSize c)) as [Hlt|Hge].
    + unfold size. rewrite set_room by assumption.
      split.
      * unfold JsMap.size. rewrite length_app. simpl.
        unfold size, JsMap.size in Hlt. lia.
      * rewrite <- set_absent by (now apply has_false_iff).
        now apply nodup_set.
    + destruct (cache c) as [|[k0 v0] rest] eqn:Hc.
      { unfold size in Hge. rewrite Hc in Hge. simpl in Hge. lia. }
      unfold size. rewrite (set_full key value k0 v0 rest c) by assumption.
      assert (Hout : ~ In (hash key) (JsMap.keys rest)).
      { unfold has in Hhas. apply has_false_iff in Hhas.
        rewrite Hc in Hhas. simpl in Hhas. tauto. }
      split.
      * unfold JsMap.size. rewrite length_app. simpl.
        unfold size, JsMap.size in Hsize.
        rewrite Hc in Hsize. simpl in Hsize. lia.
      * rewrite <- set_absent by exact Hout. apply nodup_set.
        simpl in Hnd. now inversion Hnd.
Qed.

Lemma set_all_preserves_ok (calls : list (string * string))
      (c : CacheManager.t) :
  (1 <= maxSize c)%Z -> cache_ok c -> cache_ok (set_all calls c).
Proof.
  revert c. induction calls as [|[k v] r IH]; intros c Hpos Hok; simpl.
  - exact Hok.
  - apply IH; [now rewrite maxSize_set | now apply set_preserves_ok].
Qed.

Lemma new_ok (n : Z) : (0 <= n)%Z -> cache_ok (new n).
Proof. intro H. split; simpl; [exact H | constructor]. Qed.

End CacheFacts.

Section CacheClaims.
Import CacheManager.

(** Rewrites with the comparisons of keys that are known. *)
Ltac key_compare :=
  repeat (simpl;
          match goal with
          | |- context [String.eqb ?a ?a] => rewrite (string_eqb_refl a)
          | H : String.eqb ?a ?b = false |- context [String.eqb ?a ?b] =>
              rewrite H
          end).

(** C2 -- LRU eviction.  A [set] that inserts a new key into a cache at
    capacity removes the entry that is first in the recency order (the
    list order of the map) and appends the new entry; a [get] hit moves
    its entry to the end of that order.  With [maxSize = 2] and keys
    [A], [B], [C] of distinct normal forms: after [set(A); set(B);
    set(C)] the key [A] is absent and [B], [C] are present; after
    [set(A); set(B); get(A); set(C)] the key [B] is absent and [A] is
    present. *)
Theorem lru_eviction (A B C v1 v2 v3 : string) :
  hash A <> hash B -> hash A <> hash C -> hash B <> hash C ->
  (forall (c : CacheManager.t) (key value k0 v0 : string) (rest : JsMap.t),
      cache c = (k0, v0) :: rest ->
      has key c = false ->
      (maxSize c <= Z.of_nat (size c))%Z ->
      cache (set key value c) = (rest ++ [(hash key, value)])%list)
  /\ (forall (c : CacheManager.t) (key v : string) (pre post : JsMap.t),
      NoDup (JsMap.keys (cache c)) ->
      cache c = (pre ++ (hash key, v) :: post)%list ->
      fst (get key c) = Some v /\
      cache (snd (get key c)) = (pre ++ post ++ [(hash key, v)])%list)
  /\ (let c := set C v3 (set B v2 (set A v1 (new 2))) in
      has A c = false /\ has B c = true /\ has C c = true)
  /\ (let c := set C v3 (snd (get A (set B v2 (set A v1 (new 2))))) in
      has B c = false /\ has A c = true).
Proof.
  intros HAB HAC HBC.
  split; [|split; [|split]].
  - intros c key value k0 v0 rest. apply set_full.
  - intros c key v pre post. apply get_hit.
  - pose proof (string_eqb_false _ _ HAB) as E1.
    pose proof (string_eqb_false _ _ HAC) as E2.
    pose proof (string_eqb_false _ _ HBC) as E3.
    assert (E4 : String.eqb (hash B) (hash A) = false)
      by (apply String.eqb_neq; congruence).
    assert (E5 : String.eqb (hash C) (hash A) = false)
      by (apply String.eqb_neq; congruence).
    assert (E6 : String.eqb (hash C) (hash B) = false)
      by (apply String.eqb_neq; congruence).
    unfold has, set, new, JsMap.has. revert E1 E2 E3 E4 E5 E6.
    generalize (hash A) (hash B) (hash C). intros a b c E1 E2 E3 E4 E5 E6.
    cbn -[String.eqb].
    key_compare. cbn -[String.eqb]. key_compare. cbn -[String.eqb].
    key_compare. auto.
  - pose proof (string_eqb_false _ _ HAB) as E1.
    pose proof (string_eqb_false _ _ HAC) as E2.
    pose proof (string_eqb_false _ _ HBC) as E3.
    assert (E4 : String.eqb (hash B) (hash A) = false)
      by (apply String.eqb_neq; congruence).
    assert (E5 : String.eqb (hash C) (hash A) = false)
      by (apply String.eqb_neq; congruence).
    assert (E6 : String.eqb (hash C) (hash B) = false)
      by (apply String.eqb_neq; congruence).
    unfold has, get, set, new, JsMap.has. revert E1 E2 E3 E4 E5 E6.
    generalize (hash A) (hash B) (hash C). intros a b c E1 E2 E3 E4 E5 E6.
    cbn -[String.eqb].
    key_compare. cbn -[String.eqb]. key_compare. cbn -[String.eqb].
    key_compare. auto.
Qed.

Lemma lru_eviction_witness :
  (hash "A" <> hash "B" /\ hash "A" <> hash "C" /\ hash "B" <> hash "C")
  /\ (let c := set "C" "3" (set "B" "2" (set "A" "1" (new 2))) in
      has "A" c = false /\ has "B" c = true /\ has "C" c = true)
  /\ (let c :=
        set "C" "3" (snd (get "A" (set "B" "2" (set "A" "1" (new 2))))) in
      has "B" c = false /\ has "A" c = true).
Proof.
  assert (HAB : hash "A" <> hash "B") by (vm_compute; discriminate).
  assert (HAC : hash "A" <> hash "C") by (vm_compute; discriminate).
  assert (HBC : hash "B" <> hash "C") by (vm_compute; discriminate).
  split; [auto|].
  exact (proj2 (proj2 (lru_eviction "A" "B" "C" "1" "2" "3" HAB HAC HBC))).
Defined.

(** C3, as stated, fails for a cache constructed with capacity 0: the
    guard finds no first key to delete, and the entry is stored. *)
Lemma capacity_zero_overflows :
  size (set_all [("a", "x")] (new 0)) = 1
  /\ ~ (Z.of_nat (size (set_all [("a", "x")] (new 0))) <= 0)%Z.
Proof. split; [reflexivity | vm_compute; intro H; now apply H]. Qed.

(** C3 (amended) -- capacity invariant.  For a cache constructed with a
    maximum size of at least 1 and any sequence of [set] calls, after
    each call (after the first [n] calls, for every [n]) the number of
    entries is at most the maximum and no normalized key occurs twice. *)
Theorem capacity_invariant (limit : Z) (calls : list (string * string))
        (n : nat) :
  (1 <= limit)%Z ->
  let c := set_all (firstn n calls) (new limit) in
  (Z.of_nat (size c) <= limit)%Z /\ NoDup (JsMap.keys (cache c)).
Proof.
  intros Hpos c.
  assert (Hok : cache_ok c).
  { apply set_all_preserves_ok; [exact Hpos | apply new_ok; lia]. }
  destruct Hok as [Hsize Hnd]. split; [|exact Hnd].
  unfold c in Hsize. now rewrite maxSize_set_all in Hsize.
Qed.

Lemma capacity_invariant_witness :
  (1 <= 2)%Z /\
  let c := set_all (firstn 3 [("A", "1"); ("B", "2"); ("C", "3"); ("D", "4")])
                   (new 2) in
  (Z.of_nat (size c) <= 2)%Z /\ NoDup (JsMap.keys (cache c)).
Proof.
  split; [lia|].
  apply (capacity_invariant
           2 [("A", "1"); ("B", "2"); ("C", "3"); ("D", "4")] 3).
  lia.
Defined.

(** [set] on a key that is present changes the value where the entry
    stands: the order of the keys, hence the eviction order, is as
    before, and nothing is evicted. *)
Lemma set_present_in_place (key value : string) (c : CacheManager.t) :
  has key c = true ->
  JsMap.keys (cache (set key value c)) = JsMap.keys (cache c)
  /\ JsMap.get (hash key) (cache (set key value c)) = Some value
  /\ size (set key value c) = size c.
Proof.
  intro H. unfold size. rewrite set_present by exact H.
  assert (Hin : In (hash key) (JsMap.keys (cache c)))
    by (now apply has_true_iff).
  split; [now apply keys_set_present|].
  split; [apply get_set_same | now apply size_set_present].
Qed.

(** C4 -- the run that departs from the claim.  With [maxSize = 2]:
    [set(a,1); set(b,2); set(a,9); set(c,3)].  The third call updates
    [a], the most recent write, yet [a] keeps the first place in the
    iteration order and is the entry that the fourth call evicts. *)
Theorem set_update_keeps_position :
  let c3 := set "a" "9" (set "b" "2" (set "a" "1" (new 2))) in
  let c4 := set "c" "3" c3 in
  cache c3 = [("a", "9"); ("b", "2")]
  /\ cache c4 = [("b", "2"); ("c", "3")]
  /\ has "a" c4 = false /\ has "b" c4 = true.
Proof. vm_compute. auto. Qed.

End CacheClaims.

(** ** Characters kept by the string operations *)

Section CharFacts.
Import JsString.

Lemma ascii_eqb_sym (a b : ascii) : Ascii.eqb a b = Ascii.eqb b a.
Proof.
  destruct (Ascii.eqb a b) eqn:E.
  - apply Ascii.eqb_eq in E. subst. symmetry. apply Ascii.eqb_refl.
  - symmetry. apply Ascii.eqb_neq. apply Ascii.eqb_neq in E. congruence.
Qed.

(** For a pattern of one character, [includes] looks for that character. *)
Lemma includes_char (c : ascii) (s : string) :
  includes s (String c EmptyString) = has_char c s.
Proof.
  induction s as [|d r IH]; simpl.
  - reflexivity.
  - rewrite IH. unfold startsWith. simpl.
    destruct (ascii_dec c d) as [->|Hne].
    + rewrite Ascii.eqb_refl. now destruct r.
    + rewrite (proj2 (Ascii.eqb_neq d c)) by congruence. reflexivity.
Qed.

Lemma has_char_trimStart (c : ascii) (s : string) :
  has_char c (trimStart s) = true -> has_char c s = true.
Proof.
  induction s as [|d r IH]; simpl; auto.
  destruct (is_space d); simpl; auto.
  intro H. rewrite IH by exact H. apply orb_true_r.
Qed.

Lemma has_char_trimEnd (c : ascii) (s : string) :
  has_char c (trimEnd s) = true -> has_char c s = true.
Proof.
  induction s as [|d r IH]; simpl; auto.
  destruct (trimEnd r) as [|e r'] eqn:E.
  - destruct (is_space d); simpl; try discriminate.
    rewrite orb_false_r. intro H. now rewrite H.
  - simpl in *. intro H. apply orb_true_iff in H. destruct H as [H|H].
    + now rewrite H.
    + rewrite IH by exact H. apply orb_true_r.
Qed.

Lemma has_char_trim (c : ascii) (s : string) :
  has_char c (trim s) = true -> has_char c s = true.
Proof.
  unfold trim. intro H. now apply has_char_trimStart, has_char_trimEnd.
Qed.

Lemma has_char_take (c : ascii) (n : nat) (s : string) :
  has_char c (take n s) = true -> has_char c s = true.
Proof.
  revert s.
  induction n as [|n IH]; intros [|d r]; simpl; auto; try discriminate.
  intro H. apply orb_true_iff in H. destruct H as [H|H].
  - now rewrite H.
  - rewrite IH by exact H. apply orb_true_r.
Qed.

Lemma has_char_drop (c : ascii) (n : nat) (s : string) :
  has_char c (drop n s) = true -> has_char c s = true.
Proof.
  revert s. induction n as [|n IH]; intros [|d r]; simpl; auto.
  intro H. rewrite IH by exact H. apply orb_true_r.
Qed.

Lemma has_char_remove_last (c : ascii) (s : string) :
  has_char c (remove_last s) = true -> has_char c s = true.
Proof.
  induction s as [|d r IH]; simpl; auto.
  destruct r as [|e r']; [discriminate|].
  simpl in *. intro H. apply orb_true_iff in H. destruct H as [H|H].
  - now rewrite H.
  - rewrite IH by exact H. apply orb_true_r.
Qed.

End CharFacts.

(** ** The response generator *)

Section GeneratorFacts.
Import JsString JsNumber LLMClient.

Lemma has_char_strip_label (c : ascii) (s : string) :
  has_char c (strip_label s) = true -> has_char c s = true.
Proof.
  unfold strip_label.
  destruct (find (fun l => startsWith (toLowerCase s) l) labels); auto.
  intro H. now apply has_char_trimStart, has_char_drop in H.
Qed.

Lemma has_char_strip_leading_quote (c : ascii) (s : string) :
  has_char c (strip_leading_quote s) = true -> has_char c s = true.
Proof.
  destruct s as [|d r]; simpl; auto.
  destruct (is_quote d); simpl; auto.
  intro H. apply has_char_trimStart in H. rewrite H. apply orb_true_r.
Qed.

Lemma has_char_strip_trailing_quote (c : ascii) (s : string) :
  has_char c (strip_trailing_quote s) = true -> has_char c s = true.
Proof.
  unfold strip_trailing_quote. destruct (last_char s) as [d|]; auto.
  destruct (is_quote d); auto.
  intro H. now apply has_char_trimEnd, has_char_remove_last in H.
Qed.

(** [cleanResponse] only removes characters. *)
Lemma has_char_cleanResponse (c : ascii) (s : string) :
  has_char c (cleanResponse s) = true -> has_char c s = true.
Proof.
  unfold cleanResponse.
  set (c1 := trim (strip_trailing_quote (strip_leading_quote (strip_label s)))).
  assert (H1 : forall x, has_char c c1 = x -> x = true -> has_char c s = true).
  { intros x <- H. unfold c1 in H.
    now apply has_char_trim, has_char_strip_trailing_quote,
      has_char_strip_leading_quote, has_char_strip_label in H. }
  set (c2 := if (0 <? String.length c1)%nat && negb (ends_with_terminal c1)
             then _ else c1).
  assert (H2 : has_char c c2 = true -> has_char c s = true).
  { unfold c2.
    destruct ((0 <? String.length c1)%nat && negb (ends_with_terminal c1)).
    - destruct (Z.of_nat (String.length c1) <? 2 * lastIndexOf c1 ".")%Z.
      + intro H. apply has_char_take in H. eauto.
      + eauto.
    - eauto. }
  destruct (includes c2 question_mark && negb (endsWithChar c2 "?")); auto.
  intro H. apply has_char_take in H. auto.
Qed.

Lemma includes_question_cleaned (text : string) :
  includes text question_mark = false ->
  includes (cleanResponse (trim text)) question_mark = false.
Proof.
  unfold question_mark. rewrite !includes_char. intro H.
  destruct (has_char "?" (cleanResponse (trim text))) eqn:E; auto.
  apply has_char_cleanResponse, has_char_trim in E. congruence.
Qed.

(** A response without a question mark is rejected. *)
Lemma validate_needs_question (response userMessage : string) :
  includes response question_mark = false ->
  validateResponse response userMessage = false.
Proof.
  intro H. unfold validateResponse. rewrite H. simpl.
  match goal with |- (if ?b then _ else _) = _ => now destruct b end.
Qed.

Lemma fallback_in_pool (userMessage : string) (pick : nat) :
  pick < List.length genericQuestions ->
  In (getFallbackQuestion userMessage pick) fallbackQuestions.
Proof.
  intro Hp. unfold getFallbackQuestion.
  set (m := toLowerCase userMessage).
  destruct (includes m "experience" || includes m "worked");
    [unfold fallbackQuestions; simpl; tauto|].
  destruct (includes m "project" || includes m "built");
    [unfold fallbackQuestions; simpl; tauto|].
  destruct (includes m "team" || includes m "collaborate");
    [unfold fallbackQuestions; simpl; tauto|].
  destruct (includes m "skill" || includes m "learn");
    [unfold fallbackQuestions; simpl; tauto|].
  destruct (includes m "problem" || includes m "solve");
    [unfold fallbackQuestions; simpl; tauto|].
  unfold fallbackQuestions. apply in_or_app. right. now apply nth_In.
Qed.

Lemma fallback_pool_questions :
  Forall (fun q => q <> EmptyString /\ endsWithChar q "?" = true)
         fallbackQuestions.
Proof.
  unfold fallbackQuestions, genericQuestions. simpl.
  repeat constructor; discriminate.
Qed.

End GeneratorFacts.

Section RecordingFacts.
Import JsString JsNumber LLMClient.

Variable Cap : Type.
Variable pipeline : Cap -> string -> number -> option string * Cap.

(** The loop over the recording capability does what the loop over the
    capability does, and the journal grows by the invocations made: the
    attempt log, entry by entry, is what the capability received and
    answered. *)
Lemma recording_loop (c : LLMClient.t) (userMessage : string) (pick : nat)
      (n : nat) (temperature : number) (cap : Cap)
      (journal : list Probe.invocation) :
  retry_loop (Cap * list Probe.invocation) (Probe.recording Cap pipeline)
             c userMessage pick n temperature (cap, journal)
  = (fst (fst (retry_loop Cap pipeline c userMessage pick n temperature cap)),
     (snd (fst (retry_loop Cap pipeline c userMessage pick n temperature cap)),
      (journal
         ++ map Probe.sent
                (snd (retry_loop Cap pipeline c userMessage pick n
                                 temperature cap)))%list),
     snd (retry_loop Cap pipeline c userMessage pick n temperature cap)).
Proof.
  revert temperature cap journal.
  induction n as [|n IH]; intros temperature cap journal.
  - simpl. now rewrite app_nil_r.
  - simpl. unfold Probe.recording at 1. simpl.
    destruct (pipeline cap (buildContextualPrompt c userMessage) temperature)
      as [[text|] cap'].
    + destruct (validateResponse (cleanResponse (trim text)) userMessage).
      * reflexivity.
      * rewrite IH.
        destruct (retry_loop Cap pipeline c userMessage pick n
                             (add temperature lit_0_15) cap')
          as [[r cap''] log].
        simpl. now rewrite <- app_assoc.
    + rewrite IH.
      destruct (retry_loop Cap pipeline c userMessage pick n temperature cap')
        as [[r cap''] log].
      simpl. now rewrite <- app_assoc.
Qed.

(** The journal of one call of [generateWithRetry]. *)
Lemma journal_of_retry (c : LLMClient.t) (userMessage : string)
      (pick maxRetries : nat) (cap : Cap) :
  Probe.invocations_of_retry Cap pipeline c userMessage pick maxRetries cap
  = map Probe.sent
        (snd (generateWithRetry Cap pipeline c userMessage pick maxRetries
                                cap)).
Proof.
  unfold Probe.invocations_of_retry, generateWithRetry.
  now rewrite recording_loop.
Qed.

(** The recording capability changes neither the response nor the log. *)
Lemma recorded_retry (c : LLMClient.t) (userMessage : string)
      (pick maxRetries : nat) (cap : Cap) :
  fst (fst (generateWithRetry (Cap * list Probe.invocation)
                              (Probe.recording Cap pipeline) c userMessage
                              pick maxRetries (cap, [])))
  = fst (fst (generateWithRetry Cap pipeline c userMessage pick maxRetries
                                cap))
  /\ fst (snd (fst (generateWithRetry (Cap * list Probe.invocation)
                                      (Probe.recording Cap pipeline) c
                                      userMessage pick maxRetries (cap, []))))
     = snd (fst (generateWithRetry Cap pipeline c userMessage pick maxRetries
                                   cap))
  /\ snd (generateWithRetry (Cap * list Probe.invocation)
                            (Probe.recording Cap pipeline) c userMessage
                            pick maxRetries (cap, []))
     = snd (generateWithRetry Cap pipeline c userMessage pick maxRetries cap).
Proof.
  unfold generateWithRetry. now rewrite recording_loop.
Qed.

(** The same for [generateResponse]: the journal is the attempts of the
    call, as sent; result and client are those of the plain run. *)
Lemma recorded_response (userMessage : string) (pick : nat)
      (c : LLMClient.t) (cap : Cap) :
  Probe.invocations_of_response Cap pipeline userMessage pick c cap
  = map Probe.sent
        (attempts Cap (generateResponse Cap pipeline userMessage pick c cap))
  /\ result (Cap * list Probe.invocation)
            (generateResponse (Cap * list Probe.invocation)
                              (Probe.recording Cap pipeline) userMessage pick
                              c (cap, []))
     = result Cap (generateResponse Cap pipeline userMessage pick c cap)
  /\ client (Cap * list Probe.invocation)
            (generateResponse (Cap * list Probe.invocation)
                              (Probe.recording Cap pipeline) userMessage pick
                              c (cap, []))
     = client Cap (generateResponse Cap pipeline userMessage pick c cap)
  /\ fst (capability (Cap * list Probe.invocation)
            (generateResponse (Cap * list Probe.invocation)
                              (Probe.recording Cap pipeline) userMessage pick
                              c (cap, [])))
     = capability Cap (generateResponse Cap pipeline userMessage pick c cap).
Proof.
  unfold Probe.invocations_of_response, generateResponse.
  destruct (isModelLoaded c); simpl; [|auto].
  unfold generateWithRetry. rewrite recording_loop.
  destruct (retry_loop Cap pipeline (push (msg user userMessage) c)
                       userMessage pick 3 lit_0_8 cap) as [[r cap'] log].
  simpl. auto.
Qed.

(** The verdict entered in the log is the gate's verdict on the answer. *)
Lemma loop_verdict (c : LLMClient.t) (userMessage : string) (pick : nat)
      (n : nat) (temperature : number) (cap : Cap) (a : attempt) :
  In a (snd (retry_loop Cap pipeline c userMessage pick n temperature cap)) ->
  validationResult a
  = match rawOutput a with
    | Some text => validateResponse (cleanResponse (trim text)) userMessage
    | None => false
    end.
Proof.
  revert temperature cap. induction n as [|n IH]; intros temperature cap.
  - simpl. tauto.
  - simpl.
    destruct (pipeline cap (buildContextualPrompt c userMessage) temperature)
      as [[text|] cap'].
    + destruct (validateResponse (cleanResponse (trim text)) userMessage)
        eqn:E.
      * intros [<-|[]]. simpl. now rewrite E.
      * specialize (IH (add temperature lit_0_15) cap').
        destruct (retry_loop Cap pipeline c userMessage pick n
                             (add temperature lit_0_15) cap')
          as [[r cap''] log].
        simpl in *. intros [<-|Ha]; [simpl; now rewrite E | auto].
    + specialize (IH temperature cap').
      destruct (retry_loop Cap pipeline c userMessage pick n temperature cap')
        as [[r cap''] log].
      simpl in *. intros [<-|Ha]; [reflexivity | auto].
Qed.

(** Counting the rejected answers of the journal is counting the rejected
    attempts of the log. *)
Lemma rejected_count_sent (userMessage : string) (l : list attempt) :
  (forall a, In a l ->
     validationResult a
     = match rawOutput a with
       | Some text => validateResponse (cleanResponse (trim text)) userMessage
       | None => false
       end) ->
  Probe.rejected_count userMessage (map Probe.sent l) = Design.rejections l.
Proof.
  unfold Probe.rejected_count, Design.rejections.
  induction l as [|a l IH]; intro H; [reflexivity|].
  simpl. unfold Probe.rejected at 1. simpl.
  rewrite (H a (or_introl eq_refl)).
  destruct (rawOutput a) as [text|].
  - destruct (validateResponse (cleanResponse (trim text)) userMessage);
      simpl; [|f_equal]; apply IH; intros b Hb; apply H; now right.
  - apply IH. intros b Hb. apply H. now right.
Qed.

Lemma in_firstn {A : Type} (a : A) (k : nat) (l : list A) :
  In a (firstn k l) -> In a l.
Proof.
  intro H. rewrite <- (firstn_skipn k l). apply in_or_app. now left.
Qed.

End RecordingFacts.

Section GeneratorClaims.
Import JsString JsNumber LLMClient.

Variable Cap : Type.
Variable pipeline : Cap -> string -> number -> option string * Cap.

(** When every generated text lacks a question mark, the loop runs to
    its end and the fallback answers. *)
Lemma retry_loop_all_rejected (c : LLMClient.t) (userMessage : string)
      (pick : nat) :
  (forall cap prompt temperature, exists text,
      fst (pipeline cap prompt temperature) = Some text
      /\ includes text question_mark = false) ->
  forall remaining temperature cap,
    fst (fst (retry_loop Cap pipeline c userMessage pick remaining
                         temperature cap))
    = getFallbackQuestion userMessage pick
    /\ List.length (snd (retry_loop Cap pipeline c userMessage pick remaining
                                    temperature cap)) = remaining.
Proof.
  intro Hnoq. induction remaining as [|n IH]; intros temperature cap; simpl.
  - auto.
  - destruct (Hnoq cap (buildContextualPrompt c userMessage) temperature)
      as [text [Hp Hq]].
    destruct (pipeline cap (buildContextualPrompt c userMessage) temperature)
      as [[o|] cap'] eqn:E; simpl in Hp; [|discriminate].
    injection Hp as ->.
    rewrite validate_needs_question
      by (now apply includes_question_cleaned).
    specialize (IH (add temperature lit_0_15) cap').
    destruct (retry_loop Cap pipeline c userMessage pick n
                         (add temperature lit_0_15) cap')
      as [[r cap''] log].
    simpl in *. destruct IH as [-> ->]. auto.
Qed.

(** Under the same assumption every attempt carries the contextual
    prompt and a text that the gate turns down. *)
Lemma retry_loop_sent (c : LLMClient.t) (userMessage : string) (pick : nat) :
  (forall cap prompt temperature, exists text,
      fst (pipeline cap prompt temperature) = Some text
      /\ includes text question_mark = false) ->
  forall remaining temperature cap a,
    In a (snd (retry_loop Cap pipeline c userMessage pick remaining
                          temperature cap)) ->
    Probe.given_prompt (Probe.sent a) = buildContextualPrompt c userMessage
    /\ Probe.rejected userMessage (Probe.sent a) = true.
Proof.
  intro Hnoq. induction remaining as [|n IH]; intros temperature cap a; simpl.
  - tauto.
  - destruct (Hnoq cap (buildContextualPrompt c userMessage) temperature)
      as [text [Hp Hq]].
    destruct (pipeline cap (buildContextualPrompt c userMessage) temperature)
      as [[o|] cap'] eqn:E; simpl in Hp; [|discriminate].
    injection Hp as ->.
    assert (Hv : validateResponse (cleanResponse (trim text)) userMessage
                 = false)
      by (apply validate_needs_question; now apply includes_question_cleaned).
    rewrite Hv.
    specialize (IH (add temperature lit_0_15) cap' a).
    destruct (retry_loop Cap pipeline c userMessage pick n
                         (add temperature lit_0_15) cap')
      as [[r cap''] log].
    simpl in *. intros [<-|Ha]; [|auto].
    unfold Probe.rejected. simpl. now rewrite Hv.
Qed.

(** C5 -- retry exhaustion yields the fallback.  If every invocation of
    the capability returns a text without a question mark, then
    [generateWithRetry] invokes it exactly [maxRetries] times and returns
    the fallback question; [generateResponse], with the model loaded,
    returns (it does not throw) after exactly 3 invocations a text of the
    fallback set that is not empty and ends with a question mark.  The
    invocations are counted where they arrive: in the journal that the
    recording capability keeps in its own state, empty before the call.
    Each of them received the contextual prompt and was answered with a
    text that the gate turned down. *)
Theorem retry_exhaustion_yields_fallback
        (c : LLMClient.t) (cap : Cap) (userMessage : string)
        (pick maxRetries : nat) :
  (forall cap prompt temperature, exists text,
      fst (pipeline cap prompt temperature) = Some text
      /\ includes text question_mark = false) ->
  isModelLoaded c = true ->
  pick < List.length genericQuestions ->
  (List.length
     (snd (generateWithRetry Cap pipeline c userMessage pick maxRetries cap))
   = maxRetries
   /\ fst (fst (generateWithRetry Cap pipeline c userMessage pick
                                  maxRetries cap))
      = getFallbackQuestion userMessage pick
   /\ List.length
        (Probe.invocations_of_retry Cap pipeline c userMessage pick
                                    maxRetries cap)
      = maxRetries
   /\ fst (fst (generateWithRetry (Cap * list Probe.invocation)
                                  (Probe.recording Cap pipeline) c userMessage
                                  pick maxRetries (cap, [])))
      = getFallbackQuestion userMessage pick
   /\ forall i,
        In i (Probe.invocations_of_retry Cap pipeline c userMessage pick
                                         maxRetries cap) ->
        Probe.given_prompt i = buildContextualPrompt c userMessage
        /\ Probe.rejected userMessage i = true)
  /\ exists response,
      result Cap (generateResponse Cap pipeline userMessage pick c cap)
      = Returned response
      /\ List.length
           (attempts Cap (generateResponse Cap pipeline userMessage pick c cap))
         = 3
      /\ In response fallbackQuestions
      /\ response <> EmptyString
      /\ endsWithChar response "?" = true
      /\ result (Cap * list Probe.invocation)
           (generateResponse (Cap * list Probe.invocation)
                             (Probe.recording Cap pipeline) userMessage pick
                             c (cap, []))
         = Returned response
      /\ List.length
           (Probe.invocations_of_response Cap pipeline userMessage pick c cap)
         = 3.
Proof.
  intros Hnoq Hloaded Hpick. split.
  - destruct (recorded_retry Cap pipeline c userMessage pick maxRetries cap)
      as [Hr _].
    rewrite Hr, journal_of_retry, length_map.
    unfold generateWithRetry.
    destruct (retry_loop_all_rejected c userMessage pick Hnoq maxRetries
                                      lit_0_8 cap) as [H1 H2].
    repeat (split; [assumption|]).
    intros i Hi. apply in_map_iff in Hi. destruct Hi as [a [<- Ha]].
    apply (retry_loop_sent c userMessage pick Hnoq _ _ _ _ Ha).
  - destruct (recorded_response Cap pipeline userMessage pick c cap)
      as [Hj [Hr _]].
    rewrite Hr, Hj, length_map.
    unfold generateResponse. rewrite Hloaded. simpl.
    unfold generateWithRetry.
    destruct (retry_loop_all_rejected (push (msg user userMessage) c)
                                      userMessage pick Hnoq 3 lit_0_8 cap)
      as [H1 H2].
    destruct (retry_loop Cap pipeline (push (msg user userMessage) c)
                         userMessage pick 3 lit_0_8 cap) as [[r cap'] log].
    simpl in *. subst r. exists (getFallbackQuestion userMessage pick).
    pose proof (fallback_in_pool userMessage pick Hpick) as Hin.
    pose proof fallback_pool_questions as Hall.
    rewrite Forall_forall in Hall. destruct (Hall _ Hin) as [Hne Hq].
    repeat (split; [auto; fail|]). assumption.
Qed.

(** C9 -- history append ordering.  When the model is loaded,
    [generateResponse] returns a response, and the history afterwards is
    the history before followed by exactly two entries: the user entry
    with the utterance, then the assistant entry with that response. *)
Theorem history_append_ordering
        (c : LLMClient.t) (cap : Cap) (userMessage : string) (pick : nat) :
  isModelLoaded c = true ->
  exists response,
    result Cap (generateResponse Cap pipeline userMessage pick c cap)
    = Returned response
    /\ getHistory
         (client Cap (generateResponse Cap pipeline userMessage pick c cap))
       = (getHistory c
            ++ [msg user userMessage; msg assistant response])%list.
Proof.
  intro Hloaded. unfold generateResponse. rewrite Hloaded. simpl.
  destruct (generateWithRetry Cap pipeline (push (msg user userMessage) c)
                              userMessage pick 3 cap) as [[r cap'] log].
  exists r. simpl. split; [reflexivity|].
  unfold getHistory. now rewrite <- app_assoc.
Qed.

(** C10 -- precondition violation.  When the model is not loaded,
    [generateResponse] throws the error "Model not loaded" and changes
    nothing: the client, its history included, and the capability are as
    before, and the capability was not invoked. *)
Theorem not_loaded_throws_unchanged
        (c : LLMClient.t) (cap : Cap) (userMessage : string) (pick : nat) :
  isModelLoaded c = false ->
  result Cap (generateResponse Cap pipeline userMessage pick c cap)
  = Thrown (Error "Model not loaded. Call initialize() first.")
  /\ client Cap (generateResponse Cap pipeline userMessage pick c cap) = c
  /\ getHistory
       (client Cap (generateResponse Cap pipeline userMessage pick c cap))
     = getHistory c
  /\ capability Cap (generateResponse Cap pipeline userMessage pick c cap)
     = cap
  /\ attempts Cap (generateResponse Cap pipeline userMessage pick c cap) = [].
Proof.
  intro H. unfold generateResponse. rewrite H. simpl. auto.
Qed.

End GeneratorClaims.

Section RetrySchedule.
Import JsString JsNumber LLMClient.

Variable Cap : Type.
Variable pipeline : Cap -> string -> number -> option string * Cap.

Variable c : LLMClient.t.
Variable userMessage : string.
Variable pick : nat.

Import Design.

Local Abbreviation log_of n temperature cap :=
  (snd (retry_loop Cap pipeline c userMessage pick n temperature cap)).

(** One unfolding of the loop, by the outcome of the invocation. *)
Lemma loop_step (n : nat) (temperature : number) (cap : Cap) :
  let prompt := buildContextualPrompt c userMessage in
  snd (retry_loop Cap pipeline c userMessage pick (S n) temperature cap) =
  match pipeline cap prompt temperature with
  | (Some text, cap') =>
      if validateResponse (cleanResponse (trim text)) userMessage
      then [mk_attempt prompt temperature (Some text) true]
      else mk_attempt prompt temperature (Some text) false
           :: log_of n (bump temperature) cap'
  | (None, cap') =>
      mk_attempt prompt temperature None false :: log_of n temperature cap'
  end.
Proof.
  simpl.
  destruct (pipeline cap (buildContextualPrompt c userMessage) temperature)
    as [[text|] cap'].
  - destruct (validateResponse (cleanResponse (trim text)) userMessage);
      [reflexivity|].
    unfold bump.
    now destruct (retry_loop Cap pipeline c userMessage pick n
                             (add temperature lit_0_15) cap') as [[r c''] l].
  - now destruct (retry_loop Cap pipeline c userMessage pick n temperature cap')
      as [[r c''] l].
Qed.

Lemma loop_length (n : nat) (temperature : number) (cap : Cap) :
  List.length (log_of n temperature cap) <= n.
Proof.
  revert temperature cap. induction n as [|n IH]; intros temperature cap.
  - simpl. lia.
  - rewrite loop_step.
    destruct (pipeline cap (buildContextualPrompt c userMessage) temperature)
      as [[text|] cap'].
    + destruct (validateResponse (cleanResponse (trim text)) userMessage);
        simpl; [lia|]. specialize (IH (bump temperature) cap'). lia.
    + simpl. specialize (IH temperature cap'). lia.
Qed.

(** Each attempt, rejected or thrown, uses up one iteration. *)
Lemma loop_exhausted (n : nat) (temperature : number) (cap : Cap) :
  (forall a, In a (log_of n temperature cap) -> validationResult a = false) ->
  List.length (log_of n temperature cap) = n.
Proof.
  revert temperature cap. induction n as [|n IH]; intros temperature cap.
  - reflexivity.
  - rewrite loop_step.
    destruct (pipeline cap (buildContextualPrompt c userMessage) temperature)
      as [[text|] cap'].
    + destruct (validateResponse (cleanResponse (trim text)) userMessage).
      * intro H. specialize (H _ (or_introl eq_refl)). discriminate.
      * intro H. simpl. f_equal. apply IH. intros a Ha. apply H. now right.
    + intro H. simpl. f_equal. apply IH. intros a Ha. apply H. now right.
Qed.

(** An attempt that threw has no output and counts as not accepted. *)
Lemma loop_thrown (n : nat) (temperature : number) (cap : Cap) (a : attempt) :
  In a (log_of n temperature cap) ->
  rawOutput a = None -> validationResult a = false.
Proof.
  revert temperature cap. induction n as [|n IH]; intros temperature cap.
  - simpl. tauto.
  - rewrite loop_step.
    destruct (pipeline cap (buildContextualPrompt c userMessage) temperature)
      as [[text|] cap'].
    + destruct (validateResponse (cleanResponse (trim text)) userMessage).
      * intros [<-|[]]. discriminate.
      * intros [<-|Ha]; [reflexivity | eauto].
    + intros [<-|Ha]; [reflexivity | eauto].
Qed.

(** Only the last attempt of a log can be an accepted one. *)
Lemma loop_prefix_rejected (n : nat) (temperature : number) (cap : Cap)
      (k : nat) :
  k < List.length (log_of n temperature cap) ->
  Forall (fun a => validationResult a = false)
         (firstn k (log_of n temperature cap)).
Proof.
  revert temperature cap k. induction n as [|n IH]; intros temperature cap k.
  - simpl. lia.
  - rewrite loop_step.
    destruct (pipeline cap (buildContextualPrompt c userMessage) temperature)
      as [[text|] cap'].
    + destruct (validateResponse (cleanResponse (trim text)) userMessage).
      * simpl. intro H. assert (k = 0) as -> by lia. constructor.
      * destruct k as [|k]; simpl; intro H; constructor; auto.
        apply IH. lia.
    + destruct k as [|k]; simpl; intro H; constructor; auto.
      apply IH. lia.
Qed.

(** The temperature of attempt [k] is the starting temperature raised
    once for each earlier attempt whose text failed validation. *)
Lemma loop_temperature (n : nat) (temperature : number) (cap : Cap)
      (k : nat) (a : attempt) :
  nth_error (log_of n temperature cap) k = Some a ->
  samplingTemperature a =
  Nat.iter (Design.rejections (firstn k (log_of n temperature cap)))
           bump temperature.
Proof.
  revert temperature cap k. induction n as [|n IH]; intros temperature cap k.
  - simpl. destruct k; discriminate.
  - rewrite loop_step.
    destruct (pipeline cap (buildContextualPrompt c userMessage) temperature)
      as [[text|] cap'].
    + destruct (validateResponse (cleanResponse (trim text)) userMessage).
      * destruct k as [|k]; simpl.
        -- intro H. now injection H as <-.
        -- destruct k; discriminate.
      * destruct k as [|k]; simpl.
        -- intro H. now injection H as <-.
        -- intro H. apply IH in H. rewrite H.
           unfold Design.rejections. simpl.
           now rewrite <- Nat.iter_succ_r.
    + destruct k as [|k]; simpl.
      * intro H. now injection H as <-.
      * intro H. apply IH in H. rewrite H. reflexivity.
Qed.

(** Every attempt sends the contextual prompt. *)
Lemma loop_prompts (n : nat) (temperature : number) (cap : Cap) (a : attempt) :
  In a (log_of n temperature cap) ->
  promptText a = buildContextualPrompt c userMessage.
Proof.
  revert temperature cap. induction n as [|n IH]; intros temperature cap.
  - simpl. tauto.
  - rewrite loop_step.
    destruct (pipeline cap (buildContextualPrompt c userMessage) temperature)
      as [[text|] cap'].
    + destruct (validateResponse (cleanResponse (trim text)) userMessage).
      * intros [<-|[]]. reflexivity.
      * intros [<-|Ha]; [reflexivity | eauto].
    + intros [<-|Ha]; [reflexivity | eauto].
Qed.

Lemma rejections_all (l : list attempt) :
  Forall (fun a => validationResult a = false) l ->
  (forall a, In a l -> rawOutput a <> None) ->
  Design.rejections l = List.length l.
Proof.
  unfold Design.rejections.
  induction l as [|a l IH]; intros Hrej Hout; simpl; auto.
  inversion Hrej as [|? ? Ha Hl]; subst.
  destruct (rawOutput a) eqn:E.
  - rewrite Ha. simpl. f_equal. apply IH; auto. intros b Hb. apply Hout.
    now right.
  - exfalso. apply (Hout a); [now left | exact E].
Qed.

End RetrySchedule.

Section RetryClaims.
Import JsString JsNumber LLMClient.

(** Accumulating the increment agrees with the closed formula of the
    design document on the three attempts of a call. *)
Lemma raised_is_formula (k : nat) :
  k < 3 -> Design.raised_temperature k = Design.retry_temperature k.
Proof.
  intro H. destruct k as [|[|[|k]]]; try lia; reflexivity.
Qed.

(** The literals are the correctly rounded quotients. *)
Lemma literals_rounded :
  lit_0_7 = div (of_nat 7) (of_nat 10)
  /\ lit_0_8 = div (of_nat 8) (of_nat 10)
  /\ lit_0_15 = div (of_nat 15) (of_nat 100).
Proof. repeat split; reflexivity. Qed.

Lemma retry_exhaustion_witness :
  ((forall cap prompt temperature, exists text,
       fst (Design.steady cap prompt temperature) = Some text
       /\ includes text question_mark = false)
   /\ isModelLoaded Design.ready = true
   /\ 0 < List.length genericQuestions)
  /\ List.length
       (Probe.invocations_of_retry unit Design.steady Design.ready
                                   "I built a compiler" 0 3 tt) = 3
  /\ fst (fst (generateWithRetry (unit * list Probe.invocation)
                                 (Probe.recording unit Design.steady)
                                 Design.ready "I built a compiler" 0 3
                                 (tt, [])))
     = getFallbackQuestion "I built a compiler" 0.
Proof.
  assert (H1 : forall cap prompt temperature, exists text,
             fst (Design.steady cap prompt temperature) = Some text
             /\ includes text question_mark = false).
  { intros cap prompt temperature. exists "Tell me more about it.".
    split; reflexivity. }
  assert (H2 : isModelLoaded Design.ready = true) by reflexivity.
  assert (H3 : 0 < List.length genericQuestions) by (simpl; lia).
  split; [auto|].
  destruct (proj1 (retry_exhaustion_yields_fallback
                     unit Design.steady Design.ready tt "I built a compiler"
                     0 3 H1 H2 H3)) as [_ [_ [Hlen [Hr _]]]].
  split; [exact Hlen | exact Hr].
Defined.

Lemma history_append_witness :
  isModelLoaded Design.ready = true
  /\ exists response,
      result nat
        (generateResponse nat Design.flaky "I built a compiler" 0
                          Design.ready 0)
      = Returned response
      /\ getHistory
           (client nat
              (generateResponse nat Design.flaky "I built a compiler" 0
                                Design.ready 0))
         = (getHistory Design.ready
              ++ [msg user "I built a compiler"; msg assistant response])%list.
Proof.
  split; [reflexivity|].
  apply (history_append_ordering nat Design.flaky Design.ready 0
                                 "I built a compiler" 0).
  reflexivity.
Defined.

Lemma not_loaded_witness :
  isModelLoaded (mk [msg user "hello"] "sys" false) = false
  /\ result unit
       (generateResponse unit Design.steady "I built a compiler" 0
                         (mk [msg user "hello"] "sys" false) tt)
     = Thrown (Error "Model not loaded. Call initialize() first.")
  /\ getHistory
       (client unit
          (generateResponse unit Design.steady "I built a compiler" 0
                            (mk [msg user "hello"] "sys" false) tt))
     = [msg user "hello"].
Proof.
  split; [reflexivity|].
  destruct (not_loaded_throws_unchanged
              unit Design.steady (mk [msg user "hello"] "sys" false) tt
              "I built a compiler" 0 eq_refl) as [H1 [_ [H3 _]]].
  split; [exact H1 | exact H3].
Defined.

(** C6, as stated, fails when an invocation throws: the capability
    [flaky] throws on attempt 0, and attempt 1 runs at the base
    temperature 0.8, not at [0.8 + 0.15 * 1].  The journal of the
    recording capability shows the same: it is given 0.8, 0.8 and then
    0.8 raised once. *)
Lemma thrown_attempt_keeps_temperature :
  option_map samplingTemperature
    (nth_error
       (attempts nat
          (generateResponse nat Design.flaky "hello" 0 Design.ready 0)) 1)
  = Some lit_0_8
  /\ lit_0_8 <> Design.retry_temperature 1
  /\ option_map rawOutput
       (nth_error
          (attempts nat
             (generateResponse nat Design.flaky "hello" 0 Design.ready 0)) 0)
     = Some None
  /\ map Probe.given_temperature
         (Probe.invocations_of_response nat Design.flaky "hello" 0
                                        Design.ready 0)
     = [lit_0_8; lit_0_8; Design.raised_temperature 1]
  /\ map Probe.answer
         (Probe.invocations_of_response nat Design.flaky "hello" 0
                                        Design.ready 0)
     = [None; Some "Tell me more about it."; Some "Tell me more about it."].
Proof.
  split; [reflexivity|].
  split; [vm_compute; discriminate|].
  repeat split; vm_compute; reflexivity.
Qed.

(** What the journal holds, read off the log of the same call. *)
Lemma journal_entry
      (Cap : Type) (pipeline : Cap -> string -> number -> option string * Cap)
      (c : LLMClient.t) (userMessage : string) (pick maxRetries : nat)
      (cap : Cap) (k : nat) (i : Probe.invocation) :
  nth_error (Probe.invocations_of_retry Cap pipeline c userMessage pick
                                        maxRetries cap) k = Some i ->
  exists a,
    nth_error (snd (generateWithRetry Cap pipeline c userMessage pick
                                      maxRetries cap)) k = Some a
    /\ i = Probe.sent a
    /\ Probe.rejected_count userMessage
         (firstn k (Probe.invocations_of_retry Cap pipeline c userMessage pick
                                               maxRetries cap))
       = Design.rejections
           (firstn k (snd (generateWithRetry Cap pipeline c userMessage pick
                                             maxRetries cap))).
Proof.
  rewrite journal_of_retry, nth_error_map.
  destruct (nth_error _ k) as [a|] eqn:E; simpl; [|discriminate].
  intro H. injection H as <-. exists a. repeat split.
  rewrite firstn_map. apply rejected_count_sent.
  intros b Hb. apply in_firstn in Hb. unfold generateWithRetry in Hb.
  exact (loop_verdict Cap pipeline c userMessage pick _ _ _ _ Hb).
Qed.

(** C6 (amended) -- the temperature schedule.  In one call of
    [generateWithRetry] at most [maxRetries] attempts are made; the
    temperature of attempt [k] is 0.8 raised by 0.15 once for each earlier
    attempt whose text failed validation; an attempt on which the
    capability throws is not accepted and uses up one attempt like a
    rejected one (a call in which no attempt is accepted makes exactly
    [maxRetries] attempts), but it leaves the temperature as it is.  When
    no attempt throws, attempt [k] of the three attempts runs at
    [0.8 + 0.15 * k].  All of this holds of the invocations as the
    capability receives them: the journal that the recording capability
    keeps is the log entry by entry, invocation [k] is given the
    contextual prompt and the temperature 0.8 raised once for each
    earlier invocation whose answer the gate turned down. *)
Theorem retry_temperature_schedule
        (Cap : Type) (pipeline : Cap -> string -> number -> option string * Cap)
        (c : LLMClient.t) (userMessage : string) (pick maxRetries : nat)
        (cap : Cap) :
  let log :=
    snd (generateWithRetry Cap pipeline c userMessage pick maxRetries cap) in
  let journal :=
    Probe.invocations_of_retry Cap pipeline c userMessage pick maxRetries
                               cap in
  (List.length log <= maxRetries
   /\ (forall k a, nth_error log k = Some a ->
         samplingTemperature a
         = Design.raised_temperature (Design.rejections (firstn k log)))
   /\ (forall a, In a log -> rawOutput a = None -> validationResult a = false)
   /\ ((forall a, In a log -> validationResult a = false) ->
       List.length log = maxRetries)
   /\ ((forall a, In a log -> rawOutput a <> None) ->
       forall k a, k < 3 -> nth_error log k = Some a ->
         samplingTemperature a = Design.retry_temperature k))
  /\ journal = map Probe.sent log
  /\ List.length journal <= maxRetries
  /\ (forall k i, nth_error journal k = Some i ->
        Probe.given_prompt i = buildContextualPrompt c userMessage
        /\ Probe.given_temperature i
           = Design.raised_temperature
               (Probe.rejected_count userMessage (firstn k journal)))
  /\ ((forall i, In i journal ->
         Probe.answer i = None \/ Probe.rejected userMessage i = true) ->
      List.length journal = maxRetries)
  /\ ((forall i, In i journal -> Probe.answer i <> None) ->
      forall k i, k < 3 -> nth_error journal k = Some i ->
        Probe.given_temperature i = Design.retry_temperature k).
Proof.
  intros log journal.
  assert (Hformula :
            (forall a, In a log -> rawOutput a <> None) ->
            forall k a, k < 3 -> nth_error log k = Some a ->
              samplingTemperature a = Design.retry_temperature k).
  { unfold generateWithRetry in log.
    intros Hout k a Hk Hnth.
    assert (Hlt : k < List.length log).
    { apply nth_error_Some. congruence. }
    rewrite (loop_temperature _ _ _ _ _ _ _ _ _ _ Hnth).
    fold log.
    fold (Design.raised_temperature (Design.rejections (firstn k log))).
    rewrite rejections_all.
    - rewrite firstn_length_le by lia. now apply raised_is_formula.
    - now apply loop_prefix_rejected.
    - intros b Hb. apply Hout. eapply in_firstn; eauto. }
  assert (Hj : journal = map Probe.sent log) by apply journal_of_retry.
  split.
  { unfold generateWithRetry in log.
    split; [apply loop_length|].
    split; [intros k a; apply loop_temperature|].
    split; [intros a; apply loop_thrown|].
    split; [apply loop_exhausted | exact Hformula]. }
  split; [exact Hj|].
  split.
  { rewrite Hj, length_map. apply loop_length. }
  split.
  { intros k i Hnth.
    destruct (journal_entry Cap pipeline c userMessage pick maxRetries cap
                            k i Hnth) as [a [Ha [-> Hcount]]].
    fold journal in Hcount. rewrite Hcount. split.
    - apply nth_error_In in Ha. unfold generateWithRetry in Ha.
      exact (loop_prompts Cap pipeline c userMessage pick _ _ _ _ Ha).
    - unfold generateWithRetry in Ha.
      exact (loop_temperature Cap pipeline c userMessage pick _ _ _ _ _ Ha). }
  split.
  { intro Hall. rewrite Hj, length_map. apply loop_exhausted.
    intros a Ha.
    rewrite (loop_verdict Cap pipeline c userMessage pick _ _ _ _ Ha).
    assert (Hi : In (Probe.sent a) journal)
      by (rewrite Hj; now apply in_map).
    destruct (Hall _ Hi) as [H|H].
    - simpl in H. now rewrite H.
    - unfold Probe.rejected in H. simpl in H.
      destruct (rawOutput a) as [text|]; [|reflexivity].
      now apply negb_true_iff in H. }
  intros Hans k i Hk Hnth.
  destruct (journal_entry Cap pipeline c userMessage pick maxRetries cap
                          k i Hnth) as [a [Ha [-> _]]].
  simpl. apply Hformula; auto.
  intros b Hb. apply (Hans (Probe.sent b)). rewrite Hj. now apply in_map.
Qed.

Lemma retry_temperature_schedule_witness :
  (forall i,
      In i (Probe.invocations_of_retry unit Design.steady Design.ready
                                       "hello" 0 3 tt) ->
      Probe.answer i <> None)
  /\ option_map Probe.given_temperature
       (nth_error
          (Probe.invocations_of_retry unit Design.steady Design.ready
                                      "hello" 0 3 tt) 2)
     = Some (Design.retry_temperature 2).
Proof.
  assert (Hout : forall i,
             In i (Probe.invocations_of_retry unit Design.steady Design.ready
                                              "hello" 0 3 tt) ->
             Probe.answer i <> None).
  { intros i Hi. vm_compute in Hi.
    destruct Hi as [<-|[<-|[<-|[]]]]; discriminate. }
  split; [exact Hout|].
  destruct (nth_error
              (Probe.invocations_of_retry unit Design.steady Design.ready
                                          "hello" 0 3 tt) 2) as [i|] eqn:E.
  - simpl. f_equal.
    apply (proj2 (proj2 (proj2 (proj2 (proj2
             (retry_temperature_schedule unit Design.steady Design.ready
                                         "hello" 0 3 tt))))) Hout 2 i).
    + lia.
    + exact E.
  - vm_compute in E. discriminate.
Defined.

End RetryClaims.

Section ValidationGate.
Import JsString JsNumber LLMClient.

Lemma filter_length_le {A : Type} (f : A -> bool) (l : list A) :
  List.length (filter f l) <= List.length l.
Proof.
  induction l as [|a l IH]; simpl; auto. destruct (f a); simpl; lia.
Qed.

Lemma filter_and_length_le {A : Type} (f g : A -> bool) (l : list A) :
  List.length (filter (fun a => f a && g a) l) <= List.length (filter f l).
Proof.
  induction l as [|a l IH]; simpl; auto.
  destruct (f a), (g a); simpl; lia.
Qed.

Lemma overlap_le_words (response userMessage : string) :
  overlap response userMessage
  <= List.length (split " " (toLowerCase userMessage)).
Proof. unfold overlap. apply filter_length_le. Qed.

Lemma overlap_le_long_words (response userMessage : string) :
  overlap response userMessage
  <= List.length
       (filter (fun word => (4 <? String.length word)%nat)
               (split " " (toLowerCase userMessage))).
Proof.
  unfold overlap.
  apply (filter_and_length_le
           (fun word => (4 <? String.length word)%nat)
           (fun word => array_includes
                          (split " " (toLowerCase response)) word)).
Qed.

Lemma threshold_table : Design.threshold_exact_upto 90 = true.
Proof. vm_compute. reflexivity. Qed.

(** Below 90 words the floating-point test is the exact one. *)
Lemma threshold_below_90 (n k : nat) :
  n < 90 -> k <= n ->
  gt (of_nat k) (mul (of_nat n) lit_0_7) = (7 * n <? 10 * k)%nat.
Proof.
  intros Hn Hk. pose proof threshold_table as T.
  unfold Design.threshold_exact_upto in T.
  rewrite forallb_forall in T.
  assert (Hin : In n (seq 0 90)) by (apply in_seq; lia).
  specialize (T n Hin). rewrite forallb_forall in T.
  assert (Hik : In k (seq 0 (S n))) by (apply in_seq; lia).
  specialize (T k Hik). unfold Design.threshold_exact in T.
  now apply Bool.eqb_prop in T.
Qed.

(** On the example utterance the repetition test of the gate cannot
    fire: at most four words count, and four does not exceed 0.7 times
    nine. *)
Lemma example_overlap_never_fires (response : string) :
  overlap_too_high response Design.example_utterance = false.
Proof.
  unfold overlap_too_high.
  assert (Hw : List.length
                 (split " " (toLowerCase Design.example_utterance)) = 9)
    by reflexivity.
  pose proof (overlap_le_long_words response Design.example_utterance) as Hl.
  assert (Hq : List.length
                 (filter (fun word => (4 <? String.length word)%nat)
                         (split " " (toLowerCase Design.example_utterance)))
               = 4) by reflexivity.
  rewrite Hq in Hl. rewrite Hw.
  rewrite threshold_below_90 by lia.
  apply Nat.ltb_ge. lia.
Qed.

(** C1 -- the validation gate lets repetition through.  The candidate that
    is the example utterance itself with a question mark appended shares
    three of the utterance's four words longer than 4 characters (75%), and
    the candidate [example_restatement] shares all four; for both the
    design document's fraction exceeds 0.7, and [validateResponse] accepts
    both.  The code compares the count of shared long words with 0.7 times
    the number of all nine words of the utterance, a bound that no
    candidate can exceed here, so on this utterance the test that should
    keep a response from repeating the user's words rejects nothing. *)
Theorem echo_passes_validation :
  Design.example_echo = "I have five years of experience in backend systems?"
  /\ (overlap Design.example_echo Design.example_utterance = 3
      /\ Design.overlap_fraction_exceeds Design.example_echo
                                         Design.example_utterance = true
      /\ validateResponse Design.example_echo Design.example_utterance = true)
  /\ (overlap Design.example_restatement Design.example_utterance = 4
      /\ Design.overlap_fraction_exceeds Design.example_restatement
                                         Design.example_utterance = true
      /\ validateResponse Design.example_restatement
                          Design.example_utterance = true)
  /\ List.length
       (filter (fun word => (4 <? String.length word)%nat)
               (split " " (toLowerCase Design.example_utterance))) = 4
  /\ List.length (split " " (toLowerCase Design.example_utterance)) = 9
  /\ forall response,
       overlap_too_high response Design.example_utterance = false.
Proof.
  split; [reflexivity|].
  split; [repeat split; vm_compute; reflexivity|].
  split; [repeat split; vm_compute; reflexivity|].
  split; [reflexivity|].
  split; [reflexivity|].
  apply example_overlap_never_fires.
Qed.

(** What [validateResponse] computes: it rejects a response exactly when
    it contains a phrase of the denylist, or has no question mark, or is
    shorter than 10 or longer than 300 characters, or its overlap count
    exceeds 0.7 times the number of all words of the utterance.  For an
    utterance of fewer than 90 words the binary64 comparison is exactly
    [10 * count > 7 * words]. *)
Lemma validateResponse_decides (response userMessage : string) :
  (validateResponse response userMessage = false <->
   (existsb (fun phrase => includes (toLowerCase response) phrase) badPhrases
    = true
    \/ includes response question_mark = false
    \/ String.length response < 10
    \/ 300 < String.length response
    \/ overlap_too_high response userMessage = true))
  /\ (List.length (split " " (toLowerCase userMessage)) < 90 ->
      (overlap_too_high response userMessage = true <->
       7 * List.length (split " " (toLowerCase userMessage))
       < 10 * overlap response userMessage)).
Proof.
  split.
  - unfold validateResponse.
    destruct (existsb _ badPhrases); [split; auto|].
    destruct (includes response question_mark); simpl; [|split; auto].
    destruct (Nat.ltb_spec (String.length response) 10); simpl;
      [split; auto|].
    destruct (Nat.ltb_spec 300 (String.length response)); simpl;
      [split; auto 6|].
    destruct (overlap_too_high response userMessage); [split; auto 6|].
    split; [discriminate|].
    intros [H1|[H1|[H1|[H1|H1]]]]; try discriminate; lia.
  - intro Hn. unfold overlap_too_high.
    rewrite threshold_below_90
      by (auto using overlap_le_words).
    apply Nat.ltb_lt.
Qed.

End ValidationGate.

(** ** The JSON text of a snapshot is read back *)

Section JsonFacts.
Import JsString Json.

Lemma append_assoc (a b c : string) : ((a ++ b) ++ c = a ++ (b ++ c))%string.
Proof. induction a as [|x a IH]; simpl; [reflexivity | now rewrite IH]. Qed.

Lemma length_append (a b : string) :
  String.length (a ++ b) = String.length a + String.length b.
Proof. induction a as [|x a IH]; simpl; [reflexivity | now rewrite IH]. Qed.

(** Reading back one quoted character, for each of the 256 code units. *)
Lemma lex_quote_char (c : ascii) (tail : string) :
  lex_chars (quote_char c ++ tail) = push c (lex_chars tail).
Proof.
  destruct c as [[] [] [] [] [] [] [] []]; reflexivity.
Qed.

Lemma lex_quote_chars (s rest : string) :
  lex_chars (quote_chars s ++ dquote ++ rest) = Lexed (s, rest).
Proof.
  induction s as [|c s IH].
  - reflexivity.
  - change (quote_chars (String c s)) with (quote_char c ++ quote_chars s).
    rewrite append_assoc, lex_quote_char, IH. reflexivity.
Qed.

Lemma lex_dquote (f : nat) (body : string) :
  lex (S f) (String dquote_char body) =
  match lex_chars body with
  | Lexed (str, rest) => tok (TStr str) (lex f rest)
  | Bad => Bad
  | Wide => Wide
  end.
Proof. reflexivity. Qed.

Lemma lex_str (f : nat) (k rest : string) :
  lex (S f) (quote k ++ rest) = tok (TStr k) (lex f rest).
Proof.
  unfold quote. rewrite !append_assoc.
  change (dquote ++ quote_chars k ++ dquote ++ rest)
    with (String dquote_char (quote_chars k ++ dquote ++ rest)).
  now rewrite lex_dquote, lex_quote_chars.
Qed.

Lemma lex_lbracket (f : nat) (r : string) :
  lex (S f) (String "[" r) = tok LBracket (lex f r).
Proof. reflexivity. Qed.

Lemma lex_rbracket (f : nat) (r : string) :
  lex (S f) (String "]" r) = tok RBracket (lex f r).
Proof. reflexivity. Qed.

Lemma lex_comma (f : nat) (r : string) :
  lex (S f) (String "," r) = tok Comma (lex f r).
Proof. reflexivity. Qed.

Lemma prepend_nil (r : lexed (list token)) : prepend [] r = r.
Proof. now destruct r. Qed.

Lemma prepend_cons (t : token) (ts : list token) (r : lexed (list token)) :
  prepend (t :: ts) r = tok t (prepend ts r).
Proof. now destruct r. Qed.

Lemma prepend_app (ts us : list token) (r : lexed (list token)) :
  prepend (ts ++ us)%list r = prepend ts (prepend us r).
Proof. destruct r; simpl; auto. now rewrite app_assoc. Qed.

Lemma lex_pair (f : nat) (kv : string * string) (rest : string) :
  lex (5 + f) (stringify_pair kv ++ rest)
  = prepend (pair_tokens kv) (lex f rest).
Proof.
  unfold stringify_pair. rewrite !append_assoc. cbn [append plus].
  rewrite lex_lbracket, lex_str, lex_comma, lex_str, lex_rbracket.
  unfold pair_tokens. now rewrite !prepend_cons, prepend_nil.
Qed.

Lemma lex_items (l : list (string * string)) (f : nat) (rest : string) :
  lex (List.length (items_tokens l) + f) (stringify_items l ++ rest)
  = prepend (items_tokens l) (lex f rest).
Proof.
  induction l as [|kv l IH].
  - simpl. now rewrite prepend_nil.
  - destruct l as [|kv' r].
    + apply lex_pair.
    + change (stringify_items (kv :: kv' :: r))
        with (stringify_pair kv ++ "," ++ stringify_items (kv' :: r)).
      change (items_tokens (kv :: kv' :: r))
        with (pair_tokens kv ++ Comma :: items_tokens (kv' :: r))%list.
      rewrite !append_assoc. cbn [append].
      rewrite length_app. cbn [List.length pair_tokens].
      replace (5 + S (List.length (items_tokens (kv' :: r))) + f)
        with (5 + S (List.length (items_tokens (kv' :: r)) + f)) by lia.
      rewrite lex_pair, lex_comma, IH.
      now rewrite prepend_app, prepend_cons.
Qed.

Lemma pair_length (kv : string * string) :
  5 <= String.length (stringify_pair kv).
Proof.
  unfold stringify_pair, quote. rewrite !length_append. simpl. lia.
Qed.

Lemma items_length (l : list (string * string)) :
  List.length (items_tokens l) <= String.length (stringify_items l).
Proof.
  induction l as [|kv l IH]; [simpl; lia|].
  destruct l as [|kv' r].
  - apply pair_length.
  - change (stringify_items (kv :: kv' :: r))
      with (stringify_pair kv ++ "," ++ stringify_items (kv' :: r)).
    change (items_tokens (kv :: kv' :: r))
      with (pair_tokens kv ++ Comma :: items_tokens (kv' :: r))%list.
    rewrite length_app, !length_append. pose proof (pair_length kv).
    simpl in *. lia.
Qed.

(** The tokens of a snapshot text. *)
Lemma lex_snapshot (l : list (string * string)) :
  lex (S (String.length (stringify l))) (stringify l)
  = Lexed (LBracket :: items_tokens l ++ [RBracket])%list.
Proof.
  unfold stringify.
  pose proof (items_length l) as Hlen.
  change ("[" ++ stringify_items l ++ "]")
    with (String "[" (stringify_items l ++ "]")).
  cbn [String.length]. rewrite length_append. cbn [String.length].
  rewrite lex_lbracket.
  replace (S (String.length (stringify_items l) + 1))
    with (List.length (items_tokens l)
          + S (S (String.length (stringify_items l)
                  - List.length (items_tokens l)))) by lia.
  rewrite lex_items. reflexivity.
Qed.

Lemma parse_pair (f : nat) (kv : string * string) (rest : list token) :
  parse_value (4 + f) (pair_tokens kv ++ rest)%list
  = Some (pair_value kv, rest).
Proof. reflexivity. Qed.

Lemma parse_elements_step (f : nat) (ts : list token) :
  parse_elements (S f) ts =
  match parse_value f ts with
  | Some (v, Comma :: r) =>
      match parse_elements f r with
      | Some (vs, r') => Some (v :: vs, r')
      | None => None
      end
  | Some (v, RBracket :: r) => Some ([v], r)
  | _ => None
  end.
Proof. reflexivity. Qed.

Lemma parse_items (l : list (string * string)) (f : nat) (rest : list token) :
  l <> [] ->
  parse_elements (List.length l + 4 + f)
                 (items_tokens l ++ RBracket :: rest)%list
  = Some (map pair_value l, rest).
Proof.
  induction l as [|kv l IH]; [congruence|]. intros _.
  destruct l as [|kv' r].
  - change (List.length [kv] + 4 + f) with (S (4 + f)).
    rewrite parse_elements_step.
    change (items_tokens [kv]) with (pair_tokens kv).
    now rewrite parse_pair.
  - change (items_tokens (kv :: kv' :: r))
      with (pair_tokens kv ++ Comma :: items_tokens (kv' :: r))%list.
    rewrite <- app_assoc.
    change (List.length (kv :: kv' :: r) + 4 + f)
      with (S (List.length (kv' :: r) + 4 + f)).
    rewrite parse_elements_step.
    replace (List.length (kv' :: r) + 4 + f)
      with (4 + (List.length (kv' :: r) + f)) at 1 by lia.
    rewrite parse_pair. cbn [app].
    rewrite IH by discriminate. reflexivity.
Qed.

Lemma items_tokens_head (kv : string * string) (l : list (string * string)) :
  exists ts, items_tokens (kv :: l) = LBracket :: ts.
Proof.
  destruct l as [|kv' r].
  - now exists [TStr (fst kv); Comma; TStr (snd kv); RBracket].
  - now exists ([TStr (fst kv); Comma; TStr (snd kv); RBracket]
                ++ Comma :: items_tokens (kv' :: r))%list.
Qed.

Lemma items_tokens_length (l : list (string * string)) :
  List.length l <= List.length (items_tokens l).
Proof.
  induction l as [|kv l IH]; [simpl; lia|].
  destruct l as [|kv' r]; [simpl; lia|].
  change (items_tokens (kv :: kv' :: r))
    with (pair_tokens kv ++ Comma :: items_tokens (kv' :: r))%list.
  rewrite length_app. simpl in *. lia.
Qed.

Lemma parse_snapshot (l : list (string * string)) :
  parse_value
    (2 * List.length (LBracket :: items_tokens l ++ [RBracket])%list + 2)
    (LBracket :: items_tokens l ++ [RBracket])%list
  = Some (Array (map pair_value l), []).
Proof.
  destruct l as [|kv l]; [reflexivity|].
  pose proof (items_tokens_length (kv :: l)) as Hlen.
  destruct (items_tokens_head kv l) as [ts Hts].
  set (n := List.length (kv :: l)) in *.
  assert (Hfuel : exists f,
             2 * List.length (LBracket :: items_tokens (kv :: l)
                                ++ [RBracket])%list + 2
             = S (n + 4 + f)).
  { exists (2 * List.length (LBracket :: items_tokens (kv :: l)
                               ++ [RBracket])%list + 2 - S (n + 4)).
    cbn [List.length]. rewrite length_app. cbn [List.length]. lia. }
  destruct Hfuel as [f ->].
  assert (Hstep : parse_value (S (n + 4 + f))
                    (LBracket :: items_tokens (kv :: l) ++ [RBracket])%list
                  = match parse_elements (n + 4 + f)
                            (items_tokens (kv :: l) ++ [RBracket])%list with
                    | Some (items, r') => Some (Array items, r')
                    | None => None
                    end).
  { rewrite Hts. reflexivity. }
  rewrite Hstep. unfold n. rewrite parse_items by discriminate. reflexivity.
Qed.

(** [JSON.parse] inverts [JSON.stringify] on arrays of pairs of strings. *)
Lemma parse_stringify (l : list (string * string)) :
  parse (stringify l) = Returned (Array (map pair_value l)).
Proof.
  unfold parse. rewrite lex_snapshot, parse_snapshot. reflexivity.
Qed.

Lemma snapshot_no_primitive (l : list (string * string)) :
  existsb is_primitive (map pair_value l) = false.
Proof. induction l as [|kv l IH]; simpl; auto. Qed.

Lemma snapshot_entries (l : list (string * string)) :
  entries_of (map pair_value l) = Some l.
Proof.
  induction l as [|[k v] l IH]; simpl; auto. now rewrite IH.
Qed.

Lemma to_map_snapshot (l : list (string * string)) :
  to_map (Array (map pair_value l)) = Returned (JsMap.of_entries l).
Proof.
  unfold to_map. now rewrite snapshot_no_primitive, snapshot_entries.
Qed.

Lemma stringify_not_empty (l : list (string * string)) :
  exists a r, stringify l = String a r.
Proof. unfold stringify. simpl. eauto. Qed.

End JsonFacts.

(** ** Persistence of the cache *)

Section PersistenceClaims.
Import CacheManager.

Lemma set_preserves_nodup (key value : string) (c : CacheManager.t) :
  NoDup (JsMap.keys (cache c)) ->
  NoDup (JsMap.keys (cache (set key value c))).
Proof.
  intro H. unfold set. cbn [cache]. apply nodup_set.
  destruct ((Z.of_nat (JsMap.size (cache c)) >=? maxSize c)%Z
            && negb (JsMap.has (hash key) (cache c))); auto.
  destruct (JsMap.first_key (cache c)); auto. now apply nodup_delete.
Qed.

Lemma set_all_nodup (calls : list (string * string)) (c : CacheManager.t) :
  NoDup (JsMap.keys (cache c)) ->
  NoDup (JsMap.keys (cache (set_all calls c))).
Proof.
  revert c. induction calls as [|[k v] r IH]; intros c H; simpl; auto.
  apply IH. now apply set_preserves_nodup.
Qed.

Lemma get_depends_on_cache (key : string) (c c' : CacheManager.t) :
  cache c' = cache c -> fst (get key c') = fst (get key c).
Proof.
  intro H. unfold get. rewrite H.
  destruct (JsMap.has (hash key) (cache c)); [|reflexivity].
  now destruct (JsMap.get (hash key) (cache c)).
Qed.

Lemma getItem_after_setItem (name text : string) (st st1 : LocalStorage.t) :
  LocalStorage.setItem name text st = Returned st1 ->
  LocalStorage.getItem name st1 = Returned (Some text).
Proof.
  unfold LocalStorage.setItem, LocalStorage.getItem.
  destruct (LocalStorage.accessible st) eqn:Ha; [|discriminate].
  destruct (LocalStorage.usage
              (JsMap.set name text (LocalStorage.items st))
            <=? LocalStorage.quota st)%nat; [|discriminate].
  intro H. injection H as <-. cbn. now rewrite get_set_same.
Qed.

(** Restoring the text that [persist] writes for a map without repeated
    keys installs that map. *)
Lemma restore_snapshot (m : JsMap.t) (c : CacheManager.t)
      (st : LocalStorage.t) :
  NoDup (JsMap.keys m) ->
  LocalStorage.getItem slot st
  = Returned (Some (Json.stringify (JsMap.entries m))) ->
  restore c st = Returned (mk m (maxSize c) (hits c) (misses c), st).
Proof.
  intros Hnd Hget. unfold restore. rewrite Hget. cbn [bind].
  destruct (stringify_not_empty (JsMap.entries m)) as [a [r Hs]].
  rewrite Hs. rewrite <- Hs.
  rewrite parse_stringify. cbn [bind]. rewrite to_map_snapshot. cbn.
  now rewrite of_entries_entries.
Qed.

(** C7 -- round trip through [persist] and [restore].  For every sequence
    of [set] calls, when [persist] stores the snapshot, [restore] into a
    fresh cache yields a cache with the same ordered list of entries,
    hence the same size and the same [get] result for every key. *)
Theorem persist_restore_roundtrip
        (limit limit' : Z) (calls : list (string * string))
        (st st1 : LocalStorage.t) :
  LocalStorage.setItem
    slot (Json.stringify (JsMap.entries (cache (set_all calls (new limit)))))
    st = Returned st1 ->
  persist (set_all calls (new limit)) st
  = Returned (set_all calls (new limit), st1)
  /\ exists c',
      restore (new limit') st1 = Returned (c', st1)
      /\ JsMap.entries (cache c')
         = JsMap.entries (cache (set_all calls (new limit)))
      /\ size c' = size (set_all calls (new limit))
      /\ forall key,
          fst (get key c') = fst (get key (set_all calls (new limit))).
Proof.
  intro Hset. set (c := set_all calls (new limit)) in *.
  split.
  - unfold persist. rewrite Hset. reflexivity.
  - assert (Hnd : NoDup (JsMap.keys (cache c))).
    { apply set_all_nodup. constructor. }
    pose proof (getItem_after_setItem _ _ _ _ Hset) as Hget.
    exists (mk (cache c) limit' 0 0). split.
    + now apply (restore_snapshot (cache c) (new limit') st1).
    + split; [reflexivity|]. split; [reflexivity|].
      intro key. now apply get_depends_on_cache.
Qed.

Lemma persist_restore_witness :
  LocalStorage.setItem
    slot
    (Json.stringify
       (JsMap.entries
          (cache (set_all [("Hello World", "Why?"); ("b", "How?")] (new 2)))))
    (LocalStorage.mk true 1000 [])
  = Returned
      (LocalStorage.mk true 1000
         [(slot, "[[" ++ Json.dquote ++ "hello world" ++ Json.dquote ++ ","
                 ++ Json.dquote ++ "Why?" ++ Json.dquote ++ "],["
                 ++ Json.dquote ++ "b" ++ Json.dquote ++ ","
                 ++ Json.dquote ++ "How?" ++ Json.dquote ++ "]]")])
  /\ exists c',
      restore (new 50)
        (LocalStorage.mk true 1000
           [(slot, "[[" ++ Json.dquote ++ "hello world" ++ Json.dquote ++ ","
                   ++ Json.dquote ++ "Why?" ++ Json.dquote ++ "],["
                   ++ Json.dquote ++ "b" ++ Json.dquote ++ ","
                   ++ Json.dquote ++ "How?" ++ Json.dquote ++ "]]")])
      = Returned
          (c',
           LocalStorage.mk true 1000
             [(slot, "[[" ++ Json.dquote ++ "hello world" ++ Json.dquote ++ ","
                     ++ Json.dquote ++ "Why?" ++ Json.dquote ++ "],["
                     ++ Json.dquote ++ "b" ++ Json.dquote ++ ","
                     ++ Json.dquote ++ "How?" ++ Json.dquote ++ "]]")])
      /\ size c' = 2.
Proof.
  assert (H : LocalStorage.setItem
                slot
                (Json.stringify
                   (JsMap.entries
                      (cache (set_all [("Hello World", "Why?"); ("b", "How?")]
                                      (new 2)))))
                (LocalStorage.mk true 1000 [])
              = Returned
                  (LocalStorage.mk true 1000
                     [(slot,
                       "[[" ++ Json.dquote ++ "hello world" ++ Json.dquote
                       ++ "," ++ Json.dquote ++ "Why?" ++ Json.dquote ++ "],["
                       ++ Json.dquote ++ "b" ++ Json.dquote ++ ","
                       ++ Json.dquote ++ "How?" ++ Json.dquote ++ "]]")]))
    by reflexivity.
  split; [exact H|].
  destruct (proj2 (persist_restore_roundtrip
                     2 50 [("Hello World", "Why?"); ("b", "How?")] _ _ H))
    as [c' [Hr [_ [Hs _]]]].
  exists c'. split; [exact Hr | exact Hs].
Defined.

(** C8, as stated, fails for a cache that holds entries: a [restore] that
    fails, the store being inaccessible or its text malformed, leaves the
    entries where they are; the cache is not emptied. *)
Lemma failed_restore_keeps_entries :
  (LocalStorage.getItem slot (LocalStorage.mk false 0 [])
   = Thrown SecurityError
   /\ restore (set "a" "x" (new 2)) (LocalStorage.mk false 0 [])
      = Returned (set "a" "x" (new 2), LocalStorage.mk false 0 []))
  /\ (Json.parse "{{{" = Thrown SyntaxError
      /\ restore (set "a" "x" (new 2))
                 (LocalStorage.mk true 100 [(slot, "{{{")])
         = Returned (set "a" "x" (new 2),
                     LocalStorage.mk true 100 [(slot, "{{{")]))
  /\ size (set "a" "x" (new 2)) = 1.
Proof. repeat split. Qed.

(** C8 (amended) -- persistence failures are swallowed.  For every cache
    and store: [restore] never throws, and when it fails (reading the
    store throws, or the text is malformed, or no map can be built from
    the parsed value) the cache is left as it was, so that a cache that
    was empty stays empty; [persist] never throws and never changes the
    cache, and when writing the store throws the store is unchanged. *)
Theorem persistence_failures_swallowed
        (c : CacheManager.t) (st : LocalStorage.t) :
  (forall e, restore c st <> Thrown e)
  /\ (forall e, LocalStorage.getItem slot st = Thrown e ->
        restore c st = Returned (c, st))
  /\ (forall blob e,
        LocalStorage.getItem slot st = Returned (Some blob) ->
        Json.parse blob = Thrown e ->
        restore c st = Returned (c, st))
  /\ (forall blob v e,
        LocalStorage.getItem slot st = Returned (Some blob) ->
        Json.parse blob = Returned v ->
        Json.to_map v = Thrown e ->
        restore c st = Returned (c, st))
  /\ (exists st', persist c st = Returned (c, st'))
  /\ (forall e,
        LocalStorage.setItem
          slot (Json.stringify (JsMap.entries (cache c))) st = Thrown e ->
        persist c st = Returned (c, st)).
Proof.
  split; [|split; [|split; [|split; [|split]]]].
  - intro e. unfold restore.
    destruct (LocalStorage.getItem slot st) as [[[|a r]|]|e'|];
      cbn; try discriminate.
    destruct (Json.parse (String a r)) as [v|e'|]; cbn; try discriminate.
    destruct (Json.to_map v) as [m|e'|]; cbn; discriminate.
  - intros e Hg. unfold restore. now rewrite Hg.
  - intros blob e Hg Hp. unfold restore. rewrite Hg. cbn.
    destruct blob as [|a r]; [reflexivity|]. now rewrite Hp.
  - intros blob v e Hg Hp Hm. unfold restore. rewrite Hg. cbn.
    destruct blob as [|a r]; [reflexivity|]. rewrite Hp. cbn.
    now rewrite Hm.
  - unfold persist.
    destruct (LocalStorage.setItem
                slot (Json.stringify (JsMap.entries (cache c))) st)
      as [st'|e|] eqn:Hs; cbn; eauto.
    unfold LocalStorage.setItem in Hs.
    destruct (LocalStorage.accessible st); [|discriminate].
    destruct (LocalStorage.usage _ <=? LocalStorage.quota st)%nat;
      discriminate.
  - intros e Hs. unfold persist. now rewrite Hs.
Qed.

Lemma persistence_failures_witness :
  Json.parse "{{{" = Thrown SyntaxError
  /\ restore (new 50) (LocalStorage.mk true 100 [(slot, "{{{")])
     = Returned (new 50, LocalStorage.mk true 100 [(slot, "{{{")])
  /\ persist (set "a" "x" (new 2)) (LocalStorage.mk true 3 [])
     = Returned (set "a" "x" (new 2), LocalStorage.mk true 3 []).
Proof.
  split; [reflexivity|]. split.
  - apply (proj1 (proj2 (proj2 (persistence_failures_swallowed
                                  (new 50)
                                  (LocalStorage.mk true 100 [(slot, "{{{")]))))
             "{{{" SyntaxError); reflexivity.
  - apply (proj2 (proj2 (proj2 (proj2 (proj2
             (persistence_failures_swallowed
                (set "a" "x" (new 2)) (LocalStorage.mk true 3 []))))))
             QuotaExceededError).
    reflexivity.
Defined.

End PersistenceClaims.

(* ================================================================== *)
(** * Part III: further properties of the code *)
(* ================================================================== *)

(** ** Normalization of cache keys *)

Section HashFacts.
Import JsString CacheManager Session.

Lemma toLowerCase_append (a b : string) :
  toLowerCase (a ++ b) = toLowerCase a ++ toLowerCase b.
Proof. induction a as [|c a IH]; simpl; [reflexivity | now rewrite IH]. Qed.

Lemma is_space_lower (c : ascii) : is_space (lower c) = is_space c.
Proof. destruct c as [[] [] [] [] [] [] [] []]; reflexivity. Qed.

Lemma all_space_lower (s : string) :
  all_space (toLowerCase s) = all_space s.
Proof.
  induction s as [|c s IH]; simpl; [reflexivity|].
  now rewrite is_space_lower, IH.
Qed.

Lemma trimStart_all_space (s : string) :
  all_space s = true -> trimStart s = EmptyString.
Proof.
  induction s as [|c s IH]; simpl; [reflexivity|].
  intro H. apply andb_true_iff in H. destruct H as [Hc Hs].
  rewrite Hc. now apply IH.
Qed.

Lemma trimEnd_all_space (s : string) :
  all_space s = true -> trimEnd s = EmptyString.
Proof.
  induction s as [|c s IH]; simpl; [reflexivity|].
  intro H. apply andb_true_iff in H. destruct H as [Hc Hs].
  rewrite IH by exact Hs. now rewrite Hc.
Qed.

Lemma trimStart_skip (pre s : string) :
  all_space pre = true -> trimStart (pre ++ s) = trimStart s.
Proof.
  induction pre as [|c pre IH]; simpl; [reflexivity|].
  intro H. apply andb_true_iff in H. destruct H as [Hc Hs].
  rewrite Hc. now apply IH.
Qed.

Lemma trimEnd_skip (s post : string) :
  all_space post = true -> trimEnd (s ++ post) = trimEnd s.
Proof.
  intro H. induction s as [|c s IH]; simpl.
  - now apply trimEnd_all_space.
  - now rewrite IH.
Qed.

Lemma trim_skip (pre s post : string) :
  all_space pre = true -> all_space post = true ->
  trim (pre ++ s ++ post) = trim s.
Proof.
  intros Hpre Hpost. unfold trim. rewrite trimStart_skip by exact Hpre.
  induction s as [|c s IH]; simpl.
  - now rewrite trimStart_all_space.
  - destruct (is_space c); [exact IH|].
    change (String c (s ++ post)) with (String c s ++ post).
    now rewrite trimEnd_skip.
Qed.

Lemma take_length (n : nat) (s : string) : String.length (take n s) <= n.
Proof.
  revert s. induction n as [|n IH]; intros [|c s]; simpl; try lia.
  specialize (IH s). lia.
Qed.

(** X1 -- normalization.  Two raw keys that agree up to the case of
    their letters and up to white space around them have the same
    normalized key, and a normalized key has at most 100 characters. *)
Theorem hash_normalizes (s s' pre post : string) :
  toLowerCase s' = toLowerCase s ->
  all_space pre = true ->
  all_space post = true ->
  hash (pre ++ s' ++ post) = hash s
  /\ String.length (hash s) <= 100.
Proof.
  intros Hcase Hpre Hpost. split; [|apply take_length].
  unfold hash. rewrite !toLowerCase_append, Hcase.
  rewrite trim_skip; [reflexivity | |]; now rewrite all_space_lower.
Qed.

Lemma hash_normalizes_witness :
  (toLowerCase "HELLO World" = toLowerCase "Hello World"
   /\ all_space "  " = true /\ all_space " " = true)
  /\ hash ("  " ++ "HELLO World" ++ " ") = hash "Hello World".
Proof.
  assert (H1 : toLowerCase "HELLO World" = toLowerCase "Hello World")
    by reflexivity.
  assert (H2 : all_space "  " = true) by reflexivity.
  assert (H3 : all_space " " = true) by reflexivity.
  split; [auto|].
  exact (proj1 (hash_normalizes "Hello World" "HELLO World" "  " " "
                                H1 H2 H3)).
Defined.

End HashFacts.

(** ** Lookups and insertions of the cache *)

Section CacheExtras.
Import CacheManager.

Lemma map_get_set_other (k k0 v : string) (m : JsMap.t) :
  k0 <> k -> JsMap.get k0 (JsMap.set k v m) = JsMap.get k0 m.
Proof.
  intro H. induction m as [|[k' v'] r IH]; simpl.
  - now rewrite string_eqb_false by congruence.
  - destruct (String.eqb k' k) eqn:E; simpl.
    + apply String.eqb_eq in E. subst k'.
      now rewrite string_eqb_false by congruence.
    + now rewrite IH.
Qed.

Lemma map_get_delete_other (k k0 : string) (m : JsMap.t) :
  k0 <> k -> JsMap.get k0 (JsMap.delete k m) = JsMap.get k0 m.
Proof.
  intro H. induction m as [|[k' v'] r IH]; simpl; [reflexivity|].
  destruct (String.eqb k' k) eqn:E; simpl.
  - apply String.eqb_eq in E. subst k'.
    now rewrite string_eqb_false by congruence.
  - now rewrite IH.
Qed.

Lemma map_get_in (k v : string) (m : JsMap.t) :
  JsMap.get k m = Some v -> In k (JsMap.keys m).
Proof.
  intro H. apply has_true_iff. unfold JsMap.has. now rewrite H.
Qed.

Lemma map_delete_absent (k : string) (m : JsMap.t) :
  NoDup (JsMap.keys m) -> ~ In k (JsMap.keys (JsMap.delete k m)).
Proof.
  induction m as [|[k' v'] r IH]; simpl; intro H; auto.
  inversion H as [|? ? Hn Hr]; subst.
  destruct (String.eqb k' k) eqn:E; simpl.
  - apply String.eqb_eq in E. now subst.
  - apply String.eqb_neq in E. intros [Hk|Hk]; [congruence | now apply IH].
Qed.

Lemma map_size_delete (k : string) (m : JsMap.t) :
  In k (JsMap.keys m) -> S (JsMap.size (JsMap.delete k m)) = JsMap.size m.
Proof.
  unfold JsMap.size. induction m as [|[k' v'] r IH]; simpl; [tauto|].
  destruct (String.eqb k' k) eqn:E; simpl; [reflexivity|].
  apply String.eqb_neq in E. intros [H|H]; [congruence|]. now rewrite IH.
Qed.

Lemma set_then_get (key key' value : string) (c : CacheManager.t) :
  hash key' = hash key ->
  fst (get key' (set key value c)) = Some value
  /\ has key' (set key value c) = true.
Proof.
  intro H.
  assert (Hc : exists m,
             cache (set key value c) = JsMap.set (hash key) value m)
    by (unfold set; cbn [cache]; eauto).
  destruct Hc as [m Hc].
  unfold get, has, JsMap.has. rewrite H, Hc, !get_set_same.
  split; reflexivity.
Qed.

(** X2 -- insert, then look up.  After [set(key, value)], on any cache
    and whatever its capacity, [has] finds and [get] returns [value] for
    every raw key with the same normalized form. *)
Theorem get_after_set (key key' value : string) (c : CacheManager.t) :
  hash key' = hash key ->
  fst (get key' (set key value c)) = Some value
  /\ has key' (set key value c) = true.
Proof. apply set_then_get. Qed.

Lemma get_after_set_witness :
  hash "  hello world  " = hash "Hello World"
  /\ fst (get "  hello world  " (set "Hello World" "Why?" (new 0)))
     = Some "Why?".
Proof.
  assert (H : hash "  hello world  " = hash "Hello World") by reflexivity.
  split; [exact H|].
  exact (proj1 (get_after_set "Hello World" "  hello world  " "Why?"
                              (new 0) H)).
Defined.

(** X3 -- a lookup keeps the contents.  On a cache without repeated
    keys, [get] changes neither the value stored under any key nor the
    number of entries nor the capacity, keeps the keys distinct, and adds
    one to exactly one of the two counters: to [misses] when it returns
    [null], to [hits] otherwise. *)
Theorem get_keeps_contents (key : string) (c : CacheManager.t) :
  NoDup (JsMap.keys (cache c)) ->
  (forall h, JsMap.get h (cache (snd (get key c))) = JsMap.get h (cache c))
  /\ size (snd (get key c)) = size c
  /\ maxSize (snd (get key c)) = maxSize c
  /\ NoDup (JsMap.keys (cache (snd (get key c))))
  /\ (fst (get key c) = None ->
      hits (snd (get key c)) = hits c
      /\ misses (snd (get key c)) = S (misses c))
  /\ (fst (get key c) <> None ->
      hits (snd (get key c)) = S (hits c)
      /\ misses (snd (get key c)) = misses c).
Proof.
  intro Hnd. unfold get, size.
  destruct (JsMap.has (hash key) (cache c)) eqn:Hhas.
  - unfold JsMap.has in Hhas.
    destruct (JsMap.get (hash key) (cache c)) as [entry|] eqn:Hget;
      [|discriminate].
    cbn [fst snd cache maxSize hits misses].
    pose proof (map_get_in _ _ _ Hget) as Hin.
    pose proof (map_delete_absent (hash key) (cache c) Hnd) as Hout.
    split; [|split; [|split; [|split; [|split]]]]; auto.
    + intro h. destruct (string_dec h (hash key)) as [->|Hne].
      * now rewrite get_set_same.
      * rewrite map_get_set_other by exact Hne.
        now apply map_get_delete_other.
    + rewrite set_absent by exact Hout.
      pose proof (map_size_delete (hash key) (cache c) Hin) as Hs.
      unfold JsMap.size in *. rewrite length_app. cbn [List.length]. lia.
    + apply nodup_set. now apply nodup_delete.
    + discriminate.
  - cbn [fst snd cache maxSize hits misses].
    split; [|split; [|split; [|split; [|split]]]]; auto.
    intro H. now contradiction H.
Qed.

Lemma get_keeps_contents_witness :
  NoDup (JsMap.keys (cache (set "b" "2" (set "a" "1" (new 2)))))
  /\ size (snd (get "a" (set "b" "2" (set "a" "1" (new 2))))) = 2.
Proof.
  assert (H : NoDup (JsMap.keys (cache (set "b" "2" (set "a" "1" (new 2))))))
    by (repeat constructor; simpl; intuition discriminate).
  split; [exact H|].
  exact (proj1 (proj2 (get_keeps_contents
                         "a" (set "b" "2" (set "a" "1" (new 2))) H))).
Defined.

Lemma set_size (key value : string) (c : CacheManager.t) :
  size (set key value c) =
  if has key c then size c
  else if (maxSize c <=? Z.of_nat (size c))%Z && (0 <? size c)%nat
       then size c
       else S (size c).
Proof.
  destruct (has key c) eqn:Hhas.
  - unfold size. rewrite set_present by exact Hhas.
    apply size_set_present. now apply has_true_iff.
  - destruct (cache c) as [|[k0 v0] rest] eqn:Hc.
    + assert (Hz : size c = 0) by (unfold size; now rewrite Hc).
      rewrite Hz. cbn [Nat.ltb Nat.leb]. rewrite andb_false_r.
      unfold size, set. cbn [cache]. rewrite Hc. cbn.
      now destruct (_ >=? _)%Z.
    + assert (Hs : size c = S (List.length rest))
        by (unfold size; now rewrite Hc).
      destruct (Z.leb_spec (maxSize c) (Z.of_nat (size c))) as [Hge|Hlt].
      * replace (0 <? size c)%nat with true
          by (symmetry; apply Nat.ltb_lt; lia).
        cbn [andb]. unfold size at 1.
        rewrite (set_full key value k0 v0 rest c) by assumption.
        unfold JsMap.size. rewrite length_app. cbn. lia.
      * cbn [andb]. unfold size at 1. rewrite set_room by assumption.
        rewrite Hc. unfold JsMap.size. rewrite length_app. cbn.
        rewrite Hs. lia.
Qed.

(** X4 -- the size after [set].  [set] leaves the number of entries as
    it is when the key is present, and also when the key is new and the
    cache is not empty and at or over its capacity (one entry goes, one
    comes); otherwise it adds one entry. *)
Theorem size_after_set (key value : string) (c : CacheManager.t) :
  size (set key value c) =
  if has key c then size c
  else if (maxSize c <=? Z.of_nat (size c))%Z && (0 <? size c)%nat
       then size c
       else S (size c).
Proof. apply set_size. Qed.

(** At or over its capacity, a cache that is not empty keeps its size
    under any sequence of [set] calls. *)
Lemma set_all_size_stays (calls : list (string * string))
      (c : CacheManager.t) :
  (maxSize c <= Z.of_nat (size c))%Z -> 0 < size c ->
  size (set_all calls c) = size c.
Proof.
  revert c. induction calls as [|[k v] r IH]; intros c Hge Hpos; simpl.
  - reflexivity.
  - assert (Hs : size (set k v c) = size c).
    { rewrite set_size.
      replace (maxSize c <=? Z.of_nat (size c))%Z with true
        by (symmetry; apply Z.leb_le; lia).
      replace (0 <? size c)%nat with true
        by (symmetry; apply Nat.ltb_lt; lia).
      now destruct (has k c). }
    unfold set_all in IH. rewrite IH; rewrite ?maxSize_set, Hs; auto.
Qed.

(** X5 -- [set] touches at most two keys.  The value stored under a
    normalized key other than the one being set, and other than the first
    key in iteration order, is the same after [set] as before. *)
Theorem set_keeps_other_entries
        (key value h : string) (c : CacheManager.t) :
  h <> hash key ->
  JsMap.first_key (cache c) <> Some h ->
  JsMap.get h (cache (set key value c)) = JsMap.get h (cache c).
Proof.
  intros Hne Hfirst. unfold set. cbn [cache].
  rewrite map_get_set_other by exact Hne.
  destruct ((Z.of_nat (JsMap.size (cache c)) >=? maxSize c)%Z
            && negb (JsMap.has (hash key) (cache c))); [|reflexivity].
  destruct (JsMap.first_key (cache c)) as [firstKey|]; [|reflexivity].
  apply map_get_delete_other. congruence.
Qed.

Lemma set_keeps_other_entries_witness :
  ("b" <> hash "c"
   /\ JsMap.first_key (cache (set "b" "2" (set "a" "1" (new 2)))) <> Some "b")
  /\ JsMap.get "b" (cache (set "c" "3" (set "b" "2" (set "a" "1" (new 2)))))
     = Some "2".
Proof.
  assert (H1 : "b" <> hash "c") by (vm_compute; discriminate).
  assert (H2 : JsMap.first_key (cache (set "b" "2" (set "a" "1" (new 2))))
               <> Some "b") by (vm_compute; discriminate).
  split; [auto|].
  exact (set_keeps_other_entries "c" "3" "b"
           (set "b" "2" (set "a" "1" (new 2))) H1 H2).
Defined.

End CacheExtras.

(** ** Restoring a snapshot *)

Section PersistenceExtras.
Import CacheManager.

(** X6 -- [restore] installs the snapshot as it is.  When the store
    holds the text that [persist] writes for a map without repeated keys,
    [restore] replaces the map of the object by that map and leaves its
    capacity and its two counters alone; the capacity is not applied: a
    snapshot with at least [maxSize] entries (and at least one) is
    installed whole, and the cache keeps that size under every later
    sequence of [set] calls. *)
Theorem restore_installs_snapshot
        (m : JsMap.t) (c : CacheManager.t) (st : LocalStorage.t) :
  NoDup (JsMap.keys m) ->
  LocalStorage.getItem slot st
  = Returned (Some (Json.stringify (JsMap.entries m))) ->
  exists c',
    restore c st = Returned (c', st)
    /\ cache c' = m
    /\ maxSize c' = maxSize c
    /\ hits c' = hits c
    /\ misses c' = misses c
    /\ (m <> [] -> (maxSize c <= Z.of_nat (List.length m))%Z ->
        forall calls, size (set_all calls c') = List.length m).
Proof.
  intros Hnd Hget. exists (mk m (maxSize c) (hits c) (misses c)).
  split; [now apply restore_snapshot|].
  repeat (split; [reflexivity|]).
  intros Hne Hge calls. rewrite set_all_size_stays; [reflexivity|exact Hge|].
  unfold size, JsMap.size. cbn [cache]. destruct m; [congruence | simpl; lia].
Qed.

Lemma restore_installs_snapshot_witness :
  (NoDup (JsMap.keys [("a", "1"); ("b", "2"); ("c", "3")])
   /\ LocalStorage.getItem
        slot
        (LocalStorage.mk true 1000
           [(slot, Json.stringify [("a", "1"); ("b", "2"); ("c", "3")])])
      = Returned
          (Some (Json.stringify
                   (JsMap.entries [("a", "1"); ("b", "2"); ("c", "3")]))))
  /\ exists c',
      restore (new 2)
        (LocalStorage.mk true 1000
           [(slot, Json.stringify [("a", "1"); ("b", "2"); ("c", "3")])])
      = Returned
          (c',
           LocalStorage.mk true 1000
             [(slot, Json.stringify [("a", "1"); ("b", "2"); ("c", "3")])])
      /\ size (set_all [("d", "4"); ("e", "5")] c') = 3.
Proof.
  assert (H1 : NoDup (JsMap.keys [("a", "1"); ("b", "2"); ("c", "3")]))
    by (repeat constructor; simpl; intuition discriminate).
  assert (H2 : LocalStorage.getItem
                 slot
                 (LocalStorage.mk true 1000
                    [(slot,
                      Json.stringify [("a", "1"); ("b", "2"); ("c", "3")])])
               = Returned
                   (Some (Json.stringify
                            (JsMap.entries
                               [("a", "1"); ("b", "2"); ("c", "3")]))))
    by reflexivity.
  split; [auto|].
  destruct (restore_installs_snapshot
              [("a", "1"); ("b", "2"); ("c", "3")] (new 2) _ H1 H2)
    as [c' [Hr [_ [_ [_ [_ Hsize]]]]]].
  exists c'. split; [exact Hr|].
  apply Hsize; [discriminate | simpl; lia].
Defined.

End PersistenceExtras.

(** ** Cleaning a generated text *)

Section CleanExtras.
Import JsString LLMClient Session.

Lemma substring_refl (s : string) : is_substring s s.
Proof.
  exists EmptyString, EmptyString. simpl.
  induction s as [|c s IH]; simpl; [reflexivity | now rewrite <- IH].
Qed.

Lemma append_empty_r (s : string) : s ++ EmptyString = s.
Proof. induction s as [|c s IH]; simpl; [reflexivity | now rewrite IH]. Qed.

Lemma substring_trans (a b c : string) :
  is_substring a b -> is_substring b c -> is_substring a c.
Proof.
  intros [p1 [q1 H1]] [p2 [q2 H2]]. exists (p2 ++ p1), (q1 ++ q2).
  rewrite H2, H1. now rewrite !append_assoc.
Qed.

Lemma substring_suffix (pre s : string) : is_substring s (pre ++ s).
Proof. exists pre, EmptyString. now rewrite append_empty_r. Qed.

Lemma substring_prefix (s post : string) : is_substring s (s ++ post).
Proof. now exists EmptyString, post. Qed.

Lemma trimStart_suffix (s : string) : exists pre, s = pre ++ trimStart s.
Proof.
  induction s as [|c s [pre IH]]; simpl.
  - now exists EmptyString.
  - destruct (is_space c).
    + exists (String c pre). simpl. now rewrite <- IH.
    + now exists EmptyString.
Qed.

Lemma trimEnd_prefix (s : string) : exists post, s = trimEnd s ++ post.
Proof.
  induction s as [|c s [post IH]]; simpl.
  - now exists EmptyString.
  - destruct (trimEnd s) as [|d r] eqn:E.
    + destruct (is_space c).
      * now exists (String c s).
      * exists post. simpl in *. now rewrite <- IH.
    + exists post. simpl in *. now rewrite <- IH.
Qed.

Lemma take_prefix (n : nat) (s : string) : exists post, s = take n s ++ post.
Proof.
  revert s. induction n as [|n IH]; intros [|c s]; simpl;
    try (now exists EmptyString); try (now exists (String c s)).
  destruct (IH s) as [post H]. exists post. now rewrite <- H.
Qed.

Lemma drop_suffix (n : nat) (s : string) : exists pre, s = pre ++ drop n s.
Proof.
  revert s. induction n as [|n IH]; intros [|c s]; simpl;
    try (now exists EmptyString).
  destruct (IH s) as [pre H]. exists (String c pre). simpl. now rewrite <- H.
Qed.

Lemma remove_last_prefix (s : string) :
  exists post, s = remove_last s ++ post.
Proof.
  induction s as [|c s [post IH]]; simpl.
  - now exists EmptyString.
  - destruct s as [|d r].
    + now exists (String c EmptyString).
    + exists post. simpl in *. now rewrite <- IH.
Qed.

Create HintDb substr.

Lemma sub_trimStart (s : string) : is_substring (trimStart s) s.
Proof.
  destruct (trimStart_suffix s) as [pre H]. rewrite H at 2.
  apply substring_suffix.
Qed.

Lemma sub_trimEnd (s : string) : is_substring (trimEnd s) s.
Proof.
  destruct (trimEnd_prefix s) as [post H]. rewrite H at 2.
  apply substring_prefix.
Qed.

Lemma sub_take (n : nat) (s : string) : is_substring (take n s) s.
Proof.
  destruct (take_prefix n s) as [post H]. rewrite H at 2.
  apply substring_prefix.
Qed.

Lemma sub_drop (n : nat) (s : string) : is_substring (drop n s) s.
Proof.
  destruct (drop_suffix n s) as [pre H]. rewrite H at 2.
  apply substring_suffix.
Qed.

Lemma sub_remove_last (s : string) : is_substring (remove_last s) s.
Proof.
  destruct (remove_last_prefix s) as [post H]. rewrite H at 2.
  apply substring_prefix.
Qed.

Lemma sub_trim (s : string) : is_substring (trim s) s.
Proof.
  unfold trim.
  eapply substring_trans; [apply sub_trimEnd | apply sub_trimStart].
Qed.

Hint Resolve substring_refl sub_trimStart sub_trimEnd sub_take sub_drop
     sub_remove_last sub_trim : substr.

Lemma sub_strip_label (s : string) : is_substring (strip_label s) s.
Proof.
  unfold strip_label.
  destruct (find (fun l => startsWith (toLowerCase s) l) labels);
    eauto using substring_trans with substr.
Qed.

Lemma sub_strip_leading_quote (s : string) :
  is_substring (strip_leading_quote s) s.
Proof.
  destruct s as [|c r]; simpl; auto with substr.
  destruct (is_quote c); auto with substr.
  eapply substring_trans; [apply sub_trimStart|].
  apply (substring_suffix (String c EmptyString) r).
Qed.

Lemma sub_strip_trailing_quote (s : string) :
  is_substring (strip_trailing_quote s) s.
Proof.
  unfold strip_trailing_quote. destruct (last_char s) as [c|]; auto with substr.
  destruct (is_quote c); eauto using substring_trans with substr.
Qed.

Lemma substring_length (a b : string) :
  is_substring a b -> String.length a <= String.length b.
Proof.
  intros [p [q H]]. rewrite H, !length_append. lia.
Qed.

Lemma sub_cleanResponse (s : string) : is_substring (cleanResponse s) s.
Proof.
  unfold cleanResponse.
  set (c1 := trim (strip_trailing_quote (strip_leading_quote (strip_label s)))).
  assert (H1 : is_substring c1 s).
  { unfold c1.
    eapply substring_trans; [apply sub_trim|].
    eapply substring_trans; [apply sub_strip_trailing_quote|].
    eapply substring_trans; [apply sub_strip_leading_quote|].
    apply sub_strip_label. }
  set (c2 := if (0 <? String.length c1)%nat && negb (ends_with_terminal c1)
             then _ else c1).
  assert (H2 : is_substring c2 s).
  { unfold c2.
    destruct ((0 <? String.length c1)%nat && negb (ends_with_terminal c1));
      auto.
    destruct (Z.of_nat (String.length c1) <? 2 * lastIndexOf c1 ".")%Z; auto.
    eapply substring_trans; [apply sub_take | exact H1]. }
  destruct (includes c2 question_mark && negb (endsWithChar c2 "?")); auto.
  eapply substring_trans; [apply sub_take | exact H2].
Qed.

(** X7 -- cleaning only cuts.  The text that [cleanResponse] returns is a
    contiguous part of the text it is given: nothing is added, replaced or
    reordered, and the result is not longer than the input. *)
Theorem cleanResponse_is_part (response : string) :
  is_substring (cleanResponse response) response
  /\ String.length (cleanResponse response) <= String.length response.
Proof.
  split; [apply sub_cleanResponse|].
  apply substring_length, sub_cleanResponse.
Qed.

End CleanExtras.

Section QuestionExtras.
Import JsString JsNumber LLMClient.

Lemma endsWithChar_cons (d c : ascii) (s : string) :
  endsWithChar s c = true -> endsWithChar (String d s) c = true.
Proof.
  unfold endsWithChar. destruct s as [|e r]; simpl; [discriminate | auto].
Qed.

(** Where [lastIndexOf] points: cutting just behind it leaves a text that
    ends with the character. *)
Lemma lastIndexOf_from_spec (c : ascii) (s : string) (i acc : Z) :
  (has_char c s = false -> lastIndexOf_from c s i acc = acc)
  /\ (has_char c s = true ->
      exists j, lastIndexOf_from c s i acc = (i + Z.of_nat j)%Z
                /\ endsWithChar (take (S j) s) c = true).
Proof.
  revert i acc. induction s as [|d r IH]; intros i acc; simpl.
  - split; [reflexivity | discriminate].
  - destruct (IH (i + 1)%Z (if Ascii.eqb d c then i else acc)) as [IHn IHy].
    destruct (has_char c r) eqn:Hr.
    + rewrite orb_true_r. split; [discriminate|]. intros _.
      destruct (IHy eq_refl) as [j [Hj He]].
      exists (S j). split; [rewrite Hj; lia|].
      change (take (S (S j)) (String d r)) with (String d (take (S j) r)).
      now apply endsWithChar_cons.
    + rewrite orb_false_r. rewrite (IHn eq_refl).
      destruct (Ascii.eqb d c) eqn:E.
      * split; [discriminate|]. intros _. exists 0.
        split; [lia|]. unfold endsWithChar.
        destruct r; simpl; exact E.
      * split; [reflexivity | discriminate].
Qed.

Lemma take_lastIndexOf_ends (c : ascii) (s : string) :
  has_char c s = true ->
  endsWithChar (take (Z.to_nat (lastIndexOf s c + 1)) s) c = true.
Proof.
  intro H. unfold lastIndexOf.
  destruct (proj2 (lastIndexOf_from_spec c s 0 (-1)) H) as [j [Hj He]].
  rewrite Hj. replace (Z.to_nat (0 + Z.of_nat j + 1)) with (S j) by lia.
  exact He.
Qed.

(** A cleaned text that contains a question mark ends with one. *)
Lemma clean_ends_with_question (response : string) :
  includes (cleanResponse response) question_mark = true ->
  endsWithChar (cleanResponse response) "?" = true.
Proof.
  unfold cleanResponse.
  set (c2 := if (0 <? String.length _)%nat && negb (ends_with_terminal _)
             then _ else _).
  destruct (includes c2 question_mark) eqn:Hq; simpl.
  - destruct (endsWithChar c2 "?") eqn:He; simpl.
    + intros _. exact He.
    + intros _. apply take_lastIndexOf_ends.
      unfold question_mark in Hq. now rewrite includes_char in Hq.
  - rewrite Hq. discriminate.
Qed.

(** X8 -- a question ends as one.  If the text that [cleanResponse]
    returns contains a question mark, then its last character is a
    question mark. *)
Theorem cleaned_question_ends_with_mark (response : string) :
  includes (cleanResponse response) question_mark = true ->
  endsWithChar (cleanResponse response) "?" = true.
Proof. apply clean_ends_with_question. Qed.

Lemma cleaned_question_witness :
  includes (cleanResponse "Question: Why Rocq? Because.") question_mark = true
  /\ endsWithChar (cleanResponse "Question: Why Rocq? Because.") "?" = true.
Proof.
  assert (H : includes (cleanResponse "Question: Why Rocq? Because.")
                       question_mark = true) by reflexivity.
  split; [exact H|].
  exact (cleaned_question_ends_with_mark "Question: Why Rocq? Because." H).
Defined.

End QuestionExtras.

(** ** What a call of the generator returns *)

Section ResponseExtras.
Import JsString JsNumber LLMClient.

Variable Cap : Type.
Variable pipeline : Cap -> string -> number -> option string * Cap.

Lemma validate_accepts (response userMessage : string) :
  validateResponse response userMessage = true ->
  includes response question_mark = true
  /\ 10 <= String.length response <= 300.
Proof.
  unfold validateResponse.
  match goal with |- (if ?b then _ else _) = _ -> _ => destruct b end;
    [discriminate|].
  destruct (includes response question_mark); simpl; [|discriminate].
  destruct (Nat.ltb_spec (String.length response) 10); simpl; [discriminate|].
  destruct (Nat.ltb_spec 300 (String.length response)); simpl; [discriminate|].
  intros _. split; [reflexivity | lia].
Qed.

(** How the loop ends: with the fallback after [n] attempts none of which
    was accepted, or with the cleaned text of an accepted attempt, which
    is then the last one. *)
Lemma loop_result (c : LLMClient.t) (userMessage : string) (pick : nat)
      (n : nat) (temperature : number) (cap : Cap) :
  let r := fst (fst (retry_loop Cap pipeline c userMessage pick n
                                temperature cap)) in
  let log := snd (retry_loop Cap pipeline c userMessage pick n
                             temperature cap) in
  (Forall (fun a => validationResult a = false) log
   /\ List.length log = n
   /\ r = getFallbackQuestion userMessage pick)
  \/ (exists init a text,
         log = (init ++ [a])%list
         /\ Forall (fun b => validationResult b = false) init
         /\ validationResult a = true
         /\ rawOutput a = Some text
         /\ r = cleanResponse (trim text)
         /\ validateResponse r userMessage = true).
Proof.
  revert temperature cap. induction n as [|n IH]; intros temperature cap.
  - left. simpl. auto.
  - simpl.
    destruct (pipeline cap (buildContextualPrompt c userMessage) temperature)
      as [[text|] cap'].
    + destruct (validateResponse (cleanResponse (trim text)) userMessage)
        eqn:Hv.
      * right. simpl.
        exists [], (mk_attempt (buildContextualPrompt c userMessage)
                               temperature (Some text) true), text.
        repeat split; auto.
      * specialize (IH (add temperature lit_0_15) cap').
        destruct (retry_loop Cap pipeline c userMessage pick n
                             (add temperature lit_0_15) cap')
          as [[r cap''] log].
        simpl in *. destruct IH as [[Hall [Hlen Hr]]|[init [a [t H]]]].
        -- left. repeat split; auto.
        -- right. destruct H as [Hlog [Hinit H]].
           exists (mk_attempt (buildContextualPrompt c userMessage)
                              temperature (Some text) false :: init), a, t.
           rewrite Hlog. repeat split; try tauto. constructor; auto.
    + specialize (IH temperature cap').
      destruct (retry_loop Cap pipeline c userMessage pick n temperature cap')
        as [[r cap''] log].
      simpl in *. destruct IH as [[Hall [Hlen Hr]]|[init [a [t H]]]].
      * left. repeat split; auto.
      * right. destruct H as [Hlog [Hinit H]].
        exists (mk_attempt (buildContextualPrompt c userMessage)
                           temperature None false :: init), a, t.
        rewrite Hlog. repeat split; try tauto. constructor; auto.
Qed.

(** The invocations of a list none of which was answered with an
    accepted text. *)
Lemma none_accepted_sent (userMessage : string) (l : list attempt) :
  (forall a, In a l ->
     validationResult a
     = match rawOutput a with
       | Some text => validateResponse (cleanResponse (trim text)) userMessage
       | None => false
       end) ->
  Forall (fun a => validationResult a = false) l ->
  Forall (fun i => Probe.answer i = None \/ Probe.rejected userMessage i = true)
         (map Probe.sent l).
Proof.
  intros Hv Hall. rewrite Forall_forall in *. intros i Hi.
  apply in_map_iff in Hi. destruct Hi as [a [<- Ha]].
  specialize (Hv a Ha). rewrite (Hall a Ha) in Hv.
  unfold Probe.rejected. simpl.
  destruct (rawOutput a) as [text|]; [right | now left].
  now rewrite <- Hv.
Qed.

(** X9 -- where the response comes from.  [generateWithRetry] returns
    either the fallback question, after exactly [maxRetries] invocations
    of the capability each of which threw or was answered with a text
    that the gate turns down, or the trimmed and cleaned text that the
    capability gave as its last answer, which the gate accepts; every
    invocation before that one threw or was turned down, so the
    capability is not invoked again after an accepted answer.  The
    invocations are those in the journal of the recording capability;
    the response with and without the journal is the same. *)
Theorem response_provenance
        (c : LLMClient.t) (userMessage : string) (pick maxRetries : nat)
        (cap : Cap) :
  let r := fst (fst (generateWithRetry Cap pipeline c userMessage pick
                                       maxRetries cap)) in
  let journal :=
    Probe.invocations_of_retry Cap pipeline c userMessage pick maxRetries
                               cap in
  fst (fst (generateWithRetry (Cap * list Probe.invocation)
                              (Probe.recording Cap pipeline) c userMessage
                              pick maxRetries (cap, []))) = r
  /\ ((Forall (fun i => Probe.answer i = None
                        \/ Probe.rejected userMessage i = true) journal
       /\ List.length journal = maxRetries
       /\ r = getFallbackQuestion userMessage pick)
      \/ (exists init i text,
             journal = (init ++ [i])%list
             /\ Forall (fun i' => Probe.answer i' = None
                                  \/ Probe.rejected userMessage i' = true) init
             /\ Probe.answer i = Some text
             /\ r = cleanResponse (trim text)
             /\ validateResponse r userMessage = true)).
Proof.
  intros r journal.
  split; [apply recorded_retry|].
  assert (Hj : journal
               = map Probe.sent
                     (snd (generateWithRetry Cap pipeline c userMessage pick
                                             maxRetries cap)))
    by apply journal_of_retry.
  assert (Hv : forall a,
             In a (snd (generateWithRetry Cap pipeline c userMessage pick
                                          maxRetries cap)) ->
             validationResult a
             = match rawOutput a with
               | Some text =>
                   validateResponse (cleanResponse (trim text)) userMessage
               | None => false
               end)
    by (intro a; apply loop_verdict).
  rewrite Hj. subst r. unfold generateWithRetry in *.
  destruct (loop_result c userMessage pick maxRetries lit_0_8 cap)
    as [[Hall [Hlen Hr]]|[init [a [text [Hlog [Hinit [_ [Hraw [Hr Hacc]]]]]]]]].
  - left. split; [|split].
    + now apply none_accepted_sent.
    + now rewrite length_map.
    + exact Hr.
  - right. exists (map Probe.sent init), (Probe.sent a), text.
    rewrite Hlog in *. rewrite map_app. simpl.
    split; [reflexivity|]. split; [|auto].
    apply none_accepted_sent; [|exact Hinit].
    intros b Hb. apply Hv. apply in_or_app. now left.
Qed.

Lemma fallback_pool_lengths :
  Forall (fun q => 10 <= String.length q <= 300) fallbackQuestions.
Proof.
  unfold fallbackQuestions, genericQuestions. simpl.
  repeat constructor; simpl; lia.
Qed.

Lemma loaded_response (c : LLMClient.t) (userMessage : string) (pick : nat)
      (cap : Cap) :
  isModelLoaded c = true ->
  result Cap (generateResponse Cap pipeline userMessage pick c cap)
  = Returned
      (fst (fst (generateWithRetry Cap pipeline
                                   (push (msg user userMessage) c)
                                   userMessage pick 3 cap)))
  /\ client Cap (generateResponse Cap pipeline userMessage pick c cap)
     = push (msg assistant
                 (fst (fst (generateWithRetry Cap pipeline
                                              (push (msg user userMessage) c)
                                              userMessage pick 3 cap))))
            (push (msg user userMessage) c)
  /\ attempts Cap (generateResponse Cap pipeline userMessage pick c cap)
     = snd (generateWithRetry Cap pipeline (push (msg user userMessage) c)
                              userMessage pick 3 cap).
Proof.
  intro H. unfold generateResponse. rewrite H. simpl.
  now destruct (generateWithRetry Cap pipeline (push (msg user userMessage) c)
                                  userMessage pick 3 cap) as [[r cap'] log].
Qed.

Lemma response_shape (c : LLMClient.t) (userMessage : string) (pick : nat)
      (cap : Cap) :
  isModelLoaded c = true ->
  pick < List.length genericQuestions ->
  exists response,
    result Cap (generateResponse Cap pipeline userMessage pick c cap)
    = Returned response
    /\ endsWithChar response "?" = true
    /\ 10 <= String.length response <= 300.
Proof.
  intros Hloaded Hpick.
  destruct (loaded_response c userMessage pick cap Hloaded) as [Hr _].
  rewrite Hr. eexists. split; [reflexivity|].
  unfold generateWithRetry.
  destruct (loop_result (push (msg user userMessage) c) userMessage pick 3
                        lit_0_8 cap)
    as [[_ [_ ->]]|[init [a [text [_ [_ [_ [_ [-> Hv]]]]]]]]].
  - pose proof (fallback_in_pool userMessage pick Hpick) as Hin.
    pose proof fallback_pool_questions as Hq.
    pose proof fallback_pool_lengths as Hl.
    rewrite Forall_forall in Hq, Hl.
    split; [apply (Hq _ Hin) | apply (Hl _ Hin)].
  - destruct (validate_accepts _ _ Hv) as [Hq Hl].
    split; [now apply clean_ends_with_question | exact Hl].
Qed.

(** X10 -- every response is a question of bounded length.  With the
    model loaded, whatever the capability returns or throws,
    [generateResponse] returns a text that ends with a question mark and
    has between 10 and 300 characters.  (The random index of the fallback
    is below 5.) *)
Theorem response_is_bounded_question
        (c : LLMClient.t) (userMessage : string) (pick : nat) (cap : Cap) :
  isModelLoaded c = true ->
  pick < List.length genericQuestions ->
  exists response,
    result Cap (generateResponse Cap pipeline userMessage pick c cap)
    = Returned response
    /\ endsWithChar response "?" = true
    /\ 10 <= String.length response <= 300.
Proof. apply response_shape. Qed.

(** X11 -- retries repeat the prompt.  Every invocation that the
    capability receives in one call of [generateResponse] is given the
    same prompt, the one built from the history with the new user entry
    appended; between invocations only the temperature changes. *)
Theorem attempts_share_prompt
        (c : LLMClient.t) (userMessage : string) (pick : nat) (cap : Cap)
        (i : Probe.invocation) :
  In i (Probe.invocations_of_response Cap pipeline userMessage pick c cap) ->
  Probe.given_prompt i
  = buildContextualPrompt (push (msg user userMessage) c) userMessage.
Proof.
  destruct (recorded_response Cap pipeline userMessage pick c cap) as [-> _].
  intro Hi. apply in_map_iff in Hi. destruct Hi as [a [<- Ha]]. simpl.
  revert Ha.
  unfold generateResponse. destruct (isModelLoaded c); simpl; [|tauto].
  unfold generateWithRetry.
  pose proof (loop_prompts Cap pipeline (push (msg user userMessage) c)
                           userMessage pick 3 lit_0_8 cap a) as H.
  destruct (retry_loop Cap pipeline (push (msg user userMessage) c)
                       userMessage pick 3 lit_0_8 cap) as [[r cap'] log].
  exact H.
Qed.

(** The three temperatures of a call. *)
Lemma loop_three_levels (c : LLMClient.t) (userMessage : string) (pick : nat)
      (cap : Cap) (a : attempt) :
  In a (snd (retry_loop Cap pipeline c userMessage pick 3 lit_0_8 cap)) ->
  In (samplingTemperature a)
     [Design.raised_temperature 0; Design.raised_temperature 1;
      Design.raised_temperature 2].
Proof.
  intro Ha. apply In_nth_error in Ha. destruct Ha as [k Hk].
  pose proof (loop_length Cap pipeline c userMessage pick 3 lit_0_8 cap)
    as Hlen.
  assert (Hlt : k < List.length
                      (snd (retry_loop Cap pipeline c userMessage pick 3
                                       lit_0_8 cap)))
    by (apply nth_error_Some; congruence).
  rewrite (loop_temperature _ _ _ _ _ _ _ _ _ _ Hk).
  set (l := firstn k _).
  assert (Hr : Design.rejections l <= k).
  { unfold Design.rejections.
    eapply Nat.le_trans; [apply filter_length_le|].
    unfold l. apply firstn_le_length. }
  fold (Design.raised_temperature (Design.rejections l)).
  destruct (Design.rejections l) as [|[|[|r]]]; simpl; auto; lia.
Qed.

(** X12 -- three temperature levels.  Every invocation that the
    capability receives in one call of [generateResponse] is given the
    temperature 0.8, or 0.8 raised once by 0.15, or 0.8 raised twice by
    0.15; none is given a higher temperature, and there are at most
    three invocations. *)
Theorem attempts_three_temperatures
        (c : LLMClient.t) (userMessage : string) (pick : nat) (cap : Cap) :
  List.length
    (Probe.invocations_of_response Cap pipeline userMessage pick c cap) <= 3
  /\ forall i,
       In i (Probe.invocations_of_response Cap pipeline userMessage pick c
                                           cap) ->
       In (Probe.given_temperature i)
          [Design.raised_temperature 0; Design.raised_temperature 1;
           Design.raised_temperature 2].
Proof.
  destruct (recorded_response Cap pipeline userMessage pick c cap) as [-> _].
  rewrite length_map.
  unfold generateResponse. destruct (isModelLoaded c); simpl;
    [|split; [lia | tauto]].
  unfold generateWithRetry.
  pose proof (loop_three_levels (push (msg user userMessage) c) userMessage
                                pick cap) as H.
  pose proof (loop_length Cap pipeline (push (msg user userMessage) c)
                          userMessage pick 3 lit_0_8 cap) as Hlen.
  destruct (retry_loop Cap pipeline (push (msg user userMessage) c)
                       userMessage pick 3 lit_0_8 cap) as [[r cap'] log].
  simpl in *. split; [exact Hlen|].
  intros i Hi. apply in_map_iff in Hi. destruct Hi as [a [<- Ha]].
  simpl. now apply H.
Qed.

End ResponseExtras.

Section ResponseWitnesses.
Import JsString JsNumber LLMClient.

Lemma response_is_bounded_question_witness :
  (isModelLoaded Design.ready = true /\ 4 < List.length genericQuestions)
  /\ exists response,
      result nat (generateResponse nat Design.flaky "Hello there" 4
                                   Design.ready 0)
      = Returned response
      /\ endsWithChar response "?" = true
      /\ 10 <= String.length response <= 300.
Proof.
  assert (H1 : isModelLoaded Design.ready = true) by reflexivity.
  assert (H2 : 4 < List.length genericQuestions) by (simpl; lia).
  split; [auto|].
  exact (response_is_bounded_question nat Design.flaky Design.ready
                                      "Hello there" 4 0 H1 H2).
Defined.

Lemma attempts_share_prompt_witness :
  In (Probe.mk_invocation
        (buildContextualPrompt (push (msg user "Hello there") Design.ready)
                               "Hello there")
        lit_0_8 None)
     (Probe.invocations_of_response nat Design.flaky "Hello there" 0
                                    Design.ready 0)
  /\ Probe.given_prompt
       (Probe.mk_invocation
          (buildContextualPrompt (push (msg user "Hello there") Design.ready)
                                 "Hello there")
          lit_0_8 None)
     = buildContextualPrompt (push (msg user "Hello there") Design.ready)
                             "Hello there".
Proof.
  assert (H : In (Probe.mk_invocation
                    (buildContextualPrompt
                       (push (msg user "Hello there") Design.ready)
                       "Hello there")
                    lit_0_8 None)
                 (Probe.invocations_of_response nat Design.flaky
                                                "Hello there" 0
                                                Design.ready 0))
    by (vm_compute; left; reflexivity).
  split; [exact H|].
  exact (attempts_share_prompt nat Design.flaky Design.ready "Hello there"
                               0 0 _ H).
Defined.

End ResponseWitnesses.

(** ** The prompt *)

Section PromptExtras.
Import JsString LLMClient.

Lemma skipn_older {A : Type} (older recent : list A) :
  skipn (List.length (older ++ recent) - List.length recent)
        (older ++ recent)%list = recent.
Proof.
  rewrite length_app.
  replace (List.length older + List.length recent - List.length recent)
    with (List.length older) by lia.
  rewrite skipn_app, skipn_all, Nat.sub_diag. reflexivity.
Qed.



End PromptExtras.

(** ** The overlap test and the fallback *)

Section GateExtras.
Import JsString JsNumber LLMClient Session.

(** X14 -- the overlap test needs long words.  For an utterance of fewer
    than 90 words, a response is rejected for overlap only if more than
    seven tenths of all words of the utterance are longer than 4
    characters; the overlap count never exceeds the number of those
    words. *)
Theorem overlap_needs_long_words (response userMessage : string) :
  List.length (split " " (toLowerCase userMessage)) < 90 ->
  overlap_too_high response userMessage = true ->
  overlap response userMessage <= List.length (long_words userMessage)
  /\ 7 * List.length (split " " (toLowerCase userMessage))
     < 10 * List.length (long_words userMessage).
Proof.
  intros Hn Hhigh.
  pose proof (overlap_le_long_words response userMessage) as Hl.
  split; [exact Hl|].
  unfold overlap_too_high in Hhigh.
  rewrite threshold_below_90 in Hhigh by (auto using overlap_le_words).
  apply Nat.ltb_lt in Hhigh. unfold long_words. lia.
Qed.

Lemma overlap_needs_long_words_witness :
  (List.length (split " " (toLowerCase "implemented distributed databases"))
   < 90
   /\ overlap_too_high "Which distributed databases were implemented there?"
                       "implemented distributed databases" = true)
  /\ 7 * List.length
           (split " " (toLowerCase "implemented distributed databases"))
     < 10 * List.length (long_words "implemented distributed databases").
Proof.
  assert (H1 : List.length
                 (split " " (toLowerCase "implemented distributed databases"))
               < 90) by (vm_compute; lia).
  assert (H2 : overlap_too_high
                 "Which distributed databases were implemented there?"
                 "implemented distributed databases" = true) by reflexivity.
  split; [auto|].
  exact (proj2 (overlap_needs_long_words
                  "Which distributed databases were implemented there?"
                  "implemented distributed databases" H1 H2)).
Defined.

(** X15 -- keyword routing of the fallback.  When the utterance
    contains, in any case of the letters, one of the ten keywords, the
    fallback question does not depend on the random pick. *)
Theorem fallback_keyword_routing (userMessage : string) (pick pick' : nat) :
  existsb (fun keyword => includes (toLowerCase userMessage) keyword)
          fallback_keywords = true ->
  getFallbackQuestion userMessage pick = getFallbackQuestion userMessage pick'.
Proof.
  unfold getFallbackQuestion, fallback_keywords. cbn [existsb].
  set (m := toLowerCase userMessage).
  destruct (includes m "experience"), (includes m "worked");
    cbn [orb]; try reflexivity.
  destruct (includes m "project"), (includes m "built");
    cbn [orb]; try reflexivity.
  destruct (includes m "team"), (includes m "collaborate");
    cbn [orb]; try reflexivity.
  destruct (includes m "skill"), (includes m "learn");
    cbn [orb]; try reflexivity.
  destruct (includes m "problem"), (includes m "solve");
    cbn [orb]; try reflexivity.
  discriminate.
Qed.

Lemma fallback_keyword_routing_witness :
  existsb (fun keyword => includes (toLowerCase "My PROJECT was fun") keyword)
          fallback_keywords = true
  /\ getFallbackQuestion "My PROJECT was fun" 0
     = getFallbackQuestion "My PROJECT was fun" 3.
Proof.
  assert (H : existsb (fun keyword =>
                         includes (toLowerCase "My PROJECT was fun") keyword)
                      fallback_keywords = true) by reflexivity.
  split; [exact H|].
  exact (fallback_keyword_routing "My PROJECT was fun" 0 3 H).
Defined.

End GateExtras.

(** ** The history over a run of calls *)

Section HistoryExtras.
Import JsString JsNumber LLMClient Session.

Variable Cap : Type.
Variable pipeline : Cap -> string -> number -> option string * Cap.

Lemma loaded_call (c : LLMClient.t) (userMessage : string) (pick : nat)
      (cap : Cap) :
  isModelLoaded c = true ->
  exists response,
    result Cap (generateResponse Cap pipeline userMessage pick c cap)
    = Returned response
    /\ conversationHistory
         (client Cap (generateResponse Cap pipeline userMessage pick c cap))
       = (conversationHistory c
            ++ [msg user userMessage; msg assistant response])%list
    /\ isModelLoaded
         (client Cap (generateResponse Cap pipeline userMessage pick c cap))
       = true.
Proof.
  intro H. unfold generateResponse. rewrite H. simpl.
  destruct (generateWithRetry Cap pipeline (push (msg user userMessage) c)
                              userMessage pick 3 cap) as [[r cap'] log].
  exists r. simpl. rewrite <- app_assoc. auto.
Qed.

Lemma converse_history (calls : list (string * nat)) (c : LLMClient.t)
      (cap : Cap) :
  isModelLoaded c = true ->
  List.length (fst (fst (converse Cap pipeline calls c cap)))
  = List.length calls
  /\ getHistory (snd (fst (converse Cap pipeline calls c cap)))
     = (getHistory c
          ++ exchanges
               (combine (List.map fst calls)
                        (fst (fst (converse Cap pipeline calls c cap)))))%list.
Proof.
  revert c cap. induction calls as [|[u pick] rest IH]; intros c cap Hl.
  - simpl. now rewrite app_nil_r.
  - simpl. destruct (loaded_call c u pick cap Hl) as [r [Hr [Hh Hl']]].
    rewrite Hr.
    specialize (IH (client Cap (generateResponse Cap pipeline u pick c cap))
                   (capability Cap (generateResponse Cap pipeline u pick c cap))
                   Hl').
    destruct (converse Cap pipeline rest
                (client Cap (generateResponse Cap pipeline u pick c cap))
                (capability Cap (generateResponse Cap pipeline u pick c cap)))
      as [[rs c'] cap'].
    simpl in *. destruct IH as [IH1 IH2]. split; [now rewrite IH1|].
    rewrite IH2. unfold getHistory. rewrite Hh.
    rewrite <- app_assoc. reflexivity.
Qed.

Lemma exchanges_length (turns : list (string * string)) :
  List.length (exchanges turns) = 2 * List.length turns.
Proof.
  unfold exchanges. induction turns as [|t r IH]; simpl; [reflexivity|].
  simpl in IH. rewrite IH. lia.
Qed.

(** X16 -- the history over a conversation.  With the model loaded,
    every call of a run of [generateResponse] calls returns, and the
    history afterwards is the history before followed, call by call, by
    the user entry with the utterance and the assistant entry with the
    response of that call.  Its length grows by two per call and is never
    cut back. *)
Theorem conversation_history
        (calls : list (string * nat)) (c : LLMClient.t) (cap : Cap) :
  isModelLoaded c = true ->
  List.length (fst (fst (converse Cap pipeline calls c cap)))
  = List.length calls
  /\ getHistory (snd (fst (converse Cap pipeline calls c cap)))
     = (getHistory c
          ++ exchanges
               (combine (List.map fst calls)
                        (fst (fst (converse Cap pipeline calls c cap)))))%list
  /\ List.length (getHistory (snd (fst (converse Cap pipeline calls c cap))))
     = List.length (getHistory c) + 2 * List.length calls.
Proof.
  intro H. destruct (converse_history calls c cap H) as [H1 H2].
  split; [exact H1|]. split; [exact H2|].
  rewrite H2, length_app, exchanges_length, length_combine, length_map, H1.
  lia.
Qed.

End HistoryExtras.

Section HistoryWitness.
Import JsString JsNumber LLMClient Session.

Lemma conversation_history_witness :
  isModelLoaded Design.ready = true
  /\ List.length
       (getHistory
          (snd (fst (converse unit Design.steady
                              [("a", 0); ("b", 1); ("c", 2); ("d", 3);
                               ("e", 4); ("f", 0)]
                              Design.ready tt))))
     = List.length (getHistory Design.ready) + 2 * 6.
Proof.
  split; [reflexivity|].
  apply (proj2 (proj2 (conversation_history
                         unit Design.steady
                         [("a", 0); ("b", 1); ("c", 2); ("d", 3);
                          ("e", 4); ("f", 0)]
                         Design.ready tt eq_refl))).
Defined.

End HistoryWitness.

(** ** The emotion detector *)

Section EmotionExtras.
Import JsString EmotionDetector.

Lemma lower_idempotent (c : ascii) : lower (lower c) = lower c.
Proof. destruct c as [[] [] [] [] [] [] [] []]; reflexivity. Qed.

Lemma toLowerCase_idempotent (s : string) :
  toLowerCase (toLowerCase s) = toLowerCase s.
Proof.
  induction s as [|c s IH]; simpl; [reflexivity|].
  now rewrite lower_idempotent, IH.
Qed.

Lemma some_match {A : Type} (f : A -> bool) (l : list A) :
  (0 <? List.length (filter f l))%nat = existsb f l.
Proof.
  induction l as [|a l IH]; simpl; [reflexivity|].
  destruct (f a); simpl; [reflexivity | exact IH].
Qed.

(** The first category with a keyword in the text wins. *)
Lemma detect_first_match (table : list (emotion * list string))
      (lowerText : string) (e : emotion) :
  detect table lowerText = e ->
  (exists before keywords after,
      table = (before ++ (e, keywords) :: after)%list
      /\ existsb (fun k => includes lowerText k) keywords = true
      /\ Forall (fun entry =>
                   existsb (fun k => includes lowerText k) (snd entry) = false)
                before)
  \/ (e = neutral
      /\ Forall (fun entry =>
                   existsb (fun k => includes lowerText k) (snd entry) = false)
                table).
Proof.
  revert e. induction table as [|[e0 kws] rest IH]; intros e; simpl.
  - intros <-. right. split; [reflexivity | constructor].
  - rewrite some_match.
    destruct (existsb (fun k => includes lowerText k) kws) eqn:Hm.
    + intros <-. left. exists [], kws, rest. repeat split; auto.
    + intro H.
      destruct (IH e H) as [[before [ks [after [Ht [Hk Hb]]]]]|[Hn Hall]].
      * left. exists ((e0, kws) :: before), ks, after.
        rewrite Ht. repeat split; auto.
      * right. split; [exact Hn | constructor; auto].
Qed.

(** X17 -- first match, in any case.  [detectEmotion] does not depend on
    the case of the letters of the text.  When it returns a category
    other than neutral, a keyword of that category occurs in the
    lower-cased text and no keyword of a category listed before it does.
    It returns neutral exactly when no keyword of the four other
    categories occurs; the keywords listed for neutral have no effect. *)
Theorem emotion_first_match (text : string) :
  detectEmotion (toLowerCase text) = detectEmotion text
  /\ (detectEmotion text <> neutral ->
      exists before keywords after,
        emotions = (before ++ (detectEmotion text, keywords) :: after)%list
        /\ existsb (fun k => includes (toLowerCase text) k) keywords = true
        /\ Forall (fun entry =>
                     existsb (fun k => includes (toLowerCase text) k)
                             (snd entry) = false)
                  before)
  /\ (detectEmotion text = neutral <->
      Forall (fun entry =>
                existsb (fun k => includes (toLowerCase text) k) (snd entry)
                = false)
             (firstn 4 emotions)).
Proof.
  split; [|split].
  - unfold detectEmotion. now rewrite toLowerCase_idempotent.
  - intro Hne. unfold detectEmotion in *.
    destruct (detect_first_match emotions (toLowerCase text) _ eq_refl)
      as [H|[H _]]; [exact H | contradiction].
  - unfold detectEmotion, emotions, detect. rewrite !some_match.
    cbn [firstn].
    set (f := fun k => includes (toLowerCase text) k).
    split.
    + intro H.
      repeat match type of H with
             | (if existsb f ?l then _ else _) = _ =>
                 destruct (existsb f l) eqn:?; [discriminate|]
             end.
      repeat constructor; assumption.
    + intro H.
      repeat match type of H with
             | Forall _ (_ :: _) =>
                 let H1 := fresh in let H2 := fresh in
                 inversion H as [|? ? H1 H2]; subst; clear H;
                 cbn [snd] in H1; rewrite H1; rename H2 into H
             end.
      match goal with |- (if ?b then _ else _) = _ => now destruct b end.
Qed.

Lemma emotion_first_match_witness :
  detectEmotion "Good, what now?" <> neutral
  /\ exists before keywords after,
      emotions
      = (before ++ (detectEmotion "Good, what now?", keywords) :: after)%list
      /\ existsb (fun k => includes (toLowerCase "Good, what now?") k)
                 keywords = true.
Proof.
  assert (H : detectEmotion "Good, what now?" <> neutral)
    by (vm_compute; discriminate).
  split; [exact H|].
  destruct (proj1 (proj2 (emotion_first_match "Good, what now?")) H)
    as [before [keywords [after [H1 [H2 _]]]]].
  exists before, keywords, after. split; [exact H1 | exact H2].
Defined.

End EmotionExtras.

Section ConversationExtras.
Import JsString EmotionDetector.

Lemma most_common_small (found : list emotion) :
  found <> [] -> List.length found <= 3 ->
  exists e,
    most_common found = Returned e
    /\ In e found
    /\ (forall e', count_occ emotion_eq_dec found e'
                   <= count_occ emotion_eq_dec found e)
    /\ (count_occ emotion_eq_dec found (last found neutral)
        = count_occ emotion_eq_dec found e ->
        e = last found neutral).
Proof.
  intros Hne Hlen.
  destruct found as [|a [|b [|c [|d r]]]]; simpl in Hlen;
    try congruence; try lia; clear Hne Hlen.
  - destruct a;
      (eexists; split; [vm_compute; reflexivity|];
       split; [simpl; tauto|];
       split; [intro e'; destruct e'; vm_compute; lia|];
       vm_compute; intro; first [reflexivity | discriminate]).
  - destruct a, b;
      (eexists; split; [vm_compute; reflexivity|];
       split; [simpl; tauto|];
       split; [intro e'; destruct e'; vm_compute; lia|];
       vm_compute; intro; first [reflexivity | discriminate]).
  - destruct a, b, c;
      (eexists; split; [vm_compute; reflexivity|];
       split; [simpl; tauto|];
       split; [intro e'; destruct e'; vm_compute; lia|];
       vm_compute; intro; first [reflexivity | discriminate]).
Qed.

(** X18 -- the prevailing emotion.  [analyzeConversation] throws a
    [TypeError] on an empty list of messages.  On any other list it looks
    at the last three messages only and returns an emotion detected in one
    of them that no other emotion outnumbers; when the emotion of the most
    recent message is among the most frequent, that emotion is returned. *)
Theorem analyze_conversation
        (older recent messages : list LLMClient.message) :
  analyzeConversation [] = Thrown TypeError
  /\ (List.length recent = 3 ->
      analyzeConversation (older ++ recent) = analyzeConversation recent)
  /\ (messages <> [] ->
      exists e,
        analyzeConversation messages = Returned e
        /\ In e (List.map (fun m => detectEmotion (LLMClient.content m))
                          (skipn (List.length messages - 3) messages))
        /\ (forall e',
               count_occ emotion_eq_dec
                 (List.map (fun m => detectEmotion (LLMClient.content m))
                           (skipn (List.length messages - 3) messages)) e'
               <= count_occ emotion_eq_dec
                    (List.map (fun m => detectEmotion (LLMClient.content m))
                              (skipn (List.length messages - 3) messages)) e)
        /\ (count_occ emotion_eq_dec
              (List.map (fun m => detectEmotion (LLMClient.content m))
                        (skipn (List.length messages - 3) messages))
              (last (List.map (fun m => detectEmotion (LLMClient.content m))
                              (skipn (List.length messages - 3) messages))
                    neutral)
            = count_occ emotion_eq_dec
                (List.map (fun m => detectEmotion (LLMClient.content m))
                          (skipn (List.length messages - 3) messages)) e ->
            e = last (List.map (fun m => detectEmotion (LLMClient.content m))
                               (skipn (List.length messages - 3) messages))
                     neutral)).
Proof.
  split; [reflexivity|]. split.
  - intro H. unfold analyzeConversation.
    rewrite <- H at 1. rewrite skipn_older.
    rewrite H. reflexivity.
  - intro Hne. unfold analyzeConversation.
    apply most_common_small.
    + intro H. apply map_eq_nil in H.
      apply (f_equal (@List.length _)) in H. rewrite length_skipn in H.
      assert (Hpos : 0 < List.length messages)
        by (destruct messages; [congruence | simpl; lia]).
      cbn [List.length] in H. lia.
    + rewrite length_map, length_skipn. lia.
Qed.

Lemma analyze_conversation_witness :
  [LLMClient.msg LLMClient.user "Okay";
   LLMClient.msg LLMClient.assistant "Why so?"] <> []
  /\ analyzeConversation
       [LLMClient.msg LLMClient.user "Okay";
        LLMClient.msg LLMClient.assistant "Why so?"]
     = Returned curious.
Proof.
  assert (H : [LLMClient.msg LLMClient.user "Okay";
               LLMClient.msg LLMClient.assistant "Why so?"] <> [])
    by discriminate.
  split; [exact H|].
  destruct (proj2 (proj2 (analyze_conversation
                            [] []
                            [LLMClient.msg LLMClient.user "Okay";
                             LLMClient.msg LLMClient.assistant "Why so?"]))
                  H) as [e [He _]].
  rewrite He. f_equal. vm_compute in He. now injection He.
Defined.

End ConversationExtras.

(** ** The cache in front of the generator *)

Section AppExtras.
Import JsString JsNumber App.

Variable Cap : Type.
Variable pipeline : Cap -> string -> number -> option string * Cap.

Lemma persist_keeps_cache (c : CacheManager.t) (st : LocalStorage.t) :
  exists st', CacheManager.persist c st = Returned (c, st').
Proof.
  unfold CacheManager.persist, LocalStorage.setItem.
  destruct (LocalStorage.accessible st); cbn; eauto.
  destruct (LocalStorage.usage _ <=? LocalStorage.quota st)%nat; cbn; eauto.
Qed.

(** The [try] block when the cache answers. *)
Lemma try_block_hit (transcript v : string) (pick : nat) (w : world Cap) :
  fst (CacheManager.get transcript (cacheManager (app Cap w))) = Some v ->
  v <> EmptyString ->
  try_block Cap pipeline transcript pick w
  = (Returned v,
     mk_world Cap
       (mk (snd (CacheManager.get transcript (cacheManager (app Cap w))))
           (llmClient (app Cap w)) (S (cacheHits (app Cap w)))
           (cacheMisses (app Cap w)) (isInterviewActive (app Cap w))
           (isProcessing (app Cap w)))
       (store Cap w) (capability Cap w)).
Proof.
  intros Hget Hne. unfold try_block.
  destruct (CacheManager.get transcript (cacheManager (app Cap w)))
    as [cached cm1].
  simpl in Hget. subst cached. destruct v as [|a r]; [congruence|].
  reflexivity.
Qed.

Lemma not_guarded (transcript : string) (a : t) :
  transcript <> EmptyString ->
  isProcessing a = false ->
  isInterviewActive a = true ->
  guarded transcript a = false.
Proof.
  intros Hne Hp Ha. unfold guarded. rewrite Hp, Ha.
  destruct transcript; [congruence | reflexivity].
Qed.

Lemma handle_hit (transcript v : string) (pick : nat) (w : world Cap) :
  transcript <> EmptyString ->
  isProcessing (app Cap w) = false ->
  isInterviewActive (app Cap w) = true ->
  fst (CacheManager.get transcript (cacheManager (app Cap w))) = Some v ->
  v <> EmptyString ->
  handleUserSpeech Cap pipeline transcript pick w
  = (Answered v,
     mk_world Cap
       (mk (snd (CacheManager.get transcript (cacheManager (app Cap w))))
           (llmClient (app Cap w)) (S (cacheHits (app Cap w)))
           (cacheMisses (app Cap w)) true false)
       (store Cap w) (capability Cap w)).
Proof.
  intros Hne Hp Ha Hget Hv. unfold handleUserSpeech.
  rewrite (not_guarded transcript (app Cap w) Hne Hp Ha).
  set (w1 := mk_world Cap (set_isProcessing true (app Cap w)) (store Cap w)
                      (capability Cap w)).
  assert (Hget1 : fst (CacheManager.get transcript
                                        (cacheManager (app Cap w1)))
                  = Some v) by exact Hget.
  rewrite (try_block_hit transcript v pick w1 Hget1 Hv).
  simpl. now rewrite Ha.
Qed.

(** X19 -- a cached response bypasses the generator.  In an active
    interview, with no call being processed, when the cache holds a text
    that is not empty for the transcript (itself not empty),
    [handleUserSpeech] answers with that text and counts a hit; the
    capability is not invoked, the store is not written, and the client
    of the generator, its conversation history included, is left as it
    was: the exchange is not recorded in the history.  [isProcessing] is
    cleared at the end and the interview stays active. *)
Theorem cached_response_bypasses_generator
        (transcript v : string) (pick : nat) (w : world Cap) :
  transcript <> EmptyString ->
  isProcessing (app Cap w) = false ->
  isInterviewActive (app Cap w) = true ->
  fst (CacheManager.get transcript (cacheManager (app Cap w))) = Some v ->
  v <> EmptyString ->
  fst (handleUserSpeech Cap pipeline transcript pick w) = Answered v
  /\ llmClient (app Cap (snd (handleUserSpeech Cap pipeline transcript pick w)))
     = llmClient (app Cap w)
  /\ capability Cap (snd (handleUserSpeech Cap pipeline transcript pick w))
     = capability Cap w
  /\ store Cap (snd (handleUserSpeech Cap pipeline transcript pick w))
     = store Cap w
  /\ cacheHits (app Cap (snd (handleUserSpeech Cap pipeline transcript pick w)))
     = S (cacheHits (app Cap w))
  /\ cacheMisses
       (app Cap (snd (handleUserSpeech Cap pipeline transcript pick w)))
     = cacheMisses (app Cap w)
  /\ isProcessing
       (app Cap (snd (handleUserSpeech Cap pipeline transcript pick w)))
     = false
  /\ isInterviewActive
       (app Cap (snd (handleUserSpeech Cap pipeline transcript pick w)))
     = true.
Proof.
  intros Hne Hp Ha Hget Hv.
  rewrite (handle_hit transcript v pick w Hne Hp Ha Hget Hv).
  simpl. auto 8.
Qed.

Lemma get_again (key key' v : string) (c : CacheManager.t) :
  CacheManager.hash key' = CacheManager.hash key ->
  fst (CacheManager.get key c) = Some v ->
  fst (CacheManager.get key' (snd (CacheManager.get key c))) = Some v.
Proof.
  intros Hh. unfold CacheManager.get at 1 3.
  destruct (JsMap.has (CacheManager.hash key) (CacheManager.cache c));
    [|discriminate].
  destruct (JsMap.get (CacheManager.hash key) (CacheManager.cache c))
    as [entry|]; [|discriminate].
  cbn [fst snd]. intro H. injection H as ->.
  unfold CacheManager.get. cbn [CacheManager.cache]. rewrite Hh.
  unfold JsMap.has. now rewrite !get_set_same.
Qed.

Lemma length_not_empty (s : string) : 10 <= String.length s -> s <> EmptyString.
Proof. intros H ->. simpl in H. lia. Qed.

(** The [try] block when the cache does not answer. *)
Lemma try_block_generated (transcript : string) (pick : nat) (w : world Cap) :
  LLMClient.isModelLoaded (llmClient (app Cap w)) = true ->
  pick < List.length LLMClient.genericQuestions ->
  (forall a r,
      fst (CacheManager.get transcript (cacheManager (app Cap w)))
      <> Some (String a r)) ->
  exists response st',
    LLMClient.result Cap
      (LLMClient.generateResponse Cap pipeline transcript pick
                                  (llmClient (app Cap w)) (capability Cap w))
    = Returned response
    /\ response <> EmptyString
    /\ try_block Cap pipeline transcript pick w
       = (Returned response,
          mk_world Cap
            (mk (CacheManager.set
                   transcript response
                   (snd (CacheManager.get transcript
                                          (cacheManager (app Cap w)))))
                (LLMClient.client Cap
                   (LLMClient.generateResponse
                      Cap pipeline transcript pick (llmClient (app Cap w))
                      (capability Cap w)))
                (cacheHits (app Cap w)) (S (cacheMisses (app Cap w)))
                (isInterviewActive (app Cap w)) (isProcessing (app Cap w)))
            st'
            (LLMClient.capability Cap
               (LLMClient.generateResponse
                  Cap pipeline transcript pick (llmClient (app Cap w))
                  (capability Cap w)))).
Proof.
  intros Hl Hp Hmiss. unfold try_block.
  destruct (CacheManager.get transcript (cacheManager (app Cap w)))
    as [cached cm1].
  assert (Hc : match cached with Some (String _ _) => False | _ => True end).
  { destruct cached as [[|a r]|]; auto. exact (Hmiss a r eq_refl). }
  destruct (response_shape Cap pipeline (llmClient (app Cap w)) transcript
                           pick (capability Cap w) Hl Hp)
    as [response [Hr [_ Hlen]]].
  destruct (persist_keeps_cache (CacheManager.set transcript response cm1)
                                (store Cap w)) as [st' Hpersist].
  exists response, st'.
  split; [exact Hr|]. split; [apply length_not_empty; lia|].
  destruct cached as [[|a r]|]; try contradiction;
    cbv zeta; rewrite Hr, Hpersist; reflexivity.
Qed.

(** X20 -- a repeated utterance is served from the cache.  In an active
    interview, with the model loaded and no call being processed,
    [handleUserSpeech] answers a transcript that is not empty with a
    text; a second call right after it, for a transcript with the same
    normalized key, answers with the same text without invoking the
    capability and without touching the client of the generator. *)
Theorem repeated_utterance_is_cached
        (transcript transcript' : string) (pick pick' : nat) (w : world Cap) :
  transcript <> EmptyString ->
  transcript' <> EmptyString ->
  isProcessing (app Cap w) = false ->
  isInterviewActive (app Cap w) = true ->
  LLMClient.isModelLoaded (llmClient (app Cap w)) = true ->
  pick < List.length LLMClient.genericQuestions ->
  CacheManager.hash transcript' = CacheManager.hash transcript ->
  exists response,
    fst (handleUserSpeech Cap pipeline transcript pick w) = Answered response
    /\ fst (handleUserSpeech Cap pipeline transcript' pick'
              (snd (handleUserSpeech Cap pipeline transcript pick w)))
       = Answered response
    /\ llmClient
         (app Cap
            (snd (handleUserSpeech Cap pipeline transcript' pick'
                    (snd (handleUserSpeech Cap pipeline transcript pick w)))))
       = llmClient
           (app Cap (snd (handleUserSpeech Cap pipeline transcript pick w)))
    /\ capability Cap
         (snd (handleUserSpeech Cap pipeline transcript' pick'
                 (snd (handleUserSpeech Cap pipeline transcript pick w))))
       = capability Cap
           (snd (handleUserSpeech Cap pipeline transcript pick w)).
Proof.
  intros Hne Hne' Hproc Hact Hl Hp Hh.
  set (w1 := mk_world Cap (set_isProcessing true (app Cap w)) (store Cap w)
                      (capability Cap w)).
  assert (Hstep : handleUserSpeech Cap pipeline transcript pick w
                  = (match fst (try_block Cap pipeline transcript pick w1) with
                     | Returned response => Answered response
                     | Thrown e => Alerted e
                     | Unmodelled => Untyped
                     end,
                     mk_world Cap
                       (set_isProcessing
                          false
                          (app Cap (snd (try_block Cap pipeline transcript
                                                   pick w1))))
                       (store Cap (snd (try_block Cap pipeline transcript
                                                  pick w1)))
                       (capability Cap (snd (try_block Cap pipeline transcript
                                                       pick w1))))).
  { unfold handleUserSpeech.
    rewrite (not_guarded transcript (app Cap w) Hne Hproc Hact).
    fold w1. now destruct (try_block Cap pipeline transcript pick w1). }
  assert (Hfirst : exists response,
             fst (handleUserSpeech Cap pipeline transcript pick w)
             = Answered response
             /\ response <> EmptyString
             /\ fst (CacheManager.get
                       transcript'
                       (cacheManager
                          (app Cap (snd (handleUserSpeech Cap pipeline
                                           transcript pick w)))))
                = Some response
             /\ isProcessing
                  (app Cap (snd (handleUserSpeech Cap pipeline transcript
                                                  pick w))) = false
             /\ isInterviewActive
                  (app Cap (snd (handleUserSpeech Cap pipeline transcript
                                                  pick w))) = true).
  { rewrite Hstep.
    destruct (fst (CacheManager.get transcript (cacheManager (app Cap w))))
      as [[|a r]|] eqn:Hget.
    - destruct (try_block_generated transcript pick w1 Hl Hp)
        as [response [st' [_ [Hr Htry]]]];
        [intros a r; simpl; rewrite Hget; discriminate|].
      rewrite Htry. exists response. simpl.
      repeat split; auto. now apply set_then_get.
    - assert (Hv : String a r <> EmptyString) by discriminate.
      rewrite (try_block_hit transcript (String a r) pick w1 Hget Hv).
      exists (String a r). simpl.
      repeat split; auto. now apply get_again.
    - destruct (try_block_generated transcript pick w1 Hl Hp)
        as [response [st' [_ [Hr Htry]]]];
        [intros a r; simpl; rewrite Hget; discriminate|].
      rewrite Htry. exists response. simpl.
      repeat split; auto. now apply set_then_get. }
  destruct Hfirst as [response [Hr [Hv [Hg [Hp' Ha']]]]].
  exists response. split; [exact Hr|].
  rewrite (handle_hit transcript' response pick' _ Hne' Hp' Ha' Hg Hv).
  simpl. auto.
Qed.

(** X21 -- the guard.  A call of [handleUserSpeech] with an empty
    transcript, or while another call is being processed, or when no
    interview is active, does nothing: the cache is not asked, no counter
    moves, the capability is not invoked, the history and the store stay
    as they are.  Any other call, with the model loaded, is answered, and
    leaves [isProcessing] cleared and the interview active. *)
Theorem guarded_call_is_ignored
        (transcript : string) (pick : nat) (w : world Cap) :
  (transcript = EmptyString
   \/ isProcessing (app Cap w) = true
   \/ isInterviewActive (app Cap w) = false ->
   handleUserSpeech Cap pipeline transcript pick w = (Ignored, w))
  /\ (transcript <> EmptyString ->
      isProcessing (app Cap w) = false ->
      isInterviewActive (app Cap w) = true ->
      LLMClient.isModelLoaded (llmClient (app Cap w)) = true ->
      pick < List.length LLMClient.genericQuestions ->
      exists response,
        fst (handleUserSpeech Cap pipeline transcript pick w)
        = Answered response
        /\ isProcessing
             (app Cap (snd (handleUserSpeech Cap pipeline transcript pick w)))
           = false
        /\ isInterviewActive
             (app Cap (snd (handleUserSpeech Cap pipeline transcript pick w)))
           = true).
Proof.
  split.
  - intro H. unfold handleUserSpeech, guarded.
    destruct transcript as [|ch r]; [reflexivity|].
    destruct H as [H|[H|H]]; [discriminate | |]; rewrite H;
      [reflexivity | now rewrite orb_true_r].
  - intros Hne Hproc Hact Hl Hp.
    set (w1 := mk_world Cap (set_isProcessing true (app Cap w)) (store Cap w)
                        (capability Cap w)).
    unfold handleUserSpeech.
    rewrite (not_guarded transcript (app Cap w) Hne Hproc Hact).
    fold w1.
    destruct (fst (CacheManager.get transcript (cacheManager (app Cap w))))
      as [[|a r]|] eqn:Hget.
    + destruct (try_block_generated transcript pick w1 Hl Hp)
        as [response [st' [_ [Hr Htry]]]];
        [intros a r; simpl; rewrite Hget; discriminate|].
      rewrite Htry. exists response. simpl. auto.
    + assert (Hv : String a r <> EmptyString) by discriminate.
      rewrite (try_block_hit transcript (String a r) pick w1 Hget Hv).
      exists (String a r). simpl. auto.
    + destruct (try_block_generated transcript pick w1 Hl Hp)
        as [response [st' [_ [Hr Htry]]]];
        [intros a r; simpl; rewrite Hget; discriminate|].
      rewrite Htry. exists response. simpl. auto.
Qed.

End AppExtras.

Section AppWitnesses.
Import JsString JsNumber App Session.

Lemma cached_response_witness :
  ("  hello " <> EmptyString
   /\ isProcessing (app nat warmed) = false
   /\ isInterviewActive (app nat warmed) = true
   /\ fst (CacheManager.get "  hello " (cacheManager (app nat warmed)))
      = Some "Why?"
   /\ "Why?" <> EmptyString)
  /\ fst (handleUserSpeech nat Design.flaky "  hello " 0 warmed)
     = Answered "Why?"
  /\ llmClient
       (app nat (snd (handleUserSpeech nat Design.flaky "  hello " 0 warmed)))
     = llmClient (app nat warmed)
  /\ capability nat (snd (handleUserSpeech nat Design.flaky "  hello " 0
                                           warmed))
     = capability nat warmed.
Proof.
  assert (H0 : "  hello " <> EmptyString) by discriminate.
  assert (Hp : isProcessing (app nat warmed) = false) by reflexivity.
  assert (Ha : isInterviewActive (app nat warmed) = true) by reflexivity.
  assert (H1 : fst (CacheManager.get "  hello "
                                     (cacheManager (app nat warmed)))
               = Some "Why?") by reflexivity.
  assert (H2 : "Why?" <> EmptyString) by discriminate.
  split; [auto 6|].
  destruct (cached_response_bypasses_generator
              nat Design.flaky "  hello " "Why?" 0 warmed H0 Hp Ha H1 H2)
    as [Hr [Hc [Hk _]]].
  split; [exact Hr | split; [exact Hc | exact Hk]].
Defined.

Lemma repeated_utterance_witness :
  ("Hello there" <> EmptyString
   /\ " HELLO there " <> EmptyString
   /\ isProcessing (app nat started) = false
   /\ isInterviewActive (app nat started) = true
   /\ LLMClient.isModelLoaded (llmClient (app nat started)) = true
   /\ 2 < List.length LLMClient.genericQuestions
   /\ CacheManager.hash " HELLO there " = CacheManager.hash "Hello there")
  /\ exists response,
      fst (handleUserSpeech nat Design.flaky "Hello there" 2 started)
      = Answered response
      /\ fst (handleUserSpeech nat Design.flaky " HELLO there " 0
                (snd (handleUserSpeech nat Design.flaky "Hello there" 2
                                       started)))
         = Answered response.
Proof.
  assert (H0 : "Hello there" <> EmptyString) by discriminate.
  assert (H0' : " HELLO there " <> EmptyString) by discriminate.
  assert (Hp : isProcessing (app nat started) = false) by reflexivity.
  assert (Ha : isInterviewActive (app nat started) = true) by reflexivity.
  assert (H1 : LLMClient.isModelLoaded (llmClient (app nat started)) = true)
    by reflexivity.
  assert (H2 : 2 < List.length LLMClient.genericQuestions) by (simpl; lia).
  assert (H3 : CacheManager.hash " HELLO there "
               = CacheManager.hash "Hello there") by reflexivity.
  split; [auto 8|].
  destruct (repeated_utterance_is_cached
              nat Design.flaky "Hello there" " HELLO there " 2 0 started
              H0 H0' Hp Ha H1 H2 H3) as [response [Hr [Hr' _]]].
  exists response. split; [exact Hr | exact Hr'].
Defined.

Lemma guarded_call_witness :
  ("" = EmptyString
   \/ isProcessing (app nat warmed) = true
   \/ isInterviewActive (app nat warmed) = false)
  /\ handleUserSpeech nat Design.flaky "" 0 warmed = (Ignored, warmed).
Proof.
  assert (H : "" = EmptyString
              \/ isProcessing (app nat warmed) = true
              \/ isInterviewActive (app nat warmed) = false)
    by (left; reflexivity).
  split; [exact H|].
  exact (proj1 (guarded_call_is_ignored nat Design.flaky "" 0 warmed) H).
Defined.

End AppWitnesses.

(** ** Insertions of new keys only *)

Section WindowExtras.
Import CacheManager Session.

Lemma set_all_app (calls calls' : list (string * string))
      (c : CacheManager.t) :
  set_all (calls ++ calls')%list c = set_all calls' (set_all calls c).
Proof. unfold set_all. apply fold_left_app. Qed.

Lemma skipn_next {A : Type} (m : nat) (l rest : list A) (x : A) :
  skipn m l = x :: rest -> skipn (S m) l = rest.
Proof.
  revert l. induction m as [|m IH]; intros [|y l] H;
    try discriminate.
  - simpl in H. now injection H as _ <-.
  - change (skipn (S (S m)) (y :: l)) with (skipn (S m) l).
    apply IH. exact H.
Qed.

Lemma sliding_window (limit : nat) (calls : list (string * string)) :
  1 <= limit ->
  NoDup (List.map fst (requested calls)) ->
  cache (set_all calls (new (Z.of_nat limit)))
  = skipn (List.length calls - limit) (requested calls).
Proof.
  intros Hpos. induction calls as [|[k v] calls IH] using rev_ind; intro Hnd.
  - reflexivity.
  - unfold requested in *. rewrite map_app in *. cbn [List.map fst snd] in *.
    rewrite map_app in Hnd. cbn [List.map fst] in Hnd.
    assert (Hnd' : NoDup (List.map fst
                            (List.map (fun kv => (hash (fst kv), snd kv))
                                      calls))).
    { now apply NoDup_remove_1 in Hnd; rewrite app_nil_r in Hnd. }
    assert (Hnew : ~ In (hash k)
                     (List.map fst
                        (List.map (fun kv => (hash (fst kv), snd kv)) calls))).
    { apply NoDup_remove_2 in Hnd. now rewrite app_nil_r in Hnd. }
    specialize (IH Hnd').
    rewrite set_all_app. cbn [set_all fold_left fst snd].
    set (c := set_all calls (new (Z.of_nat limit))) in *.
    set (entries := List.map (fun kv => (hash (fst kv), snd kv)) calls) in *.
    assert (Hlen : List.length entries = List.length calls)
      by (unfold entries; apply length_map).
    assert (Hmax : maxSize c = Z.of_nat limit)
      by (unfold c; apply maxSize_set_all).
    assert (Hhas : has k c = false).
    { unfold has. apply has_false_iff. rewrite IH. intro Hin. apply Hnew.
      unfold JsMap.keys in Hin. apply in_map_iff in Hin.
      destruct Hin as [x [Hx Hin]]. apply in_map_iff. exists x.
      split; [exact Hx|]. rewrite <- (firstn_skipn (List.length calls - limit)).
      apply in_or_app. now right. }
    assert (Hsize : size c = List.length calls - (List.length calls - limit)).
    { unfold size, JsMap.size. rewrite IH, length_skipn. lia. }
    rewrite length_app. cbn [List.length].
    destruct (Nat.lt_ge_cases (List.length calls) limit) as [Hlt|Hge].
    + rewrite set_room; [|exact Hhas|rewrite Hmax; lia].
      rewrite IH.
      replace (List.length calls - limit) with 0 by lia.
      replace (List.length calls + 1 - limit) with 0 by lia.
      reflexivity.
    + destruct (cache c) as [|[k0 v0] rest] eqn:Hc.
      { unfold size, JsMap.size in Hsize. rewrite Hc in Hsize.
        simpl in Hsize. lia. }
      rewrite (set_full k v k0 v0 rest c);
        [|exact Hc|exact Hhas|rewrite Hmax; lia].
      symmetry in IH. apply skipn_next in IH.
      replace (List.length calls + 1 - limit)
        with (S (List.length calls - limit)) by lia.
      rewrite skipn_app, IH.
      replace (S (List.length calls - limit) - List.length entries)
        with 0 by lia.
      reflexivity.
Qed.

(** X22 -- a sliding window over new keys.  When every call of a
    sequence of [set] calls brings a normalized key not seen before, a
    cache constructed with capacity [limit >= 1] holds afterwards exactly
    the entries of the last [limit] calls (of all calls, when there are
    fewer), in the order of the calls. *)
Theorem new_keys_slide (limit : nat) (calls : list (string * string)) :
  1 <= limit ->
  NoDup (List.map fst (requested calls)) ->
  cache (set_all calls (new (Z.of_nat limit)))
  = skipn (List.length calls - limit) (requested calls).
Proof. apply sliding_window. Qed.

Lemma new_keys_slide_witness :
  (1 <= 2
   /\ NoDup (List.map fst (requested [("A", "1"); ("B", "2"); ("C", "3")])))
  /\ cache (set_all [("A", "1"); ("B", "2"); ("C", "3")] (new (Z.of_nat 2)))
     = [("b", "2"); ("c", "3")].
Proof.
  assert (H1 : 1 <= 2) by lia.
  assert (H2 : NoDup (List.map fst
                        (requested [("A", "1"); ("B", "2"); ("C", "3")])))
    by (repeat constructor; simpl; intuition discriminate).
  split; [auto|].
  exact (new_keys_slide 2 [("A", "1"); ("B", "2"); ("C", "3")] H1 H2).
Defined.

(** X23 -- [has] and [get] agree.  [has] answers true exactly when [get]
    returns a value, and then the value is the one stored under the
    normalized key. *)
Theorem has_agrees_with_get (key : string) (c : CacheManager.t) :
  (has key c = true <-> fst (get key c) <> None)
  /\ fst (get key c) = JsMap.get (hash key) (cache c).
Proof.
  unfold has, get, JsMap.has.
  destruct (JsMap.get (hash key) (cache c)) as [v|]; cbn.
  - split; [split; [discriminate | reflexivity] | reflexivity].
  - split; [split; [discriminate | congruence] | reflexivity].
Qed.

End WindowExtras.
